(** * Key diagnostics and battery history: a shallow embedding

    This development embeds the firmware side of the module
    (src/battery_history.c and src/studio/custom_handler.c) and proves the
    properties of the ring buffer of battery samples, of the per-key
    statistics tracker, of the charlieplex mapping resolver and of the two
    RPC dispatchers.

    Conventions.
    - C integers are [Z]; the wrap-around of every unsigned operation is
      written out ([uint32_wrap], [size_wrap]); the signed 64-bit
      subtraction of the listener wraps in two's complement ([int64_wrap]).
    - Array positions that are only compared and used as indices
      (key positions, matrix lines, loop counters) are [nat].
    - C arrays are lists, read with [!!] / [!!!] and written with
      [<[i:=x]>].
    - Functions that touch the file-scope statics take the state and give
      the new one back.  A read outside an array, or through a null
      pointer, has no defined result in C: such paths give [None]. *)

From Stdlib Require Import ZArith List Bool String Lia.
From stdpp Require Import base tactics option list list_numbers sorting.

Local Open Scope Z_scope.

(** ** Machine integers *)

Definition uint32_wrap (x : Z) : Z := x mod 2 ^ 32.

(** [size_t] is 32 bits wide on the Cortex-M targets of the firmware. *)
Definition size_wrap (x : Z) : Z := x mod 2 ^ 32.

Definition INT64_MIN : Z := - 2 ^ 63.
Definition INT64_MAX : Z := 2 ^ 63 - 1.

(** Two's complement representative of [x] in [INT64_MIN .. INT64_MAX]. *)
Definition int64_wrap (x : Z) : Z := (x + 2 ^ 63) mod 2 ^ 64 - 2 ^ 63.

(** The last [n] elements of a list (all of it when it is shorter). *)
Definition last_n {A} (n : nat) (l : list A) : list A :=
  drop (length l - n)%nat l.

(** [snprintf(dst, size, "%s", s)]: at most [size - 1] characters kept. *)
Definition snprintf_s (size : nat) (s : string) : string :=
  substring 0 (size - 1) s.

(** ** battery_history.c *)

Module BatteryHistory.

(** [struct zmk_battery_history_sample]: a [uint32_t] and a [uint8_t]. *)
Record zmk_battery_history_sample := {
  timestamp_seconds : Z;
  level_percent : Z;
}.

#[export] Instance sample_inhabited : Inhabited zmk_battery_history_sample :=
  populate {| timestamp_seconds := 0; level_percent := 0 |}.

(** The three statics of the file. *)
Record statics := {
  battery_history : list zmk_battery_history_sample;
  battery_history_count : Z;
  battery_history_head : Z;
}.

Section Config.

Variable CONFIG_ZMK_BATTERY_HISTORY_MAX_ENTRIES : Z.
Variable CONFIG_ZMK_BATTERY_HISTORY_SAMPLE_INTERVAL_SECONDS : Z.

Local Abbreviation MAX_ENTRIES := CONFIG_ZMK_BATTERY_HISTORY_MAX_ENTRIES.

(** Statics start zeroed. *)
Definition initial_state : statics :=
  {| battery_history :=
       replicate (Z.to_nat MAX_ENTRIES) inhabitant;
     battery_history_count := 0;
     battery_history_head := 0 |}.

(** The sample built at the top of [battery_history_record_sample];
    [uptime_ms] is what [k_uptime_get()] returns ([int64_t], so the
    division truncates) and the cast to [uint32_t] wraps. *)
Definition sample_at (uptime_ms level_percent : Z) : zmk_battery_history_sample :=
  {| timestamp_seconds := uint32_wrap (uptime_ms ÷ 1000);
     level_percent := level_percent |}.

(** The critical section of [battery_history_record_sample]. *)
Definition battery_history_store (sample : zmk_battery_history_sample)
    (st : statics) : statics :=
  {| battery_history :=
       <[Z.to_nat (battery_history_head st) := sample]> (battery_history st);
     battery_history_head :=
       size_wrap (battery_history_head st + 1) mod MAX_ENTRIES;
     battery_history_count :=
       if battery_history_count st <? MAX_ENTRIES
       then size_wrap (battery_history_count st + 1)
       else battery_history_count st |}.

Definition battery_history_record_sample (uptime_ms level_percent : Z)
    (st : statics) : statics :=
  battery_history_store (sample_at uptime_ms level_percent) st.

(** [zmk_battery_history_get_samples].  [buffer] is the caller's array
    ([None] for a null pointer), taken to have room for what is copied,
    as the array of the one caller has; the result is the array after
    the copy loop, the returned count and the (untouched) statics.  Every
    index into [battery_history] is reduced modulo the size of the array,
    hence the total lookup.  The sum behind [start_index] is taken modulo
    [2^32] once: wrapping after every [+] and [-], as C does, gives the
    same residue. *)
Definition zmk_battery_history_get_samples
    (buffer : option (list zmk_battery_history_sample)) (max_entries : Z)
    (st : statics) : option (list zmk_battery_history_sample) * Z * statics :=
  match buffer with
  | None => (None, 0, st)
  | Some buf =>
    if max_entries =? 0 then (Some buf, 0, st)
    else
      let total_entries := battery_history_count st in
      let available := Z.min total_entries max_entries in
      let skip :=
        if available <? total_entries
        then size_wrap (total_entries - available) else 0 in
      let start_index :=
        size_wrap (battery_history_head st + MAX_ENTRIES
                   - total_entries + skip) mod MAX_ENTRIES in
      let buf' :=
        foldl (fun b i =>
                 let index := size_wrap (start_index + i) mod MAX_ENTRIES in
                 <[Z.to_nat i := battery_history st !!! Z.to_nat index]> b)
              buf (seqZ 0 available) in
      (Some buf', available, st)
  end.

Definition zmk_battery_history_get_total_entries (st : statics) : Z * statics :=
  (battery_history_count st, st).

Definition zmk_battery_history_get_capacity : Z := MAX_ENTRIES.

Definition zmk_battery_history_get_sample_interval_seconds : Z :=
  CONFIG_ZMK_BATTERY_HISTORY_SAMPLE_INTERVAL_SECONDS.

Definition zmk_battery_history_clear (st : statics) : statics :=
  {| battery_history := battery_history st;
     battery_history_count := 0;
     battery_history_head := 0 |}.

(** The operations of the buffer, for statements about all of them. *)
Inductive operation :=
  | Push (sample : zmk_battery_history_sample)
  | Read (buffer : option (list zmk_battery_history_sample)) (max_entries : Z)
  | Clear.

Definition apply_operation (op : operation) (st : statics) : statics :=
  match op with
  | Push sample => battery_history_store sample st
  | Read buffer max_entries =>
      (zmk_battery_history_get_samples buffer max_entries st).2
  | Clear => zmk_battery_history_clear st
  end.

Definition apply_operations (ops : list operation) (st : statics) : statics :=
  foldl (fun s op => apply_operation op s) st ops.

(** Head inside the array, count at most the capacity, array of the
    configured size. *)
Definition ring_invariant (st : statics) : Prop :=
  length (battery_history st) = Z.to_nat MAX_ENTRIES ∧
  0 <= battery_history_head st < MAX_ENTRIES ∧
  0 <= battery_history_count st <= MAX_ENTRIES.

#[export] Instance ring_invariant_dec (st : statics) :
  Decision (ring_invariant st).
Proof. unfold ring_invariant. apply _. Defined.

(** *** Definitions used to state the properties of the buffer *)

(** The stored samples, oldest first: the slots a read of everything
    visits, in its order. *)
Definition contents (st : statics) : list zmk_battery_history_sample :=
  (fun i => battery_history st !!!
     Z.to_nat ((battery_history_head st + MAX_ENTRIES
                - battery_history_count st + i) mod MAX_ENTRIES))
  <$> seqZ 0 (battery_history_count st).

(** Pushing a run of samples, first to last. *)
Definition store_all (xs : list zmk_battery_history_sample) (st : statics)
    : statics :=
  foldl (fun s x => battery_history_store x s) st xs.

(** What a caller holding an array of [MAX_ENTRIES] elements gets from a
    read: the first [n] elements of its array, [n] being the result. *)
Definition read_samples (max_entries : Z) (st : statics)
    : list zmk_battery_history_sample :=
  let '(buffer, n, _) :=
    zmk_battery_history_get_samples
      (Some (replicate (Z.to_nat MAX_ENTRIES) inhabitant)) max_entries st in
  take (Z.to_nat n) (default [] buffer).

(** The buffer as the specification describes it: a queue of at most
    [MAX_ENTRIES] samples, a push on a full queue evicting the oldest. *)
Definition queue_step (op : operation)
    (q : list zmk_battery_history_sample) : list zmk_battery_history_sample :=
  match op with
  | Push sample =>
      if (length q <? Z.to_nat MAX_ENTRIES)%nat then q ++ [sample]
      else tail q ++ [sample]
  | Read _ _ => q
  | Clear => []
  end.

Definition queue_of (ops : list operation) : list zmk_battery_history_sample :=
  foldl (fun q op => queue_step op q) [] ops.

End Config.

End BatteryHistory.

(** ** studio/custom_handler.c, battery history subsystem *)

Module BatteryHistoryHandler.
Import BatteryHistory.

(** Modelled from the spec: the header nanopb generates from the proto
    file of the subsystem (zmk/battery_history/custom.pb.h) is not among
    the sources.  The messages below have the fields the handler assigns
    and section 6 of the specification lists.

    [zmk_battery_history_BatterySample]. *)
Record BatterySample := {
  sample_timestamp_seconds : Z;
  sample_level_percent : Z;
}.

(** Modelled from the spec: [zmk_battery_history_HistoryResponse].  A
    repeated field of nanopb (an array and its [_count]) is the list of
    the counted elements. *)
Record HistoryResponse := {
  samples : list BatterySample;
  samples_count : Z;
  capacity : Z;
  total_entries : Z;
  sample_interval_seconds : Z;
}.

(** Modelled from the spec: [zmk_battery_history_ClearHistoryResponse]. *)
Record ClearHistoryResponse := { success : bool }.

(** Modelled from the spec: [zmk_battery_history_ErrorResponse]. *)
Record ErrorResponse := { message : string }.

(** Modelled from the spec: [zmk_battery_history_Request], that is
    [which_request_type] and its union; [Request_other] stands for every
    tag the dispatcher has no case for. *)
Inductive Request :=
  | Request_get_history (max_entries : Z)
  | Request_clear_history
  | Request_other (which_request_type : Z).

(** Modelled from the spec: [zmk_battery_history_Response];
    [Response_init_zero] is the buffer before any handler wrote to it. *)
Inductive Response :=
  | Response_init_zero
  | Response_error (error : ErrorResponse)
  | Response_history (history : HistoryResponse)
  | Response_clear_history (clear_history : ClearHistoryResponse).

(** The field-by-field copy of the loop in [handle_get_history_request]. *)
Definition to_BatterySample (s : zmk_battery_history_sample) : BatterySample :=
  {| sample_timestamp_seconds := timestamp_seconds s;
     sample_level_percent := level_percent s |}.

Section Config.

Variable CONFIG_ZMK_BATTERY_HISTORY_MAX_ENTRIES : Z.
Variable CONFIG_ZMK_BATTERY_HISTORY_SAMPLE_INTERVAL_SECONDS : Z.
(** [sizeof(err.message)], from the generated header. *)
Variable ERROR_MESSAGE_SIZE : nat.
(** nanopb's [pb_decode] against [zmk_battery_history_Request_fields]:
    the decoded request, or [None] when the payload does not match. *)
Variable pb_decode : list Byte.byte -> option Request.

Local Abbreviation MAX_ENTRIES := CONFIG_ZMK_BATTERY_HISTORY_MAX_ENTRIES.

(** [history.samples] is taken to have room for [MAX_ENTRIES] samples. *)
Definition handle_get_history_request (req_max_entries : Z)
    (resp : Response) (st : statics) : Z * Response * statics :=
  let capacity := zmk_battery_history_get_capacity MAX_ENTRIES in
  let max_entries :=
    if req_max_entries =? 0 then capacity
    else Z.min req_max_entries capacity in
  (* the automatic array [samples]; only entries written by the call
     below are read afterwards *)
  let samples0 := replicate (Z.to_nat MAX_ENTRIES) inhabitant in
  let '(samples1, count, st) :=
    zmk_battery_history_get_samples MAX_ENTRIES (Some samples0)
      max_entries st in
  let '(total, st) := zmk_battery_history_get_total_entries st in
  let copied :=
    to_BatterySample <$> take (Z.to_nat count) (default [] samples1) in
  let history :=
    {| samples := copied;
       samples_count := count;
       capacity := capacity;
       total_entries := total;
       sample_interval_seconds :=
         zmk_battery_history_get_sample_interval_seconds
           CONFIG_ZMK_BATTERY_HISTORY_SAMPLE_INTERVAL_SECONDS |} in
  (0, Response_history history, st).

Definition handle_clear_history_request (resp : Response) (st : statics)
    : Z * Response * statics :=
  let st := zmk_battery_history_clear st in
  (0, Response_clear_history {| success := true |}, st).

Definition battery_history_rpc_handle_request (payload : list Byte.byte)
    (st : statics) : bool * Response * statics :=
  let resp := Response_init_zero in
  match pb_decode payload with
  | None =>
      let err :=
        {| message := snprintf_s ERROR_MESSAGE_SIZE "Failed to decode request" |} in
      (true, Response_error err, st)
  | Some req =>
      let '(rc, resp, st) :=
        match req with
        | Request_get_history max_entries =>
            handle_get_history_request max_entries resp st
        | Request_clear_history => handle_clear_history_request resp st
        | Request_other _ => (-1, resp, st)
        end in
      if rc =? 0 then (true, resp, st)
      else
        let err :=
          {| message := snprintf_s ERROR_MESSAGE_SIZE "Failed to process request" |} in
        (true, Response_error err, st)
  end.

End Config.

End BatteryHistoryHandler.

(** ** studio/custom_handler.c, key diagnostics subsystem *)

Module KeyDiagnostics.

Record key_diagnostics_stats := {
  press_count : Z;
  release_count : Z;
  chatter_count : Z;
  last_change_ms : Z;
  last_state : bool;
}.

Record key_gpio_mapping := {
  row : nat;
  column : nat;
  valid : bool;
}.

(** What [memset(.., 0, ..)] leaves in an element of each array. *)
Definition stats_zero : key_diagnostics_stats :=
  {| press_count := 0; release_count := 0; chatter_count := 0;
     last_change_ms := 0; last_state := false |}.

Definition mapping_zero : key_gpio_mapping :=
  {| row := 0; column := 0; valid := false |}.

(** [struct gpio_dt_spec]; [port] is the name of the device behind the
    pointer, [None] for a null pointer. *)
Record gpio_dt_spec := {
  port : option string;
  pin : Z;
  dt_flags : Z;
}.

Record zmk_key_physical_attrs := {
  attrs_x : Z; attrs_y : Z; attrs_width : Z; attrs_height : Z;
  attrs_rx : Z; attrs_ry : Z; attrs_r : Z;
}.

(** [struct zmk_physical_layout].  [matrix_transform] stands for the
    layout's transform handle together with
    [zmk_matrix_transform_row_column_to_position]: it sends a (row, column)
    pair to the [int32_t] that call returns. *)
Record zmk_physical_layout := {
  display_name : option string;
  keys : option (list zmk_key_physical_attrs);
  keys_len : nat;
  matrix_transform : nat -> nat -> Z;
}.

(** The layout collaborator: [zmk_physical_layouts_get_list] and
    [zmk_physical_layouts_get_selected]. *)
Record environment := {
  physical_layouts : list (option zmk_physical_layout);
  selected_layout : Z;
}.

(** The statics of the subsystem. *)
Record statics := {
  key_stats : list key_diagnostics_stats;
  key_mappings : list key_gpio_mapping;
  cached_layout : option zmk_physical_layout;
  cached_layout_index : Z;
  cached_layout_valid : bool;
}.

Definition set_key_stats (v : list key_diagnostics_stats) (st : statics) : statics :=
  {| key_stats := v; key_mappings := key_mappings st;
     cached_layout := cached_layout st;
     cached_layout_index := cached_layout_index st;
     cached_layout_valid := cached_layout_valid st |}.

Definition set_key_mappings (v : list key_gpio_mapping) (st : statics) : statics :=
  {| key_stats := key_stats st; key_mappings := v;
     cached_layout := cached_layout st;
     cached_layout_index := cached_layout_index st;
     cached_layout_valid := cached_layout_valid st |}.

Definition set_cache (layout : option zmk_physical_layout) (index : Z)
    (is_valid : bool) (st : statics) : statics :=
  {| key_stats := key_stats st; key_mappings := key_mappings st;
     cached_layout := layout;
     cached_layout_index := index;
     cached_layout_valid := is_valid |}.

(** [struct zmk_position_state_changed]. *)
Record zmk_position_state_changed := {
  position : nat;
  state : bool;
  timestamp : Z;
}.

(** An event header: a position-state-changed event or any other one. *)
Inductive zmk_event :=
  | Event_position_state_changed (ev : zmk_position_state_changed)
  | Event_other.

Definition as_zmk_position_state_changed (eh : zmk_event)
    : option zmk_position_state_changed :=
  match eh with
  | Event_position_state_changed ev => Some ev
  | Event_other => None
  end.

(** Listener results of zmk/event_manager.h. *)
Definition ZMK_EV_EVENT_BUBBLE : Z := 0.
Definition ZMK_EV_EVENT_HANDLED : Z := 1.
Definition ZMK_EV_EVENT_CAPTURED : Z := 2.

(** Modelled from the spec: the header nanopb generates from the proto
    file of the subsystem (zmk/key_diagnostics/custom.pb.h) is not among
    the sources.  The messages below have the fields the handler assigns
    and section 6 of the specification lists.

    [zmk_key_diagnostics_KscanType]. *)
Inductive KscanType :=
  | KSCAN_TYPE_UNSPECIFIED
  | KSCAN_TYPE_CHARLIEPLEX
  | KSCAN_TYPE_UNSUPPORTED.

(** Modelled from the spec: [zmk_key_diagnostics_GpioPin]. *)
Record GpioPin := {
  pin_port : string;
  pin_pin : Z;
  pin_flags : Z;
}.

Definition GpioPin_init_zero : GpioPin :=
  {| pin_port := ""; pin_pin := 0; pin_flags := 0 |}.

(** Modelled from the spec: [zmk_key_diagnostics_KeyDiagnostics]. *)
Record KeyDiagnostics := {
  entry_position : nat;
  entry_press_count : Z;
  entry_release_count : Z;
  entry_chatter_count : Z;
  entry_is_pressed : bool;
  entry_last_change_ms : Z;
  entry_row : nat;
  entry_column : nat;
  entry_has_gpio_mapping : bool;
  entry_drive_gpio : GpioPin;
  entry_sense_gpio : GpioPin;
}.

Definition KeyDiagnostics_init_zero : KeyDiagnostics :=
  {| entry_position := 0; entry_press_count := 0; entry_release_count := 0;
     entry_chatter_count := 0; entry_is_pressed := false;
     entry_last_change_ms := 0; entry_row := 0; entry_column := 0;
     entry_has_gpio_mapping := false;
     entry_drive_gpio := GpioPin_init_zero;
     entry_sense_gpio := GpioPin_init_zero |}.

(** Modelled from the spec: [zmk_key_diagnostics_KeyPhysical]. *)
Record KeyPhysical := {
  phys_position : nat;
  phys_x : Z; phys_y : Z; phys_width : Z; phys_height : Z;
  phys_rx : Z; phys_ry : Z; phys_r : Z;
}.

(** Modelled from the spec: [zmk_key_diagnostics_DiagnosticsReport].
    Repeated fields are the lists of their counted elements. *)
Record DiagnosticsReport := {
  layout_name : string;
  layout_index : Z;
  kscan_type : KscanType;
  chatter_window_ms : Z;
  physical_keys : list KeyPhysical;
  physical_keys_count : nat;
  report_keys : list KeyDiagnostics;
  keys_count : nat;
}.

Definition DiagnosticsReport_init_zero : DiagnosticsReport :=
  {| layout_name := ""; layout_index := 0;
     kscan_type := KSCAN_TYPE_UNSPECIFIED; chatter_window_ms := 0;
     physical_keys := []; physical_keys_count := 0;
     report_keys := []; keys_count := 0 |}.

(** Modelled from the spec: [zmk_key_diagnostics_ResetDiagnosticsResponse]. *)
Record ResetDiagnosticsResponse := { ok : bool }.

(** Modelled from the spec: [zmk_key_diagnostics_ErrorResponse]. *)
Record ErrorResponse := { message : string }.

(** Modelled from the spec: [zmk_key_diagnostics_Request], that is
    [which_request_type] and its union; [Request_other] stands for every
    tag the dispatcher has no case for. *)
Inductive Request :=
  | Request_get_report (reset_after : bool)
  | Request_reset
  | Request_other (which_request_type : Z).

(** Modelled from the spec: [zmk_key_diagnostics_Response];
    [Response_init_zero] is the buffer before any handler wrote to it. *)
Inductive Response :=
  | Response_init_zero
  | Response_error (error : ErrorResponse)
  | Response_diagnostics (diagnostics : DiagnosticsReport)
  | Response_reset (reset : ResetDiagnosticsResponse).

(** What is fixed when the firmware is built: Kconfig values, devicetree
    facts and array sizes of the generated protobuf header
    ([ARRAY_SIZE(report->keys)], [ARRAY_SIZE(report->physical_keys)],
    [sizeof(report->layout_name)], [sizeof(pin->port)],
    [sizeof(err.message)]). *)
Record config := {
  ZMK_KEYMAP_LEN : nat;
  CONFIG_ZMK_KEY_DIAGNOSTICS_CHATTER_WINDOW_MS : Z;
  (* whether the chosen kscan is a charlieplex one, and its gpios *)
  ZMK_KEY_DIAGNOSTICS_CHARLIEPLEX : bool;
  charlieplex_gpios : list gpio_dt_spec;
  CONFIG_ZMK_PHYSICAL_LAYOUT_KEY_ROTATION : bool;
  REPORT_KEYS_SIZE : nat;
  REPORT_PHYSICAL_KEYS_SIZE : nat;
  LAYOUT_NAME_SIZE : nat;
  GPIO_PORT_SIZE : nat;
  ERROR_MESSAGE_SIZE : nat;
}.

Section Config.

Variable cfg : config.
(** nanopb's [pb_decode] against [zmk_key_diagnostics_Request_fields]:
    the decoded request, or [None] when the payload does not match. *)
Variable pb_decode : list Byte.byte -> option Request.

(** Statics start zeroed. *)
Definition initial_state : statics :=
  {| key_stats := replicate (ZMK_KEYMAP_LEN cfg) stats_zero;
     key_mappings := replicate (ZMK_KEYMAP_LEN cfg) mapping_zero;
     cached_layout := None;
     cached_layout_index := 0;
     cached_layout_valid := false |}.

Definition key_diagnostics_reset_stats (st : statics) : statics :=
  set_key_stats (replicate (ZMK_KEYMAP_LEN cfg) stats_zero) st.

Definition key_diagnostics_refresh_layout_cache (env : environment)
    (st : statics) : statics :=
  let layouts := physical_layouts env in
  let layout_count := length layouts in
  let st := set_cache None 0 false st in
  if (layout_count =? 0)%nat then st
  else
    let selected_index := selected_layout env in
    let selected_index :=
      if (selected_index <? 0) || (Z.of_nat layout_count <=? selected_index)
      then 0 else selected_index in
    let layout := default None (layouts !! Z.to_nat selected_index) in
    set_cache layout (selected_index mod 2 ^ 8)
      (match layout with Some _ => true | None => false end) st.

Definition key_diagnostics_get_kscan_type : KscanType :=
  if ZMK_KEY_DIAGNOSTICS_CHARLIEPLEX cfg then KSCAN_TYPE_CHARLIEPLEX
  else KSCAN_TYPE_UNSUPPORTED.

(** The two nested loops of [key_diagnostics_build_gpio_mapping] with the
    [row == column] skip; [body] is what is done for a pair that is not
    skipped. *)
Definition for_each_line_pair {A} (gpio_count : nat)
    (body : nat -> nat -> A -> A) (acc : A) : A :=
  foldl (fun acc row =>
           foldl (fun acc column =>
                    if (row =? column)%nat then acc else body row column acc)
                 acc (seq 0 gpio_count))
        acc (seq 0 gpio_count).

(** The body of the inner loop after the skip. *)
Definition record_mapping (transform : nat -> nat -> Z) (row column : nat)
    (mappings : list key_gpio_mapping) : list key_gpio_mapping :=
  let position := transform row column in
  if (position <? 0) || (Z.of_nat (ZMK_KEYMAP_LEN cfg) <=? position)
  then mappings
  else
    <[Z.to_nat position := {| row := row; column := column; valid := true |}]>
      mappings.

Definition key_diagnostics_build_gpio_mapping (st : statics) : option statics :=
  let st := set_key_mappings (replicate (ZMK_KEYMAP_LEN cfg) mapping_zero) st in
  if negb (ZMK_KEY_DIAGNOSTICS_CHARLIEPLEX cfg) then Some st
  else if negb (cached_layout_valid st) then Some st
  else
    layout ← cached_layout st;
    let gpio_count := length (charlieplex_gpios cfg) in
    let transform := matrix_transform layout in
    Some (set_key_mappings
            (for_each_line_pair gpio_count (record_mapping transform)
               (key_mappings st)) st).

Definition key_diagnostics_fill_gpio_pin (spec : option gpio_dt_spec)
    (pin : GpioPin) : GpioPin :=
  match spec with
  | None => pin
  | Some spec =>
      match port spec with
      | None => pin
      | Some name =>
          {| pin_port := snprintf_s (GPIO_PORT_SIZE cfg) name;
             pin_pin := KeyDiagnostics.pin spec;
             pin_flags := dt_flags spec |}
      end
  end.

Definition key_diagnostics_apply_stats (position : nat)
    (stats : key_diagnostics_stats) (entry : KeyDiagnostics) (st : statics)
    : option KeyDiagnostics :=
  let entry :=
    {| entry_position := position;
       entry_press_count := press_count stats;
       entry_release_count := release_count stats;
       entry_chatter_count := chatter_count stats;
       entry_is_pressed := last_state stats;
       entry_last_change_ms := last_change_ms stats;
       entry_row := entry_row entry;
       entry_column := entry_column entry;
       entry_has_gpio_mapping := entry_has_gpio_mapping entry;
       entry_drive_gpio := entry_drive_gpio entry;
       entry_sense_gpio := entry_sense_gpio entry |} in
  if (ZMK_KEYMAP_LEN cfg <=? position)%nat then Some entry
  else
    mapping ← key_mappings st !! position;
    if valid mapping then
      drive_sense ←
        (if ZMK_KEY_DIAGNOSTICS_CHARLIEPLEX cfg then
           drive ← charlieplex_gpios cfg !! row mapping;
           sense ← charlieplex_gpios cfg !! column mapping;
           Some (key_diagnostics_fill_gpio_pin (Some drive) (entry_drive_gpio entry),
                 key_diagnostics_fill_gpio_pin (Some sense) (entry_sense_gpio entry))
         else Some (entry_drive_gpio entry, entry_sense_gpio entry));
      Some {| entry_position := entry_position entry;
              entry_press_count := entry_press_count entry;
              entry_release_count := entry_release_count entry;
              entry_chatter_count := entry_chatter_count entry;
              entry_is_pressed := entry_is_pressed entry;
              entry_last_change_ms := entry_last_change_ms entry;
              entry_row := row mapping;
              entry_column := column mapping;
              entry_has_gpio_mapping := true;
              entry_drive_gpio := drive_sense.1;
              entry_sense_gpio := drive_sense.2 |}
    else Some entry.

Definition key_diagnostics_fill_physical_keys (report : DiagnosticsReport)
    (st : statics) : option DiagnosticsReport :=
  if negb (cached_layout_valid st) then Some report
  else
    layout ← cached_layout st;
    match keys layout with
    | None => Some report
    | Some layout_keys =>
        let max_keys := REPORT_PHYSICAL_KEYS_SIZE cfg in
        let key_count := keys_len layout in
        let key_count :=
          if (max_keys <? key_count)%nat then max_keys else key_count in
        filled ←
          mapM (fun i =>
                  attrs ← layout_keys !! i;
                  let rot := CONFIG_ZMK_PHYSICAL_LAYOUT_KEY_ROTATION cfg in
                  Some {| phys_position := i;
                          phys_x := attrs_x attrs;
                          phys_y := attrs_y attrs;
                          phys_width := attrs_width attrs;
                          phys_height := attrs_height attrs;
                          phys_rx := if rot then attrs_rx attrs else 0;
                          phys_ry := if rot then attrs_ry attrs else 0;
                          phys_r := if rot then attrs_r attrs else 0 |})
               (seq 0 key_count);
        Some {| layout_name := layout_name report;
                layout_index := layout_index report;
                kscan_type := kscan_type report;
                chatter_window_ms := chatter_window_ms report;
                physical_keys := filled;
                physical_keys_count := key_count;
                report_keys := report_keys report;
                keys_count := keys_count report |}
    end.

(** The number of entries [key_diagnostics_fill_report] writes. *)
Definition report_key_count (st : statics) : option nat :=
  key_count ←
    (if cached_layout_valid st
     then layout ← cached_layout st; Some (keys_len layout)
     else Some (ZMK_KEYMAP_LEN cfg));
  let max_keys := REPORT_KEYS_SIZE cfg in
  Some (if (max_keys <? key_count)%nat then max_keys else key_count).

(** [key_diagnostics_fill_report].  The slots of [report->keys] start
    zeroed, as they are in the report of the one caller. *)
Definition key_diagnostics_fill_report (env : environment)
    (report : DiagnosticsReport) (st : statics)
    : option (DiagnosticsReport * statics) :=
  let st := key_diagnostics_refresh_layout_cache env st in
  st ← key_diagnostics_build_gpio_mapping st;
  name ←
    (if cached_layout_valid st then
       layout ← cached_layout st;
       Some (match display_name layout with
             | Some name => snprintf_s (LAYOUT_NAME_SIZE cfg) name
             | None => layout_name report
             end)
     else Some (layout_name report));
  let report :=
    {| layout_name := name;
       layout_index := cached_layout_index st;
       kscan_type := key_diagnostics_get_kscan_type;
       chatter_window_ms := CONFIG_ZMK_KEY_DIAGNOSTICS_CHATTER_WINDOW_MS cfg;
       physical_keys := physical_keys report;
       physical_keys_count := physical_keys_count report;
       report_keys := report_keys report;
       keys_count := keys_count report |} in
  report ← key_diagnostics_fill_physical_keys report st;
  key_count ← report_key_count st;
  entries ←
    mapM (fun i =>
            stats ← key_stats st !! i;
            key_diagnostics_apply_stats i stats KeyDiagnostics_init_zero st)
         (seq 0 key_count);
  Some ({| layout_name := layout_name report;
           layout_index := layout_index report;
           kscan_type := kscan_type report;
           chatter_window_ms := chatter_window_ms report;
           physical_keys := physical_keys report;
           physical_keys_count := physical_keys_count report;
           report_keys := entries;
           keys_count := key_count |}, st).

Definition handle_get_report_request (env : environment)
    (reset_after : bool) (resp : Response) (st : statics)
    : option (Z * Response * statics) :=
  let report := DiagnosticsReport_init_zero in
  '(report, st) ← key_diagnostics_fill_report env report st;
  let resp := Response_diagnostics report in
  let st := if reset_after then key_diagnostics_reset_stats st else st in
  Some (0, resp, st).

Definition handle_reset_request (resp : Response) (st : statics)
    : Z * Response * statics :=
  let st := key_diagnostics_reset_stats st in
  (0, Response_reset {| ok := true |}, st).

Definition key_diagnostics_rpc_handle_request (env : environment)
    (payload : list Byte.byte) (st : statics)
    : option (bool * Response * statics) :=
  let resp := Response_init_zero in
  match pb_decode payload with
  | None =>
      let err :=
        {| message := snprintf_s (ERROR_MESSAGE_SIZE cfg) "Failed to decode request" |} in
      Some (true, Response_error err, st)
  | Some req =>
      '(rc, resp, st) ←
        match req with
        | Request_get_report reset_after =>
            handle_get_report_request env reset_after resp st
        | Request_reset => Some (handle_reset_request resp st)
        | Request_other _ => Some (-1, resp, st)
        end;
      if rc =? 0 then Some (true, resp, st)
      else
        let err :=
          {| message := snprintf_s (ERROR_MESSAGE_SIZE cfg) "Failed to process request" |} in
        Some (true, Response_error err, st)
  end.

(** The update of [key_diagnostics_listener] on the element it points
    at: the counter of the direction, the chatter check, then the
    timestamp and the state. *)
Definition record_transition (ev : zmk_position_state_changed)
    (stats : key_diagnostics_stats) : key_diagnostics_stats :=
  let press :=
    if state ev then uint32_wrap (press_count stats + 1)
    else press_count stats in
  let release :=
    if state ev then release_count stats
    else uint32_wrap (release_count stats + 1) in
  let chatter :=
    if 0 <? last_change_ms stats then
      let delta := int64_wrap (timestamp ev - last_change_ms stats) in
      if (0 <=? delta)
         && (delta <=? CONFIG_ZMK_KEY_DIAGNOSTICS_CHATTER_WINDOW_MS cfg)
      then uint32_wrap (chatter_count stats + 1)
      else chatter_count stats
    else chatter_count stats in
  {| press_count := press;
     release_count := release;
     chatter_count := chatter;
     last_change_ms := timestamp ev;
     last_state := state ev |}.

Definition key_diagnostics_listener (eh : zmk_event) (st : statics)
    : option (Z * statics) :=
  match as_zmk_position_state_changed eh with
  | None => Some (ZMK_EV_EVENT_BUBBLE, st)
  | Some ev =>
      if (ZMK_KEYMAP_LEN cfg <=? position ev)%nat
      then Some (ZMK_EV_EVENT_BUBBLE, st)
      else
        stats ← key_stats st !! position ev;
        let st :=
          set_key_stats
            (<[position ev := record_transition ev stats]> (key_stats st))
            st in
        Some (ZMK_EV_EVENT_BUBBLE, st)
  end.

(** *** Definitions used to state the properties of the resolver *)

(** The pairs the scan does not skip, in the order it meets them. *)
Definition line_pairs (gpio_count : nat) : list (nat * nat) :=
  for_each_line_pair gpio_count
    (fun row column acc => acc ++ [(row, column)]) [].

(** The assignments [key_mappings[position] = ...] the scan performs, in
    order: the index written and the value stored. *)
Definition mapping_writes (transform : nat -> nat -> Z) (gpio_count : nat)
    : list (nat * key_gpio_mapping) :=
  for_each_line_pair gpio_count
    (fun row column acc =>
       let position := transform row column in
       if (position <? 0) || (Z.of_nat (ZMK_KEYMAP_LEN cfg) <=? position)
       then acc
       else acc ++ [(Z.to_nat position,
                     {| row := row; column := column; valid := true |})])
    [].

(** The ordered pairs of distinct lines of a set of [n], in the words of
    the specification: every (drive, sense) with drive and sense
    different. *)
Definition distinct_line_pairs (n : nat) : list (nat * nat) :=
  r ← seq 0 n; (fun c => (r, c)) <$> filter (fun c => r ≠ c) (seq 0 n).

(** The order in which the specification lists the pairs, row by row:
    [a] comes before [b] when its drive line is smaller, or the drive
    lines are equal and its sense line is smaller. *)
Definition row_major_lt (a b : nat * nat) : Prop :=
  (a.1 < b.1 ∨ (a.1 = b.1 ∧ a.2 < b.2))%nat.

(** One assignment to [key_mappings]. *)
Definition apply_write (mappings : list key_gpio_mapping)
    (w : nat * key_gpio_mapping) : list key_gpio_mapping :=
  <[w.1 := w.2]> mappings.

(** No position is assigned two different mappings. *)
Definition single_assignment (writes : list (nat * key_gpio_mapping)) : Prop :=
  ∀ p m1 m2, (p, m1) ∈ writes → (p, m2) ∈ writes → m1 = m2.

(** The assignment the loop body makes for a pair, if it makes one. *)
Definition write_for (transform : nat -> nat -> Z) (pair : nat * nat)
    : option (nat * key_gpio_mapping) :=
  let position := transform pair.1 pair.2 in
  if (position <? 0) || (Z.of_nat (ZMK_KEYMAP_LEN cfg) <=? position)
  then None
  else Some (Z.to_nat position,
             {| row := pair.1; column := pair.2; valid := true |}).

(** Every valid entry of a mapping array names two lines of the matrix. *)
Definition mappings_bounded (ms : list key_gpio_mapping) : Prop :=
  length ms = ZMK_KEYMAP_LEN cfg ∧
  ∀ p m, ms !! p = Some m → valid m = true →
    ZMK_KEY_DIAGNOSTICS_CHARLIEPLEX cfg = true ∧
    (row m < length (charlieplex_gpios cfg))%nat ∧
    (column m < length (charlieplex_gpios cfg))%nat.

(** The layout [key_diagnostics_refresh_layout_cache] selects. *)
Definition active_layout (env : environment) : option zmk_physical_layout :=
  cached_layout (key_diagnostics_refresh_layout_cache env initial_state).

(** A layout the report can be filled from without leaving an array:
    its [keys] array has the [keys_len] elements it announces, and the
    entries written for it stay inside [key_stats]. *)
Definition layout_fits (layout : zmk_physical_layout) : Prop :=
  (keys_len layout `min` REPORT_KEYS_SIZE cfg ≤ ZMK_KEYMAP_LEN cfg)%nat ∧
  ∀ layout_keys, keys layout = Some layout_keys →
    (keys_len layout ≤ length layout_keys)%nat.

Definition environment_fits (env : environment) : Prop :=
  ∀ layout, active_layout env = Some layout → layout_fits layout.

(** The number of per-key entries of a report: the key count of the
    selected layout, or the keymap length when there is none, cut at the
    size of the [keys] array of the report. *)
Definition entry_count (env : environment) : nat :=
  match active_layout env with
  | Some layout => keys_len layout
  | None => ZMK_KEYMAP_LEN cfg
  end `min` REPORT_KEYS_SIZE cfg.

(** [entry] is what the tracker holds in [stats] and the resolver in
    [mapping], put together for position [i]. *)
Definition entry_merges (i : nat) (stats : key_diagnostics_stats)
    (mapping : key_gpio_mapping) (entry : KeyDiagnostics) : Prop :=
  entry_position entry = i ∧
  entry_press_count entry = press_count stats ∧
  entry_release_count entry = release_count stats ∧
  entry_chatter_count entry = chatter_count stats ∧
  entry_is_pressed entry = last_state stats ∧
  entry_last_change_ms entry = last_change_ms stats ∧
  entry_has_gpio_mapping entry = valid mapping ∧
  (valid mapping = true →
   entry_row entry = row mapping ∧ entry_column entry = column mapping).

End Config.

End KeyDiagnostics.

(** ** The two subsystems side by side

    Each handler is registered under its own identifier
    ([zmk__key_diagnostics], [zmk__battery_history]) and sees the statics
    of its own file only. *)

Module Firmware.

Record statics := {
  diagnostics : KeyDiagnostics.statics;
  battery : BatteryHistory.statics;
}.

(** The answer of a call, whichever subsystem it went to. *)
Inductive response :=
  | KeyDiagnosticsResponse (r : KeyDiagnostics.Response)
  | BatteryHistoryResponse (r : BatteryHistoryHandler.Response).

Definition is_error (r : response) : bool :=
  match r with
  | KeyDiagnosticsResponse (KeyDiagnostics.Response_error _) => true
  | BatteryHistoryResponse (BatteryHistoryHandler.Response_error _) => true
  | _ => false
  end.

Section Config.

Variable cfg : KeyDiagnostics.config.
Variable pb_decode_key_diagnostics :
  list Byte.byte -> option KeyDiagnostics.Request.
Variable CONFIG_ZMK_BATTERY_HISTORY_MAX_ENTRIES : Z.
Variable CONFIG_ZMK_BATTERY_HISTORY_SAMPLE_INTERVAL_SECONDS : Z.
Variable BATTERY_ERROR_MESSAGE_SIZE : nat.
Variable pb_decode_battery_history :
  list Byte.byte -> option BatteryHistoryHandler.Request.

Definition call_key_diagnostics (env : KeyDiagnostics.environment)
    (payload : list Byte.byte) (st : statics)
    : option (bool * response * statics) :=
  '(handled, resp, diag) ←
    KeyDiagnostics.key_diagnostics_rpc_handle_request cfg
      pb_decode_key_diagnostics
      env payload (diagnostics st);
  Some (handled, KeyDiagnosticsResponse resp,
        {| diagnostics := diag; battery := battery st |}).

Definition call_battery_history (payload : list Byte.byte) (st : statics)
    : option (bool * response * statics) :=
  let '(handled, resp, bat) :=
    BatteryHistoryHandler.battery_history_rpc_handle_request
      CONFIG_ZMK_BATTERY_HISTORY_MAX_ENTRIES
      CONFIG_ZMK_BATTERY_HISTORY_SAMPLE_INTERVAL_SECONDS
      BATTERY_ERROR_MESSAGE_SIZE pb_decode_battery_history
      payload (battery st) in
  Some (handled, BatteryHistoryResponse resp,
        {| diagnostics := diagnostics st; battery := bat |}).

End Config.

End Firmware.

(** ** Concrete configurations and states *)

Module Examples.

Definition sample (t l : Z) : BatteryHistory.zmk_battery_history_sample :=
  {| BatteryHistory.timestamp_seconds := t;
     BatteryHistory.level_percent := l |}.

Definition three_samples : list BatteryHistory.zmk_battery_history_sample :=
  [sample 10 80; sample 20 79; sample 30 79].

Definition five_samples : list BatteryHistory.zmk_battery_history_sample :=
  [sample 10 80; sample 20 79; sample 30 79; sample 40 78; sample 50 77].

Import KeyDiagnostics.

(** A keymap of four keys on an unsupported kscan. *)
Definition plain_config : config :=
  {| ZMK_KEYMAP_LEN := 4;
     CONFIG_ZMK_KEY_DIAGNOSTICS_CHATTER_WINDOW_MS := 40;
     ZMK_KEY_DIAGNOSTICS_CHARLIEPLEX := false;
     charlieplex_gpios := [];
     CONFIG_ZMK_PHYSICAL_LAYOUT_KEY_ROTATION := false;
     REPORT_KEYS_SIZE := 8;
     REPORT_PHYSICAL_KEYS_SIZE := 8;
     LAYOUT_NAME_SIZE := 16;
     GPIO_PORT_SIZE := 16;
     ERROR_MESSAGE_SIZE := 32 |}.

Definition line (n : Z) : gpio_dt_spec :=
  {| port := Some "gpio0"%string; pin := n; dt_flags := 0 |}.

(** Three charlieplex lines and a keymap of nine keys. *)
Definition charlieplex_config : config :=
  {| ZMK_KEYMAP_LEN := 9;
     CONFIG_ZMK_KEY_DIAGNOSTICS_CHATTER_WINDOW_MS := 40;
     ZMK_KEY_DIAGNOSTICS_CHARLIEPLEX := true;
     charlieplex_gpios := [line 4; line 5; line 6];
     CONFIG_ZMK_PHYSICAL_LAYOUT_KEY_ROTATION := false;
     REPORT_KEYS_SIZE := 16;
     REPORT_PHYSICAL_KEYS_SIZE := 16;
     LAYOUT_NAME_SIZE := 16;
     GPIO_PORT_SIZE := 16;
     ERROR_MESSAGE_SIZE := 32 |}.

(** Two charlieplex lines and a keymap of one key. *)
Definition single_key_config : config :=
  {| ZMK_KEYMAP_LEN := 1;
     CONFIG_ZMK_KEY_DIAGNOSTICS_CHATTER_WINDOW_MS := 40;
     ZMK_KEY_DIAGNOSTICS_CHARLIEPLEX := true;
     charlieplex_gpios := [line 4; line 5];
     CONFIG_ZMK_PHYSICAL_LAYOUT_KEY_ROTATION := false;
     REPORT_KEYS_SIZE := 16;
     REPORT_PHYSICAL_KEYS_SIZE := 16;
     LAYOUT_NAME_SIZE := 16;
     GPIO_PORT_SIZE := 16;
     ERROR_MESSAGE_SIZE := 32 |}.

(** A layout of two keys whose transform knows no pair. *)
Definition two_key_layout : zmk_physical_layout :=
  {| display_name := Some "compact"%string;
     keys := None;
     keys_len := 2;
     matrix_transform := fun _ _ => -1 |}.

(** A layout whose transform sends (row, column) to [3 * row + column]. *)
Definition grid_layout : zmk_physical_layout :=
  {| display_name := Some "grid"%string;
     keys := None;
     keys_len := 9;
     matrix_transform := fun r c => 3 * Z.of_nat r + Z.of_nat c |}.

(** A layout whose transform sends every pair to position 0. *)
Definition collapsing_layout : zmk_physical_layout :=
  {| display_name := None;
     keys := None;
     keys_len := 1;
     matrix_transform := fun _ _ => 0 |}.

Definition environment_of (layout : zmk_physical_layout) : environment :=
  {| physical_layouts := [Some layout]; selected_layout := 0 |}.

Definition cached (layout : zmk_physical_layout) (st : statics) : statics :=
  set_cache (Some layout) 0 true st.

(** Key 1 was pressed at 100 ms, three presses and two releases so far. *)
Definition used_stats : key_diagnostics_stats :=
  {| press_count := 3; release_count := 2; chatter_count := 1;
     last_change_ms := 100; last_state := true |}.

Definition used_state : statics :=
  set_key_stats [stats_zero; used_stats; stats_zero; stats_zero]
    (initial_state plain_config).

Definition release_at (pos : nat) (t : Z) : zmk_position_state_changed :=
  {| position := pos; state := false; timestamp := t |}.

Definition firmware_state : Firmware.statics :=
  {| Firmware.diagnostics := used_state;
     Firmware.battery :=
       BatteryHistory.store_all 5 three_samples
         (BatteryHistory.initial_state 5) |}.

End Examples.

(** ** battery_history.c, the sampling work item *)

Module BatteryHistoryWork.
Import BatteryHistory.

(** The delay handed to [k_work_schedule]. *)
Inductive k_timeout :=
  | K_NO_WAIT
  | K_SECONDS (seconds : Z).

Section Config.

Variable CONFIG_ZMK_BATTERY_HISTORY_MAX_ENTRIES : Z.
Variable CONFIG_ZMK_BATTERY_HISTORY_SAMPLE_INTERVAL_SECONDS : Z.

(** [battery_history_work_handler].  [level_percent] is what
    [zmk_battery_state_of_charge()] returns and [uptime_ms] what
    [k_uptime_get()] returns while the handler runs; the result is the
    statics and the delay the work item is scheduled again with. *)
Definition battery_history_work_handler (uptime_ms level_percent : Z)
    (st : statics) : statics * k_timeout :=
  let st :=
    battery_history_record_sample CONFIG_ZMK_BATTERY_HISTORY_MAX_ENTRIES
      uptime_ms level_percent st in
  (st, K_SECONDS CONFIG_ZMK_BATTERY_HISTORY_SAMPLE_INTERVAL_SECONDS).

(** [zmk_battery_history_init]: the first run is scheduled at once; the
    statics are the zeroed ones of the image. *)
Definition zmk_battery_history_init (st : statics) : Z * statics * k_timeout :=
  (0, st, K_NO_WAIT).

(** The work item run once per reading, first to last; a reading is the
    uptime in milliseconds and the state of charge. *)
Definition run_work (readings : list (Z * Z)) (st : statics) : statics :=
  foldl (fun s r => (battery_history_work_handler r.1 r.2 s).1) st readings.

End Config.

(** Values that never decrease along a list. *)
Definition nondecreasing (l : list Z) : Prop :=
  ∀ i j a b, (i ≤ j)%nat → l !! i = Some a → l !! j = Some b → a <= b.

End BatteryHistoryWork.

(** ** Runs of events through the listener *)

Module KeyDiagnosticsRuns.
Import KeyDiagnostics.

(** The transitions a run of events holds for key [p], in order. *)
Definition transitions_of (p : nat) (events : list zmk_event)
    : list zmk_position_state_changed :=
  omap (fun eh =>
          ev ← as_zmk_position_state_changed eh;
          if decide (position ev = p) then Some ev else None)
       events.

Definition presses (evs : list zmk_position_state_changed) : nat :=
  length (filter (fun ev => state ev = true) evs).

Definition releases (evs : list zmk_position_state_changed) : nat :=
  length (filter (fun ev => state ev = false) evs).

Section Config.

Variable cfg : config.

(** [key_diagnostics_listener] called on each event in turn. *)
Fixpoint deliver_all (events : list zmk_event) (st : statics)
    : option statics :=
  match events with
  | [] => Some st
  | eh :: rest =>
      '(_, st) ← key_diagnostics_listener cfg eh st;
      deliver_all rest st
  end.

(** The compound literal [key_diagnostics_fill_physical_keys] stores for
    key [i] of the layout. *)
Definition to_KeyPhysical (i : nat) (attrs : zmk_key_physical_attrs)
    : KeyPhysical :=
  let rot := CONFIG_ZMK_PHYSICAL_LAYOUT_KEY_ROTATION cfg in
  {| phys_position := i;
     phys_x := attrs_x attrs;
     phys_y := attrs_y attrs;
     phys_width := attrs_width attrs;
     phys_height := attrs_height attrs;
     phys_rx := if rot then attrs_rx attrs else 0;
     phys_ry := if rot then attrs_ry attrs else 0;
     phys_r := if rot then attrs_r attrs else 0 |}.

(** The update of the listener applied for each transition in turn. *)
Definition record_all (evs : list zmk_position_state_changed)
    (stats : key_diagnostics_stats) : key_diagnostics_stats :=
  foldl (fun s ev => record_transition cfg ev s) stats evs.

End Config.



Section Inputs.

Variable cfg : config.
Variable pb_decode : list Byte.byte → option Request.



End Inputs.

End KeyDiagnosticsRuns.

(** ** Inputs of the further examples *)

Module Scenarios.
Import Examples.

(** Uptime in milliseconds and level at three runs of the work item. *)
Definition three_readings : list (Z * Z) :=
  [(1000, 90); (61000, 89); (121500, 89)].

(** A decoder that knows two payloads: a request for at most two
    samples, and a request to clear. *)
Definition battery_decoder (payload : list Byte.byte)
    : option BatteryHistoryHandler.Request :=
  match payload with
  | [Byte.x01] => Some (BatteryHistoryHandler.Request_get_history 2)
  | [Byte.x02] => Some BatteryHistoryHandler.Request_clear_history
  | _ => None
  end.

Import KeyDiagnostics KeyDiagnosticsRuns.

(** A decoder that knows two payloads: a request for a report without
    reset, and a reset. *)
Definition key_decoder (payload : list Byte.byte) : option Request :=
  match payload with
  | [Byte.x01] => Some (Request_get_report false)
  | [Byte.x02] => Some Request_reset
  | _ => None
  end.

Definition press_at (pos : nat) (t : Z) : zmk_position_state_changed :=
  {| position := pos; state := true; timestamp := t |}.

(** Key 1 is pressed and released within the chatter window, and key 2
    is pressed; one event is of another type. *)
Definition key_events : list zmk_event :=
  [Event_position_state_changed (press_at 1 200);
   Event_other;
   Event_position_state_changed (release_at 1 230);
   Event_position_state_changed (press_at 2 300)].

Definition key_at (x y : Z) : zmk_key_physical_attrs :=
  {| attrs_x := x; attrs_y := y; attrs_width := 100; attrs_height := 100;
     attrs_rx := 0; attrs_ry := 0; attrs_r := 0 |}.

(** A layout of two keys with their geometry. *)
Definition keyed_layout : zmk_physical_layout :=
  {| display_name := Some "a layout with a long name"%string;
     keys := Some [key_at 0 0; key_at 100 0];
     keys_len := 2;
     matrix_transform := fun _ _ => -1 |}.


End Scenarios.

(** * Properties *)

(** ** Arithmetic of the machine integers *)

Lemma size_wrap_small (x : Z) : 0 <= x < 2 ^ 32 → size_wrap x = x.
Proof. intros H. unfold size_wrap. by apply Z.mod_small. Qed.

Lemma mod_shift_ne (h e m : Z) :
  0 <= h < m → 1 <= e < m → (h + e) mod m ≠ h.
Proof.
  intros Hh He Heq.
  destruct (Z_lt_dec (h + e) m) as [Hlt|Hge].
  - rewrite Z.mod_small in Heq by lia. lia.
  - assert ((h + e) mod m = h + e - m) as Hm.
    { symmetry. apply (Z.mod_unique _ _ 1); lia. }
    lia.
Qed.

Lemma mod_shift_full (h m : Z) : 0 <= h < m → (h + m) mod m = h.
Proof.
  intros Hh. symmetry. apply (Z.mod_unique _ _ 1); lia.
Qed.

Lemma int64_wrap_small (x : Z) : INT64_MIN <= x <= INT64_MAX → int64_wrap x = x.
Proof.
  unfold INT64_MIN, INT64_MAX, int64_wrap. intros H.
  rewrite Z.mod_small by lia. lia.
Qed.

Lemma uint32_wrap_succ_ne (c : Z) : uint32_wrap (c + 1) ≠ c.
Proof.
  unfold uint32_wrap. intros Heq.
  pose proof (Z.mod_pos_bound (c + 1) (2 ^ 32) ltac:(lia)) as Hb.
  destruct (Z_lt_dec (c + 1) (2 ^ 32)) as [Hlt|Hge].
  - rewrite Z.mod_small in Heq by lia. lia.
  - assert (c + 1 = 2 ^ 32) as Hc by lia.
    rewrite Hc, Z.mod_same in Heq by lia. lia.
Qed.

(** ** Lists: the last elements, and the copy loop of a read *)

Section last_n.
Context {A : Type}.
Implicit Types l k : list A.

Lemma length_last_n n l : length (last_n n l) = (n `min` length l)%nat.
Proof. unfold last_n. rewrite length_drop. lia. Qed.

Lemma last_n_ge n l : (length l ≤ n)%nat → last_n n l = l.
Proof.
  intros H. unfold last_n.
  by replace (length l - n)%nat with 0%nat by lia.
Qed.

Lemma last_n_app_ge n l k : (n ≤ length k)%nat → last_n n (l ++ k) = last_n n k.
Proof.
  intros H. unfold last_n. rewrite length_app.
  rewrite drop_app_ge by lia. f_equal. lia.
Qed.

Lemma last_n_last_n_app n l k :
  last_n n (last_n n l ++ k) = last_n n (l ++ k).
Proof.
  unfold last_n. rewrite !length_app, length_drop, !drop_app, drop_drop, length_drop.
  destruct (decide (length l ≤ n)%nat) as [Hle|Hgt].
  - replace (length l - n)%nat with 0%nat by lia. simpl.
    rewrite Nat.sub_0_r. done.
  - f_equal; f_equal; lia.
Qed.

Lemma lookup_last_n n l i :
  last_n n l !! i = l !! (length l - n + i)%nat.
Proof. unfold last_n. by rewrite lookup_drop. Qed.
End last_n.

Lemma last_n_snoc {A} (n : nat) (q : list A) (x : A) :
  (0 < n)%nat → (length q ≤ n)%nat →
  last_n n (q ++ [x])
  = if (length q <? n)%nat then q ++ [x] else tail q ++ [x].
Proof.
  intros Hn Hq. destruct (Nat.ltb_spec (length q) n) as [Hlt|Hge].
  - apply last_n_ge. rewrite length_app. simpl. lia.
  - unfold last_n. rewrite length_app. simpl.
    replace (length q + 1 - n)%nat with 1%nat by lia.
    destruct q as [|y q]; [simpl in *; lia|done].
Qed.

(** The copy loop of the read fills the first [n] slots. *)
Lemma copy_loop_spec {A} (f : Z → A) (n : nat) (buf : list A) :
  (n ≤ length buf)%nat →
  foldl (fun b i => <[Z.to_nat i := f i]> b) buf (seqZ 0 (Z.of_nat n))
  = (f <$> seqZ 0 (Z.of_nat n)) ++ drop n buf.
Proof.
  induction n as [|n IH]; intros Hn.
  - by rewrite seqZ_nil, drop_0.
  - rewrite seqZ_S, foldl_snoc, IH by lia. simpl.
    rewrite fmap_app. simpl. rewrite Z.add_0_l, Nat2Z.id.
    destruct (lookup_lt_is_Some_2 buf n) as [x Hx]; [lia|].
    rewrite (drop_S _ _ _ Hx).
    rewrite insert_app_r_alt by (rewrite length_fmap, length_seqZ; lia).
    rewrite length_fmap, length_seqZ, Nat2Z.id, Nat.sub_diag. simpl.
    by rewrite <- app_assoc.
Qed.

(** ** The ring buffer of battery samples *)

Section Ring.
Import BatteryHistory BatteryHistoryHandler.


Variable MAX : Z.
Variable INTERVAL : Z.
(** The array has at least one element, and index sums stay below the
    range of [size_t]. *)
Hypothesis MAX_pos : 0 < MAX.
Hypothesis MAX_fits : 2 * MAX <= 2 ^ 32.

Local Abbreviation contents := (contents MAX).
Local Abbreviation store_all := (store_all MAX).
Local Abbreviation read_samples := (read_samples MAX).
Local Abbreviation queue_of := (queue_of MAX).

Lemma length_contents st :
  length (contents st) = Z.to_nat (battery_history_count st).
Proof. unfold BatteryHistory.contents. by rewrite length_fmap, length_seqZ. Qed.

Lemma lookup_contents st (i : nat) :
  Z.of_nat i < battery_history_count st →
  contents st !! i =
  Some (battery_history st !!!
     Z.to_nat ((battery_history_head st + MAX - battery_history_count st + Z.of_nat i) mod MAX)).
Proof.
  intros Hi. unfold BatteryHistory.contents.
  rewrite list_lookup_fmap, lookup_seqZ_lt by done. simpl. by rewrite Z.add_0_l.
Qed.

Lemma contents_initial : contents (initial_state MAX) = [].
Proof. reflexivity. Qed.

Lemma contents_clear st : contents (zmk_battery_history_clear st) = [].
Proof. reflexivity. Qed.

Lemma ring_invariant_initial : ring_invariant MAX (initial_state MAX).
Proof.
  unfold ring_invariant, initial_state; simpl.
  rewrite length_replicate. lia.
Qed.

Lemma ring_invariant_clear st :
  ring_invariant MAX st → ring_invariant MAX (zmk_battery_history_clear st).
Proof. unfold ring_invariant; simpl. lia. Qed.

Lemma store_head st s :
  ring_invariant MAX st →
  battery_history_head (battery_history_store MAX s st)
  = (battery_history_head st + 1) mod MAX.
Proof.
  intros (_ & Hh & _). simpl. rewrite size_wrap_small by lia. done.
Qed.

Lemma store_count st s :
  ring_invariant MAX st →
  battery_history_count (battery_history_store MAX s st)
  = if battery_history_count st <? MAX
    then battery_history_count st + 1 else battery_history_count st.
Proof.
  intros (_ & _ & Hc). simpl.
  destruct (Z.ltb_spec (battery_history_count st) MAX); [|done].
  rewrite size_wrap_small by lia. done.
Qed.

Lemma ring_invariant_store st s :
  ring_invariant MAX st → ring_invariant MAX (battery_history_store MAX s st).
Proof.
  intros Hinv. pose proof Hinv as (Hl & Hh & Hc).
  split; [|split].
  - simpl. by rewrite length_insert.
  - rewrite store_head by done. apply Z.mod_pos_bound. lia.
  - rewrite store_count by done.
    destruct (Z.ltb_spec (battery_history_count st) MAX); lia.
Qed.

Lemma contents_store st s :
  ring_invariant MAX st →
  contents (battery_history_store MAX s st)
  = last_n (Z.to_nat MAX) (contents st ++ [s]).
Proof.
  intros Hinv. pose proof Hinv as (Hl & Hh & Hc).
  pose proof (ring_invariant_store st s Hinv) as (Hl' & Hh' & Hc').
  pose proof (store_count st s Hinv) as Hcount.
  pose proof (store_head st s Hinv) as Hhead.
  set (st' := battery_history_store MAX s st) in *.
  apply list_eq. intros i.
  rewrite lookup_last_n, length_app, length_contents. simpl.
  set (d := (Z.to_nat (battery_history_count st) + 1 - Z.to_nat MAX)%nat).
  destruct (Z_lt_dec (Z.of_nat i) (battery_history_count st')) as [Hi|Hi].
  - rewrite lookup_contents by done.
    rewrite Hhead.
    assert ((((battery_history_head st + 1) mod MAX + MAX
              - battery_history_count st' + Z.of_nat i) mod MAX)
            = (battery_history_head st + (MAX - battery_history_count st
                 + Z.of_nat d + Z.of_nat i)) mod MAX) as ->.
    { replace ((battery_history_head st + 1) mod MAX + MAX
               - battery_history_count st' + Z.of_nat i)
        with ((battery_history_head st + 1) mod MAX
              + (MAX - battery_history_count st' + Z.of_nat i)) by lia.
      rewrite Z.add_mod_idemp_l by lia. f_equal.
      rewrite Hcount. subst d.
      destruct (Z.ltb_spec (battery_history_count st) MAX); lia. }
    destruct (decide (d + i < Z.to_nat (battery_history_count st))%nat) as [Hold|Hnew].
    + rewrite lookup_app_l by (rewrite length_contents; lia).
      rewrite lookup_contents by lia. f_equal.
      replace (battery_history_head st + MAX - battery_history_count st
               + Z.of_nat (d + i))
        with (battery_history_head st + (MAX - battery_history_count st
               + Z.of_nat d + Z.of_nat i)) by lia.
      subst st'. simpl.
      apply list_lookup_total_insert_ne.
      intros Heq. apply Z2Nat.inj in Heq; [| lia | apply Z.mod_pos_bound; lia].
      symmetry in Heq. revert Heq. apply mod_shift_ne; [done|].
      subst d. lia.
    + assert ((d + i)%nat = Z.to_nat (battery_history_count st)) as Hlast.
      { rewrite Hcount in Hi. subst d.
        destruct (Z.ltb_spec (battery_history_count st) MAX); lia. }
      rewrite lookup_app_r by (rewrite length_contents; lia).
      rewrite length_contents, Hlast, Nat.sub_diag. simpl. f_equal.
      replace (MAX - battery_history_count st + Z.of_nat d + Z.of_nat i)
        with MAX by lia.
      rewrite mod_shift_full by done.
      subst st'. simpl. apply list_lookup_total_insert_eq. lia.
  - rewrite (lookup_ge_None_2 (contents st')) by (rewrite length_contents; lia).
    symmetry. apply lookup_ge_None_2.
    rewrite length_app, length_contents. simpl.
    rewrite Hcount in Hi. subst d.
    destruct (Z.ltb_spec (battery_history_count st) MAX); lia.
Qed.

(** What a read leaves in the caller's array. *)
Lemma get_samples_spec st (buf : list zmk_battery_history_sample) (m : Z) :
  ring_invariant MAX st →
  0 < m →
  (Z.to_nat (Z.min (battery_history_count st) m) ≤ length buf)%nat →
  zmk_battery_history_get_samples MAX (Some buf) m st
  = (Some (last_n (Z.to_nat (Z.min (battery_history_count st) m)) (contents st)
           ++ drop (Z.to_nat (Z.min (battery_history_count st) m)) buf),
     Z.min (battery_history_count st) m, st).
Proof.
  intros (Hl & Hh & Hc) Hm Hbuf.
  unfold zmk_battery_history_get_samples.
  destruct (Z.eqb_spec m 0) as [->|_]; [lia|].
  set (avail := Z.min (battery_history_count st) m) in *.
  assert (0 <= avail <= battery_history_count st) as Havail by (subst avail; lia).
  set (skip := if avail <? battery_history_count st
               then size_wrap (battery_history_count st - avail) else 0).
  assert (skip = battery_history_count st - avail) as Hskip.
  { subst skip. destruct (Z.ltb_spec avail (battery_history_count st)).
    - apply size_wrap_small. lia.
    - lia. }
  rewrite Hskip.
  rewrite (size_wrap_small (_ + _ - _ + _)) by lia.
  do 2 f_equal. f_equal.
  rewrite <- (Z2Nat.id avail) at 1 by lia.
  rewrite copy_loop_spec by done.
  f_equal.
  apply list_eq. intros i.
  rewrite lookup_last_n, length_contents, list_lookup_fmap.
  destruct (Z_lt_dec (Z.of_nat i) avail) as [Hi|Hi].
  - rewrite Z2Nat.id by lia.
    rewrite lookup_seqZ_lt by done. simpl.
    rewrite lookup_contents by lia. f_equal. f_equal. f_equal.
    rewrite Z.add_0_l.
    rewrite size_wrap_small.
    2:{ pose proof (Z.mod_pos_bound
          (battery_history_head st + MAX - battery_history_count st
           + (battery_history_count st - avail)) MAX MAX_pos). lia. }
    rewrite Z.add_mod_idemp_l by lia. f_equal. lia.
  - rewrite Z2Nat.id by lia.
    rewrite lookup_seqZ_ge by lia. simpl.
    symmetry. apply lookup_ge_None_2. rewrite length_contents. lia.
Qed.

Lemma ring_invariant_store_all xs st :
  ring_invariant MAX st → ring_invariant MAX (store_all xs st).
Proof.
  revert st. induction xs as [|x xs IH]; intros st Hinv; [done|].
  apply IH. by apply ring_invariant_store.
Qed.

Lemma contents_store_all xs st :
  ring_invariant MAX st →
  contents (store_all xs st) = last_n (Z.to_nat MAX) (contents st ++ xs).
Proof.
  revert st. induction xs as [|x xs IH]; intros st Hinv.
  - simpl. rewrite app_nil_r. symmetry. apply last_n_ge.
    rewrite length_contents. destruct Hinv as (_ & _ & Hc). lia.
  - simpl. change (foldl _ ?s xs) with (store_all xs s).
    rewrite IH by (by apply ring_invariant_store).
    rewrite contents_store by done.
    rewrite last_n_last_n_app. by rewrite <- app_assoc.
Qed.

Lemma ring_invariant_apply_operation op st :
  ring_invariant MAX st → ring_invariant MAX (apply_operation MAX op st).
Proof.
  intros Hinv. destruct op as [s|buffer m|]; simpl.
  - by apply ring_invariant_store.
  - unfold zmk_battery_history_get_samples.
    destruct buffer; [destruct (m =? 0)|]; done.
  - by apply ring_invariant_clear.
Qed.

Lemma ring_invariant_apply_operations ops st :
  ring_invariant MAX st → ring_invariant MAX (apply_operations MAX ops st).
Proof.
  revert st. induction ops as [|op ops IH]; intros st Hinv; [done|].
  apply IH. by apply ring_invariant_apply_operation.
Qed.

Lemma read_samples_spec st (m : Z) :
  ring_invariant MAX st → 0 < m →
  read_samples m st
  = last_n (Z.to_nat (Z.min (battery_history_count st) m)) (contents st).
Proof.
  intros Hinv Hm. pose proof Hinv as (Hl & Hh & Hc).
  unfold BatteryHistory.read_samples.
  rewrite get_samples_spec; [|done|done|rewrite length_replicate; lia].
  simpl. apply take_app_length'.
  rewrite length_last_n, length_contents. lia.
Qed.

Lemma contents_apply_operation op st :
  ring_invariant MAX st →
  contents (apply_operation MAX op st) = queue_step MAX op (contents st).
Proof.
  intros Hinv. pose proof Hinv as (Hl & Hh & Hc).
  destruct op as [s|buffer m|]; simpl.
  - rewrite contents_store by done.
    apply last_n_snoc; [lia|]. rewrite length_contents. lia.
  - unfold zmk_battery_history_get_samples.
    destruct buffer; [destruct (m =? 0)|]; done.
  - done.
Qed.

Lemma contents_apply_operations ops st :
  ring_invariant MAX st →
  contents (apply_operations MAX ops st)
  = foldl (fun q op => queue_step MAX op q) (contents st) ops.
Proof.
  revert st. induction ops as [|op ops IH]; intros st Hinv; [done|].
  change (apply_operations MAX (op :: ops) st)
    with (apply_operations MAX ops (apply_operation MAX op st)).
  rewrite IH by (by apply ring_invariant_apply_operation).
  by rewrite contents_apply_operation.
Qed.

Lemma contents_reachable ops :
  contents (apply_operations MAX ops (initial_state MAX)) = queue_of ops.
Proof.
  rewrite contents_apply_operations by apply ring_invariant_initial. done.
Qed.

Lemma read_samples_nonpos st (m : Z) : m <= 0 → read_samples m st = [].
Proof.
  intros Hm. unfold BatteryHistory.read_samples, zmk_battery_history_get_samples.
  destruct (Z.eqb_spec m 0) as [->|Hne]; [done|].
  simpl. replace (Z.to_nat _) with 0%nat by lia. done.
Qed.

(** The buffer function on its own copies nothing for [max_entries = 0];
    it is [handle_get_history_request] that turns 0 into the capacity. *)
Lemma get_samples_zero st (buf : list zmk_battery_history_sample) :
  zmk_battery_history_get_samples MAX (Some buf) 0 st = (Some buf, 0, st).
Proof. reflexivity. Qed.

Lemma contents_store_all_full st xs :
  ring_invariant MAX st →
  (Z.to_nat MAX ≤ length xs)%nat →
  contents (store_all xs st) = drop (length xs - Z.to_nat MAX) xs.
Proof.
  intros Hinv Hlen. rewrite contents_store_all by done.
  by rewrite last_n_app_ge.
Qed.

(** C3.  Pushing [capacity + k] samples, [k >= 1], onto any buffer:
    the count never exceeds the capacity on the way and ends equal to it;
    a read of [capacity] entries returns exactly the last [capacity]
    samples pushed, oldest first; whatever a read asks for, what it
    returns starts at or after the [k]-th pushed sample, so the [k]
    oldest are gone; the slot under the head holds the oldest stored
    sample, and a further push writes there, so that the oldest sample
    goes and the new one is the most recent. *)
Theorem ring_overwrite_keeps_latest
    (st : statics) (xs : list zmk_battery_history_sample) (k : nat) :
  ring_invariant MAX st →
  (1 ≤ k)%nat →
  length xs = (Z.to_nat MAX + k)%nat →
  let st' := store_all xs st in
  (∀ n, 0 <= battery_history_count (store_all (take n xs) st) <= MAX) ∧
  battery_history_count st' = MAX ∧
  length (read_samples MAX st') = Z.to_nat MAX ∧
  read_samples MAX st' = drop k xs ∧
  (∀ m, ∃ j, read_samples m st' = drop (k + j) xs) ∧
  battery_history st' !! Z.to_nat (battery_history_head st')
  = head (read_samples MAX st') ∧
  (∀ s, battery_history (battery_history_store MAX s st')
        = <[Z.to_nat (battery_history_head st') := s]> (battery_history st')
        ∧ read_samples MAX (battery_history_store MAX s st')
          = tail (read_samples MAX st') ++ [s]).
Proof.
  intros Hinv Hk Hlen st'.
  pose proof (ring_invariant_store_all xs st Hinv) as Hinv'.
  fold st' in Hinv'.
  assert (contents st' = drop k xs) as Hcontents.
  { subst st'. rewrite contents_store_all_full by (done || lia).
    f_equal. lia. }
  assert (battery_history_count st' = MAX) as Hcount.
  { pose proof (length_contents st') as Hlc.
    rewrite Hcontents, length_drop in Hlc.
    destruct Hinv' as (_ & _ & Hc). lia. }
  assert (read_samples MAX st' = drop k xs) as Hread.
  { rewrite read_samples_spec by (done || lia).
    rewrite Hcount, Z.min_id, Hcontents. apply last_n_ge.
    rewrite length_drop. lia. }
  split; [|split; [|split; [|split; [|split; [|split]]]]].
  - intros n. by destruct (ring_invariant_store_all (take n xs) st Hinv) as (_ & _ & ?).
  - done.
  - rewrite Hread, length_drop. lia.
  - done.
  - intros m. destruct (Z_le_gt_dec m 0) as [Hm|Hm].
    + exists (Z.to_nat MAX). rewrite read_samples_nonpos by done.
      symmetry. apply drop_ge. lia.
    + rewrite read_samples_spec by (done || lia).
      rewrite Hcount, Hcontents. unfold last_n. rewrite drop_drop.
      eexists. reflexivity.
  - rewrite Hread, <- Hcontents, head_lookup.
    rewrite lookup_contents by lia.
    rewrite Hcount, Z.add_0_r, Z.add_simpl_r.
    destruct Hinv' as (Hl & Hh & _).
    rewrite Z.mod_small by lia.
    apply list_lookup_lookup_total_lt. lia.
  - intros s. split; [done|].
    rewrite Hread.
    rewrite read_samples_spec by (by apply ring_invariant_store || lia).
    rewrite store_count by done. rewrite Hcount, Z.ltb_irrefl, Z.min_id.
    rewrite contents_store by done. rewrite Hcontents.
    rewrite last_n_snoc by (rewrite ?length_drop; lia).
    rewrite length_drop.
    replace (length xs - k <? Z.to_nat MAX)%nat with false
      by (symmetry; apply Nat.ltb_ge; lia).
    apply last_n_ge. rewrite length_app. simpl.
    destruct (drop k xs) eqn:Hd.
    { apply (f_equal length) in Hd. rewrite length_drop in Hd. simpl in Hd. lia. }
    apply (f_equal length) in Hd. rewrite length_drop in Hd. simpl in *. lia.
Qed.

(** C10.  [0 <= head < capacity] and [count <= capacity] (with the array
    at its declared size) hold for the zeroed statics and are preserved by
    a push, a read and a clear: a push moves the head forward modulo the
    capacity and increments the count only while it is below the
    capacity, a read leaves the whole state as it was, a clear sets head
    and count to zero. *)
Theorem ring_invariant_holds :
  ring_invariant MAX (initial_state MAX) ∧
  ∀ st op, ring_invariant MAX st →
    let st' := apply_operation MAX op st in
    ring_invariant MAX st' ∧
    match op with
    | Push _ =>
        battery_history_head st' = (battery_history_head st + 1) mod MAX ∧
        battery_history_count st'
        = (if battery_history_count st <? MAX
           then battery_history_count st + 1 else battery_history_count st)
    | Read _ _ => st' = st
    | Clear => battery_history_head st' = 0 ∧ battery_history_count st' = 0
    end.
Proof.
  split; [apply ring_invariant_initial|].
  intros st op Hinv st'. split; [by apply ring_invariant_apply_operation|].
  subst st'. destruct op as [s|buffer m|].
  - split; [by apply store_head | by apply store_count].
  - simpl. unfold zmk_battery_history_get_samples.
    destruct buffer; [destruct (m =? 0)|]; done.
  - done.
Qed.

Lemma handle_get_history_request_spec st (m : Z) (resp : Response) :
  ring_invariant MAX st →
  let max_entries := if m =? 0 then MAX else Z.min m MAX in
  0 < max_entries →
  handle_get_history_request MAX INTERVAL m resp st
  = (0,
     Response_history
       {| samples :=
            to_BatterySample
              <$> last_n (Z.to_nat (Z.min (battery_history_count st) max_entries))
                    (contents st);
          samples_count := Z.min (battery_history_count st) max_entries;
          capacity := MAX;
          total_entries := battery_history_count st;
          sample_interval_seconds := INTERVAL |},
     st).
Proof.
  intros Hinv max_entries Hpos. pose proof Hinv as (Hl & Hh & Hc).
  unfold handle_get_history_request, zmk_battery_history_get_capacity.
  fold max_entries.
  rewrite get_samples_spec;
    [|done|done|rewrite length_replicate; subst max_entries;
                destruct (m =? 0); lia].
  simpl. do 3 f_equal.
  rewrite take_app_length'; [done|].
  rewrite length_last_n, length_contents. lia.
Qed.

Lemma timestamps_to_BatterySample (l : list zmk_battery_history_sample) :
  sample_timestamp_seconds <$> (to_BatterySample <$> l)
  = timestamp_seconds <$> l.
Proof. induction l as [|x l IH]; [done|]. by rewrite !fmap_cons, IH. Qed.

Lemma levels_to_BatterySample (l : list zmk_battery_history_sample) :
  sample_level_percent <$> (to_BatterySample <$> l) = level_percent <$> l.
Proof. induction l as [|x l IH]; [done|]. by rewrite !fmap_cons, IH. Qed.

(** C4, amended.  On every state the buffer can reach, a history request
    with [max_entries = 0] and one with [max_entries] above the capacity
    both return everything that is stored; any other [max_entries]
    returns the last [min max_entries count] stored samples, oldest
    first.  The samples of the response carry the timestamps and the
    levels of the stored samples, in their order.  The buffer function
    itself returns the last [min max_entries count] stored samples for
    every [max_entries] above 0, also above the capacity, and leaves the
    rest of the caller's array alone; for [max_entries = 0] it returns 0
    and copies nothing.  "Stored" is the queue of the specification,
    [queue_of]. *)
Theorem history_request_clamps (ops : list operation) (resp : Response) (m : Z) :
  let st := apply_operations MAX ops (initial_state MAX) in
  let stored := queue_of ops in
  (m = 0 ∨ MAX < m →
   ∃ h,
     handle_get_history_request MAX INTERVAL m resp st
     = (0, Response_history h, st)
     ∧ sample_timestamp_seconds <$> samples h = timestamp_seconds <$> stored
     ∧ sample_level_percent <$> samples h = level_percent <$> stored
     ∧ samples_count h = Z.of_nat (length stored)
     ∧ capacity h = MAX
     ∧ total_entries h = Z.of_nat (length stored)
     ∧ sample_interval_seconds h = INTERVAL) ∧
  (0 < m <= MAX →
   let n := (Z.to_nat m `min` length stored)%nat in
   ∃ h,
     handle_get_history_request MAX INTERVAL m resp st
     = (0, Response_history h, st)
     ∧ sample_timestamp_seconds <$> samples h
       = timestamp_seconds <$> last_n n stored
     ∧ sample_level_percent <$> samples h
       = level_percent <$> last_n n stored
     ∧ samples_count h = Z.of_nat n
     ∧ capacity h = MAX
     ∧ total_entries h = Z.of_nat (length stored)
     ∧ sample_interval_seconds h = INTERVAL) ∧
  (0 < m →
   let n := (Z.to_nat m `min` length stored)%nat in
   ∀ buffer, (n ≤ length buffer)%nat →
     ∃ filled,
       zmk_battery_history_get_samples MAX (Some buffer) m st
       = (Some filled, Z.of_nat n, st)
       ∧ take n filled = last_n n stored
       ∧ drop n filled = drop n buffer) ∧
  (∀ buffer,
     zmk_battery_history_get_samples MAX (Some buffer) 0 st
     = (Some buffer, 0, st)).
Proof.
  intros st stored.
  assert (ring_invariant MAX st) as Hinv
    by apply ring_invariant_apply_operations, ring_invariant_initial.
  pose proof Hinv as (Hl & Hh & Hc).
  assert (contents st = stored) as Hcontents by apply contents_reachable.
  assert (battery_history_count st = Z.of_nat (length stored)) as Hcount.
  { rewrite <- Hcontents, length_contents. lia. }
  split; [|split; [|split]].
  - intros Hm.
    rewrite handle_get_history_request_spec by (done || destruct (Z.eqb_spec m 0); lia).
    rewrite Hcontents.
    assert (Z.min (battery_history_count st) (if m =? 0 then MAX else Z.min m MAX)
            = Z.of_nat (length stored)) as ->.
    { destruct (Z.eqb_spec m 0); lia. }
    rewrite Nat2Z.id, last_n_ge by done.
    eexists. split; [reflexivity|]. simpl.
    split; [apply timestamps_to_BatterySample|].
    split; [apply levels_to_BatterySample|]. done.
  - intros Hm n.
    rewrite handle_get_history_request_spec by (done || destruct (Z.eqb_spec m 0); lia).
    rewrite Hcontents.
    assert (Z.min (battery_history_count st) (if m =? 0 then MAX else Z.min m MAX)
            = Z.of_nat n) as ->.
    { subst n. destruct (Z.eqb_spec m 0); lia. }
    rewrite Nat2Z.id.
    eexists. split; [reflexivity|]. simpl.
    split; [apply timestamps_to_BatterySample|].
    split; [apply levels_to_BatterySample|]. done.
  - intros Hm n buffer Hroom.
    assert (Z.min (battery_history_count st) m = Z.of_nat n) as Hn
      by (subst n; lia).
    rewrite get_samples_spec by (done || rewrite Hn, Nat2Z.id; done).
    rewrite Hn, Nat2Z.id, Hcontents.
    assert (length (last_n n stored) = n) as Hlen
      by (rewrite length_last_n; subst n; lia).
    eexists. split; [reflexivity|].
    split; [by rewrite take_app_length'|by rewrite drop_app_length'].
  - intros buffer. apply get_samples_zero.
Qed.

End Ring.

(** *** The same on a buffer of three and of five entries *)

Lemma ring_overwrite_keeps_latest_witness :
  0 < 3 ∧ 2 * 3 <= 2 ^ 32 ∧
  BatteryHistory.ring_invariant 3 (BatteryHistory.initial_state 3) ∧
  (1 ≤ 2)%nat ∧
  length Examples.five_samples = (Z.to_nat 3 + 2)%nat ∧
  BatteryHistory.read_samples 3 3
    (BatteryHistory.store_all 3 Examples.five_samples
       (BatteryHistory.initial_state 3))
  = [Examples.sample 30 79; Examples.sample 40 78; Examples.sample 50 77].
Proof.
  assert (0 < 3) as Hpos by lia.
  assert (2 * 3 <= 2 ^ 32) as Hfits by lia.
  assert (BatteryHistory.ring_invariant 3 (BatteryHistory.initial_state 3))
    as Hinv by (unfold BatteryHistory.ring_invariant; simpl; lia).
  assert (1 ≤ 2)%nat as Hk by lia.
  assert (length Examples.five_samples = (Z.to_nat 3 + 2)%nat) as Hlen
    by reflexivity.
  destruct (ring_overwrite_keeps_latest 3 Hpos Hfits _ _ 2 Hinv Hk Hlen)
    as (_ & _ & _ & Hread & _).
  exact (conj Hpos (conj Hfits (conj Hinv (conj Hk (conj Hlen Hread))))).
Defined.

Lemma history_request_clamps_witness :
  0 < 5 ∧ 2 * 5 <= 2 ^ 32 ∧
  let st :=
    BatteryHistory.apply_operations 5
      (BatteryHistory.Push <$> Examples.three_samples)
      (BatteryHistory.initial_state 5) in
  ∃ h,
    BatteryHistoryHandler.handle_get_history_request 5 60 0
      BatteryHistoryHandler.Response_init_zero st
    = (0, BatteryHistoryHandler.Response_history h, st)
    ∧ BatteryHistoryHandler.sample_timestamp_seconds
        <$> BatteryHistoryHandler.samples h = [10; 20; 30]
    ∧ BatteryHistoryHandler.sample_level_percent
        <$> BatteryHistoryHandler.samples h = [80; 79; 79]
    ∧ BatteryHistoryHandler.samples_count h = 3
    ∧ BatteryHistoryHandler.capacity h = 5
    ∧ BatteryHistoryHandler.total_entries h = 3
    ∧ BatteryHistoryHandler.sample_interval_seconds h = 60.
Proof.
  assert (0 < 5) as Hpos by lia.
  assert (2 * 5 <= 2 ^ 32) as Hfits by lia.
  split; [assumption|]. split; [assumption|].
  exact (proj1 (history_request_clamps 5 60 Hpos Hfits
                  (BatteryHistory.Push <$> Examples.three_samples)
                  BatteryHistoryHandler.Response_init_zero 0)
               (or_introl eq_refl)).
Defined.

(** C4 as worded does not hold for the buffer function.  With three
    samples stored in a buffer of five, a read with [max_entries = 0]
    returns 0 and leaves the caller's array as it was, although three
    samples are stored. *)
Lemma read_of_zero_returns_nothing :
  let st :=
    BatteryHistory.apply_operations 5
      (BatteryHistory.Push <$> Examples.three_samples)
      (BatteryHistory.initial_state 5) in
  let buffer := replicate 5 (Examples.sample 0 0) in
  BatteryHistory.queue_of 5 (BatteryHistory.Push <$> Examples.three_samples)
  = Examples.three_samples
  ∧ (BatteryHistory.zmk_battery_history_get_total_entries st).1 = 3
  ∧ BatteryHistory.zmk_battery_history_get_samples 5 (Some buffer) 0 st
    = (Some buffer, 0, st)
  ∧ BatteryHistory.read_samples 5 0 st = [].
Proof. repeat split. Qed.

Lemma ring_invariant_holds_witness :
  0 < 5 ∧ 2 * 5 <= 2 ^ 32 ∧
  BatteryHistory.ring_invariant 5 (BatteryHistory.initial_state 5) ∧
  BatteryHistory.ring_invariant 5
    (BatteryHistory.apply_operation 5
       (BatteryHistory.Push (Examples.sample 10 80))
       (BatteryHistory.initial_state 5)).
Proof.
  assert (0 < 5) as Hpos by lia.
  assert (2 * 5 <= 2 ^ 32) as Hfits by lia.
  destruct (ring_invariant_holds 5 Hpos Hfits) as [Hinit Hstep].
  split; [assumption|]. split; [assumption|]. split; [assumption|].
  exact (proj1 (Hstep _ (BatteryHistory.Push (Examples.sample 10 80)) Hinit)).
Defined.

(** ** The key event tracker *)

Section Tracker.
Import KeyDiagnostics.
Variable cfg : config.

Local Abbreviation WINDOW := (CONFIG_ZMK_KEY_DIAGNOSTICS_CHATTER_WINDOW_MS cfg).

(** What the chatter check of [record_transition] decides. *)
Lemma record_transition_chatter ev stats :
  (0 < last_change_ms stats →
   INT64_MIN <= timestamp ev - last_change_ms stats <= INT64_MAX) →
  chatter_count (record_transition cfg ev stats)
  = if decide (0 < last_change_ms stats
               ∧ 0 <= timestamp ev - last_change_ms stats <= WINDOW)
    then uint32_wrap (chatter_count stats + 1) else chatter_count stats.
Proof.
  intros Hrange. unfold record_transition. simpl.
  destruct (Z.ltb_spec 0 (last_change_ms stats)) as [Hpos|Hnpos].
  - rewrite int64_wrap_small by auto.
    destruct (Z.leb_spec 0 (timestamp ev - last_change_ms stats));
      destruct (Z.leb_spec (timestamp ev - last_change_ms stats) WINDOW);
      simpl; case_decide; (done || lia).
  - case_decide; (done || lia).
Qed.

(** C1.  A transition delivered for a position inside the keymap, on a
    state that holds [stats] for that key (the signed subtraction of the
    chatter check being one C defines, that is without overflow): the
    listener bubbles, and the chatter count of the key is incremented if
    and only if the stored timestamp is strictly positive and
    [0 <= timestamp - last_change_ms <= chatter window]; otherwise it is
    unchanged, in particular for a key never seen before
    ([last_change_ms = 0]) and for a negative delta.  The press or the
    release count is incremented in every case. *)
Theorem chatter_counted_iff_within_window
    (st : statics) (ev : zmk_position_state_changed)
    (stats : key_diagnostics_stats) :
  (position ev < ZMK_KEYMAP_LEN cfg)%nat →
  key_stats st !! position ev = Some stats →
  (0 < last_change_ms stats →
   INT64_MIN <= timestamp ev - last_change_ms stats <= INT64_MAX) →
  ∃ st' stats',
    key_diagnostics_listener cfg (Event_position_state_changed ev) st
      = Some (ZMK_EV_EVENT_BUBBLE, st') ∧
    key_stats st' !! position ev = Some stats' ∧
    (chatter_count stats' = uint32_wrap (chatter_count stats + 1)
     ↔ 0 < last_change_ms stats
       ∧ 0 <= timestamp ev - last_change_ms stats <= WINDOW) ∧
    (chatter_count stats' = uint32_wrap (chatter_count stats + 1)
     ∨ chatter_count stats' = chatter_count stats) ∧
    (last_change_ms stats <= 0 → chatter_count stats' = chatter_count stats) ∧
    (timestamp ev - last_change_ms stats < 0 →
     chatter_count stats' = chatter_count stats) ∧
    press_count stats'
      = (if state ev then uint32_wrap (press_count stats + 1)
         else press_count stats) ∧
    release_count stats'
      = (if state ev then release_count stats
         else uint32_wrap (release_count stats + 1)).
Proof.
  intros Hpos Hstats Hrange.
  unfold key_diagnostics_listener. simpl.
  destruct (Nat.leb_spec (ZMK_KEYMAP_LEN cfg) (position ev)) as [?|_]; [lia|].
  rewrite Hstats. simpl.
  eexists _, (record_transition cfg ev stats).
  split; [reflexivity|].
  split.
  { simpl. apply list_lookup_insert_eq. by eapply lookup_lt_Some. }
  rewrite record_transition_chatter by done.
  pose proof (uint32_wrap_succ_ne (chatter_count stats)).
  repeat split; try case_decide; try tauto; try lia; try congruence.
Qed.

(** C8.  A transition whose position is not below the keymap length
    changes nothing: the listener gives back the very state it was given,
    reports no error (it bubbles), and has a defined result whatever the
    state, so no element outside [key_stats] is touched. *)
Theorem out_of_range_position_ignored
    (st : statics) (ev : zmk_position_state_changed) :
  (ZMK_KEYMAP_LEN cfg ≤ position ev)%nat →
  key_diagnostics_listener cfg (Event_position_state_changed ev) st
  = Some (ZMK_EV_EVENT_BUBBLE, st).
Proof.
  intros Hpos. unfold key_diagnostics_listener. simpl.
  destruct (Nat.leb_spec (ZMK_KEYMAP_LEN cfg) (position ev)); [done|lia].
Qed.

(** C9.  Whatever the event (not a position-state-changed event, a
    position outside the keymap, or a recorded transition), the listener
    returns [ZMK_EV_EVENT_BUBBLE]; [key_stats] keeps its size. *)
Theorem listener_always_bubbles (st : statics) (eh : zmk_event) :
  length (key_stats st) = ZMK_KEYMAP_LEN cfg →
  ∃ st', key_diagnostics_listener cfg eh st = Some (ZMK_EV_EVENT_BUBBLE, st')
         ∧ length (key_stats st') = ZMK_KEYMAP_LEN cfg.
Proof.
  intros Hlen. destruct eh as [ev|]; unfold key_diagnostics_listener; simpl.
  - destruct (Nat.leb_spec (ZMK_KEYMAP_LEN cfg) (position ev)) as [Hge|Hlt].
    + by exists st.
    + destruct (lookup_lt_is_Some_2 (key_stats st) (position ev)) as [stats Hs];
        [lia|].
      rewrite Hs. simpl. eexists. split; [reflexivity|].
      simpl. by rewrite length_insert.
  - by exists st.
Qed.

End Tracker.


(** ** The two dispatchers *)

Section Dispatch.
Import Firmware.
Variable cfg : KeyDiagnostics.config.
Variable pb_decode_key_diagnostics : list Byte.byte → option KeyDiagnostics.Request.
Variable MAX INTERVAL : Z.
Variable BATTERY_ERROR_MESSAGE_SIZE : nat.
Variable pb_decode_battery_history : list Byte.byte → option BatteryHistoryHandler.Request.

Local Abbreviation call_key :=
  (call_key_diagnostics cfg pb_decode_key_diagnostics).
Local Abbreviation call_battery :=
  (call_battery_history MAX INTERVAL BATTERY_ERROR_MESSAGE_SIZE
     pb_decode_battery_history).

(** C6.  A payload that does not decode, and one that decodes to a
    request variant the dispatcher has no case for, both get an error
    response, and the whole state (per-key statistics, mapping cache and
    ring buffer) is the one before the call.  This holds for the key
    diagnostics dispatcher and for the battery history dispatcher. *)
Theorem rejected_request_leaves_state
    (env : KeyDiagnostics.environment) (payload : list Byte.byte) (st : statics) :
  (pb_decode_key_diagnostics payload = None
   ∨ (∃ tag, pb_decode_key_diagnostics payload
             = Some (KeyDiagnostics.Request_other tag)) →
   ∃ resp, call_key env payload st = Some (true, resp, st)
           ∧ is_error resp = true) ∧
  (pb_decode_battery_history payload = None
   ∨ (∃ tag, pb_decode_battery_history payload
             = Some (BatteryHistoryHandler.Request_other tag)) →
   ∃ resp, call_battery payload st = Some (true, resp, st)
           ∧ is_error resp = true).
Proof.
  destruct st as [diag bat]. split.
  - intros [Hdec|[tag Hdec]];
      unfold call_key_diagnostics,
        KeyDiagnostics.key_diagnostics_rpc_handle_request;
      rewrite Hdec; simpl; eexists; split; reflexivity.
  - intros [Hdec|[tag Hdec]];
      unfold call_battery_history,
        BatteryHistoryHandler.battery_history_rpc_handle_request;
      rewrite Hdec; simpl; eexists; split; reflexivity.
Qed.

End Dispatch.

(** ** The scan of the line pairs *)

Section Scan.
Import KeyDiagnostics.
Context {A : Type}.
Implicit Types body : nat → nat → A → A.

Lemma inner_loop_pairs body (r : nat) (cols : list nat) (acc : A) :
  foldl (fun acc column =>
           if (r =? column)%nat then acc else body r column acc) acc cols
  = foldl (fun a p => body p.1 p.2 a) acc
      ((fun c => (r, c)) <$> filter (fun c => r ≠ c) cols).
Proof.
  revert acc. induction cols as [|c cols IH]; intros acc; [done|].
  simpl. rewrite filter_cons.
  destruct (Nat.eqb_spec r c) as [->|Hne].
  - rewrite decide_False by (intros H; by apply H). apply IH.
  - rewrite decide_True by done. simpl. apply IH.
Qed.

Lemma for_each_line_pair_pairs body (n : nat) (acc : A) :
  for_each_line_pair n body acc
  = foldl (fun a p => body p.1 p.2 a) acc (distinct_line_pairs n).
Proof.
  unfold for_each_line_pair, distinct_line_pairs.
  generalize (seq 0 n) at 2 4. generalize (seq 0 n).
  intros cols rows. revert acc.
  induction rows as [|r rows IH]; intros acc; [done|].
  simpl. rewrite foldl_app, <- inner_loop_pairs. apply IH.
Qed.
End Scan.

Section Pairs.
Import KeyDiagnostics.

Lemma foldl_snoc_trace (l pre : list (nat * nat)) :
  foldl (fun a p => a ++ [(p.1, p.2)]) pre l = pre ++ l.
Proof.
  revert pre. induction l as [|[r c] l IH]; intros pre; simpl.
  - by rewrite app_nil_r.
  - rewrite IH. by rewrite <- app_assoc.
Qed.

Lemma line_pairs_distinct (n : nat) : line_pairs n = distinct_line_pairs n.
Proof.
  unfold line_pairs. rewrite for_each_line_pair_pairs.
  apply foldl_snoc_trace.
Qed.

Lemma elem_of_distinct_line_pairs (n r c : nat) :
  (r, c) ∈ distinct_line_pairs n ↔ (r < n ∧ c < n ∧ r ≠ c)%nat.
Proof.
  unfold distinct_line_pairs. rewrite list_elem_of_bind. split.
  - intros (r' & Hin & Hr'). apply list_elem_of_fmap in Hin as (c' & Heq & Hc').
    apply list_elem_of_filter in Hc' as (Hne & Hc').
    apply elem_of_seq in Hr', Hc'. simplify_eq. lia.
  - intros (Hr & Hc & Hne). exists r. split.
    + apply list_elem_of_fmap. exists c. split; [done|].
      apply list_elem_of_filter. split; [done|]. apply elem_of_seq. lia.
    + apply elem_of_seq. lia.
Qed.

Lemma NoDup_distinct_line_pairs (n : nat) : NoDup (distinct_line_pairs n).
Proof.
  unfold distinct_line_pairs. apply NoDup_bind.
  - intros r1 r2 [r c] _ _ H1 H2.
    apply list_elem_of_fmap in H1 as (? & ? & _).
    apply list_elem_of_fmap in H2 as (? & ? & _). congruence.
  - intros r _. apply NoDup_fmap_2.
    + intros c1 c2 ?. congruence.
    + apply NoDup_filter, NoDup_seq.
  - apply NoDup_seq.
Qed.

Lemma length_filter_ne_seq (r a n : nat) :
  length (filter (fun c => r ≠ c) (seq a n))
  = (if decide (a ≤ r < a + n)%nat then n - 1 else n)%nat.
Proof.
  revert a. induction n as [|n IH]; intros a.
  - simpl. case_decide; lia.
  - simpl. rewrite filter_cons. destruct (decide (r ≠ a)) as [Hne|Heq].
    + simpl. rewrite IH. repeat case_decide; lia.
    + assert (r = a) as -> by (destruct (decide (r = a)); [done|by exfalso]).
      rewrite IH. repeat case_decide; lia.
Qed.

Lemma length_distinct_line_pairs (n : nat) :
  length (distinct_line_pairs n) = (n * (n - 1))%nat.
Proof.
  unfold distinct_line_pairs.
  assert (∀ rows : list nat, Forall (fun r => r < n)%nat rows →
          length (rows ≫= fun r => (fun c => (r, c)) <$> filter (fun c => r ≠ c) (seq 0 n))
          = (length rows * (n - 1))%nat) as Hgen.
  { induction 1 as [|r rows Hr _ IH]; [done|].
    rewrite bind_cons, length_app, IH, length_fmap, length_filter_ne_seq.
    rewrite decide_True by lia. simpl. lia. }
  rewrite Hgen, length_seq; [done|].
  apply Forall_forall. intros r Hr. apply elem_of_seq in Hr. lia.
Qed.

End Pairs.

(** ** The assignments to the mapping array *)

Section Writes.
Import KeyDiagnostics.
Implicit Types ws : list (nat * key_gpio_mapping).
Implicit Types ms : list key_gpio_mapping.

Lemma length_foldl_apply_write ws ms :
  length (foldl apply_write ms ws) = length ms.
Proof.
  revert ms. induction ws as [|w ws IH]; intros ms; [done|].
  simpl. rewrite IH. apply length_insert.
Qed.

Lemma lookup_foldl_apply_write_notin ws ms (p : nat) :
  p ∉ ws.*1 → foldl apply_write ms ws !! p = ms !! p.
Proof.
  revert ms. induction ws as [|[q e] ws IH]; intros ms Hp; [done|].
  simpl in *. apply not_elem_of_cons in Hp as [Hne Hp].
  rewrite IH by done. unfold apply_write. simpl.
  by apply list_lookup_insert_ne.
Qed.

Lemma lookup_foldl_apply_write_last ws1 ws2 ms (p : nat) e :
  p ∉ ws2.*1 → (p < length ms)%nat →
  foldl apply_write ms (ws1 ++ (p, e) :: ws2) !! p = Some e.
Proof.
  intros Hp Hlen. rewrite foldl_app. simpl.
  rewrite lookup_foldl_apply_write_notin by done.
  unfold apply_write at 1. simpl. apply list_lookup_insert_eq.
  by rewrite length_foldl_apply_write.
Qed.

Lemma lookup_foldl_apply_write_inv ws ms (p : nat) e :
  foldl apply_write ms ws !! p = Some e →
  ms !! p = Some e ∨ (p, e) ∈ ws.
Proof.
  revert ms. induction ws as [|[q e'] ws IH]; intros ms Hl; [by left|].
  simpl in Hl. apply IH in Hl as [Hl|Hl].
  - unfold apply_write in Hl. simpl in Hl.
    destruct (decide (q = p)) as [->|Hne].
    + destruct (decide (p < length ms)%nat) as [Hlt|Hge].
      * rewrite list_lookup_insert_eq in Hl by done.
        right. simplify_eq. apply elem_of_cons. by left.
      * rewrite list_insert_ge in Hl by lia. by left.
    + rewrite list_lookup_insert_ne in Hl by done. by left.
  - right. apply elem_of_cons. by right.
Qed.

(** Some write to [p] is the last one. *)
Lemma last_write_exists ws (p : nat) :
  p ∈ ws.*1 → ∃ ws1 e' ws2, ws = ws1 ++ (p, e') :: ws2 ∧ p ∉ ws2.*1.
Proof.
  induction ws as [|[q e0] ws IH]; intros Hin; [by apply elem_of_nil in Hin|].
  destruct (decide (p ∈ ws.*1)) as [Hlater|Hnot].
  - destruct (IH Hlater) as (ws1 & e' & ws2 & -> & Hlast).
    by exists ((q, e0) :: ws1), e', ws2.
  - simpl in Hin. apply elem_of_cons in Hin as [->|Hin]; [|done].
    by exists [], e0, ws.
Qed.
End Writes.

Section Resolver.
Import KeyDiagnostics.
Variable cfg : config.
Local Abbreviation LEN := (ZMK_KEYMAP_LEN cfg).
Variable transform : nat → nat → Z.

Lemma collect_writes_omap (l : list (nat * nat))
    (pre : list (nat * key_gpio_mapping)) :
  foldl (fun a p =>
           let position := transform p.1 p.2 in
           if (position <? 0) || (Z.of_nat LEN <=? position) then a
           else a ++ [(Z.to_nat position,
                       {| row := p.1; column := p.2; valid := true |})])
        pre l
  = pre ++ omap (write_for cfg transform) l.
Proof.
  revert pre. induction l as [|[r c] l IH]; intros pre; simpl.
  - by rewrite app_nil_r.
  - rewrite IH. unfold write_for at 2. simpl.
    destruct ((transform r c <? 0) || (Z.of_nat LEN <=? transform r c)); [done|].
    by rewrite <- app_assoc.
Qed.

Lemma mapping_writes_omap (n : nat) :
  mapping_writes cfg transform n
  = omap (write_for cfg transform) (distinct_line_pairs n).
Proof.
  unfold mapping_writes. rewrite for_each_line_pair_pairs.
  apply (collect_writes_omap _ []).
Qed.

Lemma record_mappings_writes (n : nat) (ms : list key_gpio_mapping) :
  for_each_line_pair n (record_mapping cfg transform) ms
  = foldl apply_write ms (mapping_writes cfg transform n).
Proof.
  rewrite mapping_writes_omap, for_each_line_pair_pairs.
  generalize (distinct_line_pairs n). intros l. revert ms.
  induction l as [|[r c] l IH]; intros ms; [done|].
  simpl. rewrite IH. unfold record_mapping, write_for. simpl.
  by destruct ((transform r c <? 0) || (Z.of_nat LEN <=? transform r c)).
Qed.

Lemma elem_of_mapping_writes (n p : nat) (m : key_gpio_mapping) :
  (p, m) ∈ mapping_writes cfg transform n ↔
  ∃ r c, (r, c) ∈ line_pairs n
         ∧ 0 <= transform r c < Z.of_nat LEN
         ∧ p = Z.to_nat (transform r c)
         ∧ m = {| row := r; column := c; valid := true |}.
Proof.
  rewrite mapping_writes_omap, line_pairs_distinct, list_elem_of_omap.
  unfold write_for. split.
  - intros ([r c] & Hin & Hw). simpl in Hw. exists r, c.
    destruct (Z.ltb_spec (transform r c) 0);
      destruct (Z.leb_spec (Z.of_nat LEN) (transform r c));
      simpl in Hw; simplify_eq. repeat split; (done || lia).
  - intros (r & c & Hin & Hrange & -> & ->). exists (r, c). split; [done|].
    simpl.
    destruct (Z.ltb_spec (transform r c) 0);
      destruct (Z.leb_spec (Z.of_nat LEN) (transform r c)); simpl; (done || lia).
Qed.

Lemma mapping_writes_in_range (n p : nat) (m : key_gpio_mapping) :
  (p, m) ∈ mapping_writes cfg transform n → (p < LEN)%nat ∧ valid m = true.
Proof.
  intros (r & c & _ & Hrange & -> & ->)%elem_of_mapping_writes.
  split; [lia|done].
Qed.

(** With a transform that sends different pairs to different positions,
    every position is written at most once. *)
Lemma NoDup_mapping_writes (n : nat) :
  (∀ r c r' c', (r, c) ∈ line_pairs n → (r', c') ∈ line_pairs n →
     0 <= transform r c < Z.of_nat LEN →
     transform r c = transform r' c' → (r, c) = (r', c')) →
  NoDup (mapping_writes cfg transform n).*1.
Proof.
  intros Hinj. rewrite mapping_writes_omap.
  rewrite line_pairs_distinct in Hinj.
  pose proof (NoDup_distinct_line_pairs n) as Hnd.
  assert (∀ x, x ∈ distinct_line_pairs n → x ∈ distinct_line_pairs n) as Hsub by done.
  revert Hnd Hsub. generalize (distinct_line_pairs n) at 1 2 4.
  induction l as [|[r c] l IH]; intros Hnd Hsub; [constructor|].
  apply NoDup_cons in Hnd as [Hnotin Hnd].
  assert (NoDup (omap (write_for cfg transform) l).*1) as IH'.
  { apply IH; [done|]. intros x Hx. apply Hsub, elem_of_cons. by right. }
  simpl. destruct (write_for cfg transform (r, c)) as [[p m]|] eqn:Hw; [|done].
  simpl. apply NoDup_cons. split; [|done].
  intros Hin. apply list_elem_of_fmap in Hin as ([p' m'] & Hp & Hin).
  simpl in Hp. subst p'.
  apply list_elem_of_omap in Hin as ([r' c'] & Hin' & Hw').
  unfold write_for in Hw, Hw'. simpl in Hw, Hw'.
  destruct (Z.ltb_spec (transform r c) 0);
    destruct (Z.leb_spec (Z.of_nat LEN) (transform r c));
    simpl in Hw; simplify_eq.
  destruct (Z.ltb_spec (transform r' c') 0);
    destruct (Z.leb_spec (Z.of_nat LEN) (transform r' c'));
    simpl in Hw'; simplify_eq.
  assert ((r, c) = (r', c')) as Heq.
  { apply Hinj.
    - apply Hsub, elem_of_cons. by left.
    - apply Hsub, elem_of_cons. by right.
    - lia.
    - apply Z2Nat.inj; (done || lia). }
  simplify_eq. done.
Qed.

End Resolver.

(** ** Filling a report *)

Lemma mapM_spec {A B} (f : A → option B) (P : A → B → Prop) (l : list A) :
  (∀ x, x ∈ l → ∃ y, f x = Some y ∧ P x y) →
  ∃ k, mapM f l = Some k ∧ Forall2 P l k.
Proof.
  induction l as [|x l IH]; intros Hf.
  - exists []. by split.
  - destruct (Hf x) as (y & Hy & HP); [apply elem_of_cons; by left|].
    destruct IH as (k & Hk & HF).
    { intros x' Hx'. apply Hf, elem_of_cons. by right. }
    exists (y :: k). simpl. rewrite Hy. simpl. rewrite Hk. simpl.
    split; [done|by constructor].
Qed.

Section Report.
Import KeyDiagnostics.
Variable cfg : config.
Local Abbreviation LEN := (ZMK_KEYMAP_LEN cfg).
Local Abbreviation gpios := (charlieplex_gpios cfg).

(** After a refresh the flag says whether a layout is cached, and the
    statistics are untouched. *)
Lemma refresh_layout_cache_spec env st :
  let st' := key_diagnostics_refresh_layout_cache env st in
  key_stats st' = key_stats st ∧
  cached_layout st' = active_layout cfg env ∧
  cached_layout_valid st'
  = (match active_layout cfg env with Some _ => true | None => false end).
Proof.
  unfold active_layout, key_diagnostics_refresh_layout_cache.
  destruct (length (physical_layouts env) =? 0)%nat; simpl; done.
Qed.

Lemma lookup_zero_mappings (p : nat) m :
  replicate LEN mapping_zero !! p = Some m → valid m = false.
Proof. intros [-> _]%lookup_replicate. done. Qed.

Lemma mappings_bounded_zero : mappings_bounded cfg (replicate LEN mapping_zero).
Proof.
  split; [by rewrite length_replicate|].
  intros p m Hl Hv. apply lookup_zero_mappings in Hl. congruence.
Qed.

Lemma mappings_bounded_writes transform :
  ZMK_KEY_DIAGNOSTICS_CHARLIEPLEX cfg = true →
  mappings_bounded cfg
    (foldl apply_write (replicate LEN mapping_zero)
       (mapping_writes cfg transform (length gpios))).
Proof.
  intros Hc. split.
  - by rewrite length_foldl_apply_write, length_replicate.
  - intros p m Hl Hv. apply lookup_foldl_apply_write_inv in Hl as [Hl|Hl].
    + apply lookup_zero_mappings in Hl. congruence.
    + apply elem_of_mapping_writes in Hl as (r & c & Hin & _ & _ & ->).
      rewrite line_pairs_distinct in Hin.
      apply elem_of_distinct_line_pairs in Hin. simpl. split; [done|lia].
Qed.

Lemma build_gpio_mapping_charlieplex st layout :
  ZMK_KEY_DIAGNOSTICS_CHARLIEPLEX cfg = true →
  cached_layout_valid st = true →
  cached_layout st = Some layout →
  key_diagnostics_build_gpio_mapping cfg st
  = Some (set_key_mappings
            (foldl apply_write (replicate LEN mapping_zero)
               (mapping_writes cfg (matrix_transform layout) (length gpios)))
            st).
Proof.
  intros Hc Hv Hl. unfold key_diagnostics_build_gpio_mapping.
  rewrite Hc. simpl. rewrite Hv, Hl. simpl.
  by rewrite record_mappings_writes.
Qed.

Lemma build_gpio_mapping_spec st :
  (cached_layout_valid st = true → is_Some (cached_layout st)) →
  ∃ ms, key_diagnostics_build_gpio_mapping cfg st = Some (set_key_mappings ms st)
        ∧ mappings_bounded cfg ms.
Proof.
  intros Hcache.
  destruct (ZMK_KEY_DIAGNOSTICS_CHARLIEPLEX cfg) eqn:Hc;
    [destruct (cached_layout_valid st) eqn:Hv|].
  - destruct Hcache as [layout Hl]; [done|].
    rewrite (build_gpio_mapping_charlieplex st layout) by done.
    eexists. split; [reflexivity|]. by apply mappings_bounded_writes.
  - unfold key_diagnostics_build_gpio_mapping. rewrite Hc. simpl. rewrite Hv. simpl.
    eexists. split; [reflexivity|]. apply mappings_bounded_zero.
  - unfold key_diagnostics_build_gpio_mapping. rewrite Hc. simpl.
    eexists. split; [reflexivity|]. apply mappings_bounded_zero.
Qed.

Lemma apply_stats_spec (i : nat) stats st mapping :
  (i < LEN)%nat →
  mappings_bounded cfg (key_mappings st) →
  key_mappings st !! i = Some mapping →
  ∃ entry,
    key_diagnostics_apply_stats cfg i stats KeyDiagnostics_init_zero st
      = Some entry
    ∧ entry_merges i stats mapping entry.
Proof.
  intros Hi [_ Hb] Hm. unfold key_diagnostics_apply_stats.
  destruct (Nat.leb_spec LEN i) as [?|_]; [lia|].
  rewrite Hm. simpl. destruct (valid mapping) eqn:Hv.
  - destruct (Hb i mapping Hm Hv) as (Hc & Hr & Hcol).
    rewrite Hc.
    destruct (lookup_lt_is_Some_2 gpios (row mapping) Hr) as [drive ->].
    destruct (lookup_lt_is_Some_2 gpios (column mapping) Hcol) as [sense ->].
    simpl. eexists. split; [reflexivity|].
    unfold entry_merges. simpl. by rewrite Hv.
  - eexists. split; [reflexivity|].
    unfold entry_merges. simpl. rewrite Hv. repeat split; done.
Qed.

Lemma fill_physical_keys_is_Some report st :
  (cached_layout_valid st = true →
   ∃ layout, cached_layout st = Some layout ∧
     ∀ layout_keys, keys layout = Some layout_keys →
       (keys_len layout ≤ length layout_keys)%nat) →
  ∃ report',
    key_diagnostics_fill_physical_keys cfg report st = Some report'
    ∧ layout_name report' = layout_name report
    ∧ layout_index report' = layout_index report
    ∧ kscan_type report' = kscan_type report
    ∧ chatter_window_ms report' = chatter_window_ms report.
Proof.
  intros Hcache. unfold key_diagnostics_fill_physical_keys.
  destruct (cached_layout_valid st); simpl; [|by exists report].
  destruct Hcache as (layout & -> & Hkeys); [done|]. simpl.
  destruct (keys layout) as [layout_keys|]; [|by exists report].
  specialize (Hkeys layout_keys eq_refl).
  match goal with |- context [mapM ?f ?l] =>
    destruct (mapM_is_Some_2 f l) as [filled ->] end.
  - apply Forall_forall. intros i Hi. apply elem_of_seq in Hi. simpl.
    destruct (lookup_lt_is_Some_2 layout_keys i) as [attrs ->].
    + destruct (Nat.ltb_spec (REPORT_PHYSICAL_KEYS_SIZE cfg) (keys_len layout)); lia.
    + done.
  - simpl. eexists. split; [reflexivity|]. done.
Qed.

Lemma report_key_count_spec env st :
  let st' := key_diagnostics_refresh_layout_cache env st in
  report_key_count cfg st' = Some (entry_count cfg env).
Proof.
  intros st'. unfold report_key_count, entry_count.
  destruct (refresh_layout_cache_spec env st) as (_ & Hl & Hv).
  fold st' in Hl, Hv. rewrite Hv, Hl.
  destruct (active_layout cfg env) as [layout|]; simpl.
  - f_equal. destruct (Nat.ltb_spec (REPORT_KEYS_SIZE cfg) (keys_len layout)); lia.
  - f_equal. destruct (Nat.ltb_spec (REPORT_KEYS_SIZE cfg) LEN); lia.
Qed.

Lemma fill_report_spec env report0 st :
  length (key_stats st) = LEN →
  environment_fits cfg env →
  ∃ report ms,
    key_diagnostics_fill_report cfg env report0 st
      = Some (report,
              set_key_mappings ms (key_diagnostics_refresh_layout_cache env st))
    ∧ mappings_bounded cfg ms
    ∧ keys_count report = entry_count cfg env
    ∧ Forall2
        (fun i entry =>
           ∃ stats mapping,
             key_stats st !! i = Some stats ∧ ms !! i = Some mapping
             ∧ entry_merges i stats mapping entry)
        (seq 0 (entry_count cfg env)) (report_keys report).
Proof.
  intros Hlen Hfits. unfold key_diagnostics_fill_report.
  pose proof (report_key_count_spec env st) as Hcount.
  destruct (refresh_layout_cache_spec env st) as (Hstats & Hl & Hv).
  set (st1 := key_diagnostics_refresh_layout_cache env st) in *.
  destruct (build_gpio_mapping_spec st1) as (ms & -> & Hms).
  { rewrite Hv, Hl. by destruct (active_layout cfg env). }
  simpl.
  assert (entry_count cfg env ≤ LEN)%nat as Hbound.
  { unfold entry_count. specialize (Hfits).
    unfold environment_fits in Hfits.
    destruct (active_layout cfg env) as [layout|]; [|lia].
    destruct (Hfits layout eq_refl) as [? _]. lia. }
  assert (∃ name,
    (if cached_layout_valid st1
     then layout ← cached_layout st1;
          Some (match display_name layout with
                | Some name => snprintf_s (LAYOUT_NAME_SIZE cfg) name
                | None => layout_name report0
                end)
     else Some (layout_name report0)) = Some name) as [name ->].
  { rewrite Hv, Hl. destruct (active_layout cfg env); simpl; eauto. }
  simpl.
  match goal with |- context [key_diagnostics_fill_physical_keys cfg ?r ?s] =>
    destruct (fill_physical_keys_is_Some r s) as (report' & -> & _) end.
  { simpl. rewrite Hv, Hl. intros Hvalid.
    destruct (active_layout cfg env) as [layout|] eqn:Hact; [|done].
    exists layout. split; [done|]. by destruct (Hfits layout Hact). }
  simpl.
  change (report_key_count cfg (set_key_mappings ms st1))
    with (report_key_count cfg st1).
  rewrite Hcount. simpl.
  match goal with |- context [mapM ?f ?l] =>
    destruct (mapM_spec f
      (fun i entry =>
         ∃ stats mapping,
           key_stats st !! i = Some stats ∧ ms !! i = Some mapping
           ∧ entry_merges i stats mapping entry) l) as (entries & -> & HF) end.
  { intros i Hi. apply elem_of_seq in Hi. simpl. rewrite Hstats.
    destruct (lookup_lt_is_Some_2 (key_stats st) i) as [stats Hs]; [lia|].
    destruct (lookup_lt_is_Some_2 ms i) as [mapping Hm];
      [destruct Hms; lia|].
    rewrite Hs. simpl.
    destruct (apply_stats_spec i stats (set_key_mappings ms st1) mapping)
      as (entry & He & Hmerge); [lia|done|done|].
    exists entry. split; [done|]. by exists stats, mapping. }
  simpl. eexists _, ms. split; [reflexivity|]. done.
Qed.

End Report.

(** ** The report and the resolver *)

(** ** The order of the scan *)

Section ScanOrder.
Import KeyDiagnostics.

Lemma StronglySorted_seq (a n : nat) : StronglySorted lt (seq a n).
Proof.
  revert a. induction n as [|n IH]; intros a; simpl; constructor; [apply IH|].
  apply Forall_forall. intros x Hx. apply elem_of_seq in Hx. lia.
Qed.

Lemma StronglySorted_filter (P : nat → Prop) `{∀ x, Decision (P x)}
    (l : list nat) :
  StronglySorted lt l → StronglySorted lt (filter P l).
Proof.
  induction 1 as [|x l Hl IH Hx]; [constructor|].
  rewrite filter_cons. destruct (decide (P x)); [|done].
  constructor; [done|].
  apply Forall_forall. intros y Hy. apply list_elem_of_filter in Hy as [_ Hy].
  by eapply Forall_forall in Hx.
Qed.

Lemma StronglySorted_pairs (rows cols : list nat) :
  StronglySorted lt rows → StronglySorted lt cols →
  StronglySorted row_major_lt
    (r ← rows; (fun c => (r, c)) <$> filter (fun c => r ≠ c) cols).
Proof.
  intros Hrows Hcols.
  induction Hrows as [|r rows Hrows IH Hr]; [constructor|].
  rewrite bind_cons. apply StronglySorted_app_2; [| |done].
  - intros [r1 c1] [r2 c2] H1 H2.
    apply list_elem_of_fmap in H1 as (c & Heq & _). injection Heq as -> ->.
    apply list_elem_of_bind in H2 as (r' & H2 & Hr').
    apply list_elem_of_fmap in H2 as (c' & Heq & _). injection Heq as -> ->.
    left. simpl. by eapply Forall_forall in Hr.
  - apply (StronglySorted_fmap _ lt).
    + intros x y Hxy. right. simpl. done.
    + by apply StronglySorted_filter.
Qed.

Lemma StronglySorted_distinct_line_pairs (n : nat) :
  StronglySorted row_major_lt (distinct_line_pairs n).
Proof. apply StronglySorted_pairs; apply StronglySorted_seq. Qed.

End ScanOrder.

Section Winner.
Import KeyDiagnostics.
Variable cfg : config.
Local Abbreviation LEN := (ZMK_KEYMAP_LEN cfg).
Variable transform : nat → nat → Z.

Lemma write_for_Some (pair : nat * nat) (p : nat) (m : key_gpio_mapping) :
  write_for cfg transform pair = Some (p, m) ↔
  0 <= transform pair.1 pair.2 < Z.of_nat LEN
  ∧ p = Z.to_nat (transform pair.1 pair.2)
  ∧ m = {| row := pair.1; column := pair.2; valid := true |}.
Proof.
  unfold write_for.
  destruct (Z.ltb_spec (transform pair.1 pair.2) 0);
    destruct (Z.leb_spec (Z.of_nat LEN) (transform pair.1 pair.2)); simpl;
    (split; [intros Heq; simplify_eq; repeat split; (done || lia)
            |intros (? & -> & ->); (done || lia)]).
Qed.

(** Of the pairs that are written at [p], the one latest in the order of
    the scan is the one [p] holds in the end. *)
Lemma last_write_row_major (l : list (nat * nat))
    (ms : list key_gpio_mapping) (p : nat) (m : key_gpio_mapping) :
  StronglySorted row_major_lt l →
  length ms = LEN →
  foldl apply_write ms (omap (write_for cfg transform) l) !! p = Some m →
  (ms !! p = Some m
   ∧ ∀ pair m', pair ∈ l → write_for cfg transform pair ≠ Some (p, m'))
  ∨ (∃ pair, pair ∈ l ∧ write_for cfg transform pair = Some (p, m)
       ∧ ∀ pair' m', pair' ∈ l →
           write_for cfg transform pair' = Some (p, m') →
           pair' = pair ∨ row_major_lt pair' pair).
Proof.
  intros Hsorted Hlen. revert m Hsorted.
  induction l as [|x l IH] using rev_ind; intros m Hsorted Hlook.
  { left. split; [done|]. intros pair m' Hin. by apply elem_of_nil in Hin. }
  pose proof (StronglySorted_app_1_l _ _ _ Hsorted) as Hl.
  assert (∀ y, y ∈ l → row_major_lt y x) as Hbefore.
  { intros y Hy. apply (StronglySorted_app_1_elem_of _ _ _ _ _ Hsorted Hy).
    apply elem_of_cons. by left. }
  rewrite omap_app, foldl_app in Hlook. simpl in Hlook.
  destruct (write_for cfg transform x) as [[q mx]|] eqn:Hx; simpl in Hlook.
  - unfold apply_write in Hlook. simpl in Hlook.
    destruct (decide (q = p)) as [->|Hne].
    + rewrite list_lookup_insert_eq in Hlook.
      2:{ rewrite length_foldl_apply_write, Hlen.
          apply write_for_Some in Hx as (? & -> & _). lia. }
      injection Hlook as <-. right. exists x.
      split; [apply elem_of_app; right; apply elem_of_cons; by left|].
      split; [done|].
      intros pair' m' Hin _. apply elem_of_app in Hin as [Hin|Hin].
      * right. by apply Hbefore.
      * left. apply elem_of_cons in Hin as [->|Hin]; [done|].
        by apply elem_of_nil in Hin.
    + rewrite list_lookup_insert_ne in Hlook by done.
      destruct (IH m Hl Hlook) as [[Hms Hnone]|(pair & Hin & Hw & Hmax)].
      * left. split; [done|]. intros pair m' Hin.
        apply elem_of_app in Hin as [Hin|Hin]; [by apply Hnone|].
        apply elem_of_cons in Hin as [->|Hin]; [|by apply elem_of_nil in Hin].
        rewrite Hx. congruence.
      * right. exists pair. split; [apply elem_of_app; by left|].
        split; [done|].
        intros pair' m' Hin' Hw'. apply elem_of_app in Hin' as [Hin'|Hin'].
        -- by apply (Hmax pair' m').
        -- apply elem_of_cons in Hin' as [->|Hin'];
             [|by apply elem_of_nil in Hin'].
           rewrite Hx in Hw'. congruence.
  - destruct (IH m Hl Hlook) as [[Hms Hnone]|(pair & Hin & Hw & Hmax)].
    + left. split; [done|]. intros pair m' Hin.
      apply elem_of_app in Hin as [Hin|Hin]; [by apply Hnone|].
      apply elem_of_cons in Hin as [->|Hin]; [|by apply elem_of_nil in Hin].
      by rewrite Hx.
    + right. exists pair. split; [apply elem_of_app; by left|].
      split; [done|].
      intros pair' m' Hin' Hw'. apply elem_of_app in Hin' as [Hin'|Hin'].
      * by apply (Hmax pair' m').
      * apply elem_of_cons in Hin' as [->|Hin'];
          [|by apply elem_of_nil in Hin'].
        rewrite Hx in Hw'. discriminate Hw'.
Qed.

End Winner.

Section Claims.
Import KeyDiagnostics.
Variable cfg : config.
Local Abbreviation LEN := (ZMK_KEYMAP_LEN cfg).
Local Abbreviation gpios := (charlieplex_gpios cfg).

(** C7, amended.  Filling a report succeeds and writes one entry per
    position below [entry_count]: the key count of the cached layout when
    there is one, the keymap length otherwise, cut at the size of the
    [keys] array of the report (never an error when that size is
    exceeded).  Entry [i] carries position [i], the statistics the
    tracker holds for key [i] and the mapping just resolved for it.  The
    statement covers layouts whose entries stay inside [key_stats]
    ([environment_fits]). *)
Theorem report_entries_follow_layout
    (env : environment) (report0 : DiagnosticsReport) (st : statics) :
  length (key_stats st) = LEN →
  environment_fits cfg env →
  ∃ report st',
    key_diagnostics_fill_report cfg env report0 st = Some (report, st')
    ∧ key_stats st' = key_stats st
    ∧ keys_count report = entry_count cfg env
    ∧ length (report_keys report) = entry_count cfg env
    ∧ (entry_count cfg env ≤ REPORT_KEYS_SIZE cfg)%nat
    ∧ ∀ i, (i < entry_count cfg env)%nat →
        ∃ entry stats mapping,
          report_keys report !! i = Some entry
          ∧ key_stats st !! i = Some stats
          ∧ key_mappings st' !! i = Some mapping
          ∧ entry_merges i stats mapping entry.
Proof.
  intros Hlen Hfits.
  destruct (fill_report_spec cfg env report0 st Hlen Hfits)
    as (report & ms & Hfill & Hms & Hcount & HF).
  eexists report, _. split; [exact Hfill|].
  split; [by destruct (refresh_layout_cache_spec cfg env st) as (? & _)|].
  split; [done|].
  split; [apply Forall2_length in HF; by rewrite length_seq in HF|].
  split; [unfold entry_count; lia|].
  intros i Hi.
  destruct (Forall2_lookup_l _ _ _ i i HF) as (entry & He & stats & mapping & ?);
    [by apply lookup_seq_lt|].
  exists entry, stats, mapping. simpl. by destruct H as (? & ? & ?).
Qed.

(** C2.  A report request with [reset_after = true] answers with the
    counters each key had when the request arrived and leaves all
    statistics zeroed; a second request with [reset_after = false], no
    transition in between (the layout may have changed), answers with
    zero counters, no timestamp and a released state for every key. *)
Theorem report_reflects_counters_before_reset
    (env1 env2 : environment) (resp1 resp2 : Response) (st : statics) :
  length (key_stats st) = LEN →
  environment_fits cfg env1 →
  environment_fits cfg env2 →
  ∃ report1 st1 report2 st2,
    handle_get_report_request cfg env1 true resp1 st
      = Some (0, Response_diagnostics report1, st1)
    ∧ length (report_keys report1) = entry_count cfg env1
    ∧ (∀ i entry, report_keys report1 !! i = Some entry →
         ∃ stats, key_stats st !! i = Some stats
           ∧ entry_position entry = i
           ∧ entry_press_count entry = press_count stats
           ∧ entry_release_count entry = release_count stats
           ∧ entry_chatter_count entry = chatter_count stats
           ∧ entry_is_pressed entry = last_state stats
           ∧ entry_last_change_ms entry = last_change_ms stats)
    ∧ key_stats st1 = replicate LEN stats_zero
    ∧ handle_get_report_request cfg env2 false resp2 st1
      = Some (0, Response_diagnostics report2, st2)
    ∧ length (report_keys report2) = entry_count cfg env2
    ∧ (∀ entry, entry ∈ report_keys report2 →
         entry_press_count entry = 0
         ∧ entry_release_count entry = 0
         ∧ entry_chatter_count entry = 0
         ∧ entry_is_pressed entry = false
         ∧ entry_last_change_ms entry = 0).
Proof.
  intros Hlen Hfits1 Hfits2.
  destruct (fill_report_spec cfg env1 DiagnosticsReport_init_zero st Hlen Hfits1)
    as (report1 & ms1 & Hfill1 & _ & _ & HF1).
  set (st1 := key_diagnostics_reset_stats cfg
                (set_key_mappings ms1
                   (key_diagnostics_refresh_layout_cache env1 st))).
  assert (key_stats st1 = replicate LEN stats_zero) as Hzero by done.
  assert (length (key_stats st1) = LEN) as Hlen1
    by (by rewrite Hzero, length_replicate).
  destruct (fill_report_spec cfg env2 DiagnosticsReport_init_zero st1 Hlen1 Hfits2)
    as (report2 & ms2 & Hfill2 & _ & _ & HF2).
  exists report1, st1, report2. eexists.
  split; [unfold handle_get_report_request; by rewrite Hfill1|].
  split; [apply Forall2_length in HF1; by rewrite length_seq in HF1|].
  split.
  { intros i entry He.
    destruct (Forall2_lookup_r _ _ _ i entry HF1 He)
      as (i' & Hi' & stats & mapping & Hs & _ & Hmerge).
    apply lookup_seq in Hi' as [-> _]. simpl in *.
    exists stats.
    destruct Hmerge as (? & ? & ? & ? & ? & ? & _). by repeat split. }
  split; [done|].
  split; [unfold handle_get_report_request; by rewrite Hfill2|].
  split; [apply Forall2_length in HF2; by rewrite length_seq in HF2|].
  intros entry Hin. apply list_elem_of_lookup in Hin as [i He].
  destruct (Forall2_lookup_r _ _ _ i entry HF2 He)
    as (i' & Hi' & stats & mapping & Hs & _ & Hmerge).
  rewrite Hzero in Hs. apply lookup_replicate in Hs as [-> _].
  destruct Hmerge as (_ & ? & ? & ? & ? & ? & _). by repeat split.
Qed.

(** C5, amended.  With a charlieplex kscan of [n] lines and a cached
    layout, one pass meets exactly the [n * (n - 1)] ordered pairs of
    different lines, each once; it assigns to [key_mappings] exactly for
    the pairs whose transform lies in [0, keymap length), at that
    position; an entry left valid is one of these assignments, a
    position never assigned stays invalid, and the last assignment to a
    position is the one that stays.  A position some pair of different
    lines resolves to ends valid, and a valid entry holds, of all the
    pairs of different lines that resolve to its position, the one that
    is last row by row: every other such pair has a smaller row, or the
    same row and a smaller column.  No position is assigned two
    different mappings exactly when the transform sends different pairs
    to different positions; then no position is assigned twice and every
    assignment stays. *)
Theorem gpio_mapping_resolution (st : statics) (layout : zmk_physical_layout) :
  ZMK_KEY_DIAGNOSTICS_CHARLIEPLEX cfg = true →
  cached_layout_valid st = true →
  cached_layout st = Some layout →
  let n := length gpios in
  let transform := matrix_transform layout in
  let writes := mapping_writes cfg transform n in
  let injective :=
    ∀ r c r' c', (r, c) ∈ line_pairs n → (r', c') ∈ line_pairs n →
      0 <= transform r c < Z.of_nat LEN →
      transform r c = transform r' c' → (r, c) = (r', c') in
  length (line_pairs n) = (n * (n - 1))%nat
  ∧ NoDup (line_pairs n)
  ∧ (∀ r c, (r, c) ∈ line_pairs n ↔ (r < n ∧ c < n ∧ r ≠ c)%nat)
  ∧ (∀ p m, (p, m) ∈ writes ↔
       ∃ r c, (r, c) ∈ line_pairs n
              ∧ 0 <= transform r c < Z.of_nat LEN
              ∧ p = Z.to_nat (transform r c)
              ∧ m = {| row := r; column := c; valid := true |})
  ∧ ∃ st',
      key_diagnostics_build_gpio_mapping cfg st = Some st'
      ∧ key_stats st' = key_stats st
      ∧ key_mappings st'
        = foldl apply_write (replicate LEN mapping_zero) writes
      ∧ length (key_mappings st') = LEN
      ∧ (∀ p m, key_mappings st' !! p = Some m → valid m = true →
           (p, m) ∈ writes)
      ∧ (∀ p, p ∉ writes.*1 → (p < LEN)%nat →
           key_mappings st' !! p = Some mapping_zero)
      ∧ (∀ ws1 ws2 p m, writes = ws1 ++ (p, m) :: ws2 → p ∉ ws2.*1 →
           key_mappings st' !! p = Some m)
      ∧ (∀ p r c, (r < n ∧ c < n ∧ r ≠ c)%nat → (p < LEN)%nat →
           transform r c = Z.of_nat p →
           ∃ m, key_mappings st' !! p = Some m ∧ valid m = true)
      ∧ (∀ p m, key_mappings st' !! p = Some m → valid m = true →
           (row m < n ∧ column m < n ∧ row m ≠ column m)%nat
           ∧ (p < LEN)%nat
           ∧ transform (row m) (column m) = Z.of_nat p
           ∧ ∀ r c, (r < n ∧ c < n ∧ r ≠ c)%nat →
               transform r c = Z.of_nat p →
               (r, c) = (row m, column m)
               ∨ row_major_lt (r, c) (row m, column m))
      ∧ (single_assignment writes ↔ injective)
      ∧ (injective →
         NoDup writes.*1
         ∧ ∀ p m, (p, m) ∈ writes → key_mappings st' !! p = Some m).
Proof.
  intros Hc Hv Hl n transform writes injective.
  split; [by rewrite line_pairs_distinct, length_distinct_line_pairs|].
  split; [rewrite line_pairs_distinct; apply NoDup_distinct_line_pairs|].
  assert (∀ r c, (r, c) ∈ line_pairs n ↔ (r < n ∧ c < n ∧ r ≠ c)%nat)
    as Hpairs.
  { intros r c. rewrite line_pairs_distinct.
    apply elem_of_distinct_line_pairs. }
  split; [done|].
  split; [intros p m; apply elem_of_mapping_writes|].
  rewrite (build_gpio_mapping_charlieplex cfg st layout) by done.
  eexists. split; [reflexivity|]. simpl.
  fold n transform writes.
  assert (∀ ws1 ws2 p m, writes = ws1 ++ (p, m) :: ws2 → p ∉ ws2.*1 →
          foldl apply_write (replicate LEN mapping_zero) writes !! p = Some m)
    as Hlast.
  { intros ws1 ws2 p m Hsplit Hnot.
    assert ((p, m) ∈ writes) as Hin.
    { rewrite Hsplit. apply elem_of_app. right. apply elem_of_cons. by left. }
    apply mapping_writes_in_range in Hin as [Hp _].
    rewrite Hsplit. apply lookup_foldl_apply_write_last; [done|].
    by rewrite length_replicate. }
  split; [done|]. split; [done|].
  split; [by rewrite length_foldl_apply_write, length_replicate|].
  split.
  { intros p m Hlook Hvalid.
    apply lookup_foldl_apply_write_inv in Hlook as [Hz|Hin]; [|done].
    apply lookup_zero_mappings in Hz. congruence. }
  split.
  { intros p Hnot Hp. rewrite lookup_foldl_apply_write_notin by done.
    by apply lookup_replicate_2. }
  split; [done|].
  split.
  { intros p r c Hrc Hp Ht.
    assert ((p, {| row := r; column := c; valid := true |}) ∈ writes) as Hin.
    { apply elem_of_mapping_writes. exists r, c.
      split; [by apply Hpairs|]. rewrite Ht. split; [lia|]. split; [lia|done]. }
    destruct (last_write_exists writes p) as (ws1 & m & ws2 & Hsplit & Hnot).
    { apply list_elem_of_fmap. by eexists (_, _). }
    exists m. split; [by apply (Hlast ws1 ws2)|].
    assert ((p, m) ∈ writes) as Hin'.
    { rewrite Hsplit. apply elem_of_app. right. apply elem_of_cons. by left. }
    by apply mapping_writes_in_range in Hin' as [_ ?]. }
  split.
  { intros p m Hlook Hvalid.
    unfold writes in Hlook. rewrite mapping_writes_omap in Hlook.
    apply last_write_row_major in Hlook
        as [[Hzero _]|([r c] & Hin & Hw & Hmax)];
      [| |apply StronglySorted_distinct_line_pairs
       |by rewrite length_replicate].
    { apply lookup_zero_mappings in Hzero. congruence. }
    apply elem_of_distinct_line_pairs in Hin.
    apply write_for_Some in Hw as (Hrange & Hp & ->). simpl in *.
    split; [done|]. split; [lia|]. split; [lia|].
    intros r' c' Hrc' Ht'.
    destruct (Hmax (r', c') {| row := r'; column := c'; valid := true |})
      as [Heq|Hlt]; [by apply elem_of_distinct_line_pairs| |by left|by right].
    apply write_for_Some. simpl. rewrite Ht'. split; [lia|]. split; [lia|done]. }
  split.
  { split.
    - intros Hsingle r c r' c' Hin Hin' Hrange Heq.
      assert ({| row := r; column := c; valid := true |}
              = {| row := r'; column := c'; valid := true |}) as Hm.
      { apply (Hsingle (Z.to_nat (transform r c)));
          apply elem_of_mapping_writes.
        - by exists r, c.
        - exists r', c'. rewrite <- Heq. done. }
      by injection Hm as -> ->.
    - intros Hinj.
      pose proof (NoDup_mapping_writes cfg transform n Hinj) as Hnd.
      fold writes in Hnd.
      intros p m1 m2 H1 H2.
      apply list_elem_of_split in H1 as (ws1 & ws2 & Hsplit).
      rewrite Hsplit in H2, Hnd.
      rewrite fmap_app, fmap_cons in Hnd. simpl in Hnd.
      apply NoDup_app in Hnd as (_ & Hdisjoint & Hnd).
      apply NoDup_cons in Hnd as [Hnot _].
      apply elem_of_app in H2 as [H2|H2].
      + exfalso. apply (Hdisjoint p).
        * apply list_elem_of_fmap. by exists (p, m2).
        * apply elem_of_cons. by left.
      + apply elem_of_cons in H2 as [H2|H2]; [by injection H2|].
        exfalso. apply Hnot. apply list_elem_of_fmap. by exists (p, m2). }
  intros Hinj.
  pose proof (NoDup_mapping_writes cfg transform n Hinj) as Hnd.
  fold writes in Hnd. split; [done|].
  intros p m Hin.
  apply list_elem_of_split in Hin as (ws1 & ws2 & Hsplit).
  apply (Hlast ws1 ws2); [done|].
  rewrite Hsplit, fmap_app, fmap_cons in Hnd. simpl in Hnd.
  apply NoDup_app in Hnd as (_ & _ & Hnd).
  by apply NoDup_cons in Hnd as [? _].
Qed.

End Claims.

(** ** The same on concrete keyboards *)

Section Instances.
Import KeyDiagnostics Examples.

Lemma environment_fits_two_keys :
  environment_fits plain_config (environment_of two_key_layout).
Proof.
  intros layout Hactive. vm_compute in Hactive. injection Hactive as <-.
  split; [simpl; lia|]. intros layout_keys Hkeys. discriminate Hkeys.
Defined.

Lemma chatter_counted_iff_within_window_witness :
  (position (release_at 1 120) < ZMK_KEYMAP_LEN plain_config)%nat ∧
  key_stats used_state !! position (release_at 1 120) = Some used_stats ∧
  (0 < last_change_ms used_stats →
   INT64_MIN <= timestamp (release_at 1 120) - last_change_ms used_stats
   <= INT64_MAX) ∧
  ∃ st' stats',
    key_diagnostics_listener plain_config
      (Event_position_state_changed (release_at 1 120)) used_state
      = Some (ZMK_EV_EVENT_BUBBLE, st')
    ∧ key_stats st' !! 1%nat = Some stats'
    ∧ chatter_count stats' = 2
    ∧ release_count stats' = 3.
Proof.
  assert (position (release_at 1 120) < ZMK_KEYMAP_LEN plain_config)%nat
    as Hpos by (simpl; lia).
  assert (key_stats used_state !! position (release_at 1 120) = Some used_stats)
    as Hstats by reflexivity.
  assert (0 < last_change_ms used_stats →
          INT64_MIN <= timestamp (release_at 1 120) - last_change_ms used_stats
          <= INT64_MAX) as Hrange
    by (intros _; unfold INT64_MIN, INT64_MAX; simpl; lia).
  destruct (chatter_counted_iff_within_window plain_config used_state
              (release_at 1 120) used_stats Hpos Hstats Hrange)
    as (st' & stats' & Hrun & Hlook & Hiff & _ & _ & _ & _ & Hrelease).
  split; [assumption|]. split; [assumption|]. split; [assumption|].
  exists st', stats'. split; [assumption|]. split; [assumption|].
  split; [|assumption].
  apply Hiff. simpl. lia.
Defined.

Lemma out_of_range_position_ignored_witness :
  (ZMK_KEYMAP_LEN plain_config ≤ position (release_at 7 120))%nat ∧
  key_diagnostics_listener plain_config
    (Event_position_state_changed (release_at 7 120)) used_state
  = Some (ZMK_EV_EVENT_BUBBLE, used_state).
Proof.
  assert (ZMK_KEYMAP_LEN plain_config ≤ position (release_at 7 120))%nat
    as Hpos by (simpl; lia).
  split; [assumption|].
  exact (out_of_range_position_ignored plain_config used_state
           (release_at 7 120) Hpos).
Defined.

Lemma listener_always_bubbles_witness :
  length (key_stats used_state) = ZMK_KEYMAP_LEN plain_config ∧
  ∃ st',
    key_diagnostics_listener plain_config
      (Event_position_state_changed (release_at 1 120)) used_state
      = Some (ZMK_EV_EVENT_BUBBLE, st')
    ∧ length (key_stats st') = ZMK_KEYMAP_LEN plain_config.
Proof.
  assert (length (key_stats used_state) = ZMK_KEYMAP_LEN plain_config)
    as Hlen by reflexivity.
  split; [assumption|].
  exact (listener_always_bubbles plain_config used_state
           (Event_position_state_changed (release_at 1 120)) Hlen).
Defined.

Lemma rejected_request_leaves_state_witness :
  ∃ resp,
    Firmware.call_key_diagnostics plain_config (fun _ => None)
      (environment_of two_key_layout) [] firmware_state
      = Some (true, resp, firmware_state)
    ∧ Firmware.is_error resp = true.
Proof.
  exact (proj1 (rejected_request_leaves_state plain_config (fun _ => None)
                  5 60 32 (fun _ => None)
                  (environment_of two_key_layout) [] firmware_state)
               (or_introl eq_refl)).
Defined.

Lemma report_entries_follow_layout_witness :
  length (key_stats used_state) = ZMK_KEYMAP_LEN plain_config ∧
  environment_fits plain_config (environment_of two_key_layout) ∧
  ∃ report st',
    key_diagnostics_fill_report plain_config (environment_of two_key_layout)
      DiagnosticsReport_init_zero used_state = Some (report, st')
    ∧ keys_count report = 2%nat
    ∧ length (report_keys report) = 2%nat.
Proof.
  assert (length (key_stats used_state) = ZMK_KEYMAP_LEN plain_config)
    as Hlen by reflexivity.
  destruct (report_entries_follow_layout plain_config
              (environment_of two_key_layout) DiagnosticsReport_init_zero
              used_state Hlen environment_fits_two_keys)
    as (report & st' & Hfill & _ & Hcount & Hlength & _).
  split; [assumption|]. split; [exact environment_fits_two_keys|].
  exists report, st'. split; [assumption|]. split; assumption.
Defined.

Lemma report_reflects_counters_before_reset_witness :
  length (key_stats used_state) = ZMK_KEYMAP_LEN plain_config ∧
  environment_fits plain_config (environment_of two_key_layout) ∧
  ∃ report1 st1 report2 st2,
    handle_get_report_request plain_config (environment_of two_key_layout)
      true Response_init_zero used_state
      = Some (0, Response_diagnostics report1, st1)
    ∧ key_stats st1 = replicate 4 stats_zero
    ∧ handle_get_report_request plain_config (environment_of two_key_layout)
        false Response_init_zero st1
      = Some (0, Response_diagnostics report2, st2).
Proof.
  assert (length (key_stats used_state) = ZMK_KEYMAP_LEN plain_config)
    as Hlen by reflexivity.
  destruct (report_reflects_counters_before_reset plain_config
              (environment_of two_key_layout) (environment_of two_key_layout)
              Response_init_zero Response_init_zero used_state Hlen
              environment_fits_two_keys environment_fits_two_keys)
    as (report1 & st1 & report2 & st2 & Hfirst & _ & _ & Hzero & Hsecond & _).
  split; [assumption|]. split; [exact environment_fits_two_keys|].
  exists report1, st1, report2, st2.
  split; [assumption|]. split; assumption.
Defined.

Lemma gpio_mapping_resolution_witness :
  ZMK_KEY_DIAGNOSTICS_CHARLIEPLEX charlieplex_config = true ∧
  cached_layout_valid (cached grid_layout (initial_state charlieplex_config))
  = true ∧
  cached_layout (cached grid_layout (initial_state charlieplex_config))
  = Some grid_layout ∧
  length (line_pairs 3) = 6%nat ∧
  single_assignment
    (mapping_writes charlieplex_config (matrix_transform grid_layout) 3) ∧
  ∃ st',
    key_diagnostics_build_gpio_mapping charlieplex_config
      (cached grid_layout (initial_state charlieplex_config)) = Some st'.
Proof.
  assert (ZMK_KEY_DIAGNOSTICS_CHARLIEPLEX charlieplex_config = true)
    as Hkscan by reflexivity.
  assert (cached_layout_valid
            (cached grid_layout (initial_state charlieplex_config)) = true)
    as Hvalid by reflexivity.
  assert (cached_layout (cached grid_layout (initial_state charlieplex_config))
          = Some grid_layout) as Hlayout by reflexivity.
  destruct (gpio_mapping_resolution charlieplex_config _ grid_layout
              Hkscan Hvalid Hlayout)
    as (Hlength & _ & Hpairs & _ & st' & Hbuild & _ & _ & _ & _ & _ & _ & _ & _
        & Hsingle & _).
  split; [assumption|]. split; [assumption|]. split; [assumption|].
  split; [exact Hlength|].
  split; [|by exists st'].
  apply Hsingle. intros r c r' c' Hin Hin' _ Heq.
  apply Hpairs in Hin, Hin'. simpl in Hin, Hin', Heq.
  f_equal; lia.
Defined.

(** C5 as worded does not hold.  With a transform that sends every pair
    to position 0, on two lines and a keymap of one key, the pass assigns
    position 0 twice, first (0, 1) and then (1, 0), and keeps the
    second. *)
Lemma one_position_assigned_twice :
  mapping_writes single_key_config (matrix_transform collapsing_layout)
    (length (charlieplex_gpios single_key_config))
  = [(0%nat, {| row := 0; column := 1; valid := true |});
     (0%nat, {| row := 1; column := 0; valid := true |})]
  ∧ key_diagnostics_build_gpio_mapping single_key_config
      (cached collapsing_layout (initial_state single_key_config))
    = Some (set_key_mappings [{| row := 1; column := 0; valid := true |}]
              (cached collapsing_layout (initial_state single_key_config)))
  ∧ ¬ single_assignment
        (mapping_writes single_key_config (matrix_transform collapsing_layout)
           (length (charlieplex_gpios single_key_config))).
Proof.
  split; [reflexivity|]. split; [reflexivity|].
  intros Hsingle.
  specialize (Hsingle 0%nat {| row := 0; column := 1; valid := true |}
                {| row := 1; column := 0; valid := true |}).
  assert ({| row := 0; column := 1; valid := true |}
          = {| row := 1; column := 0; valid := true |}) as Heq.
  { apply Hsingle.
    - apply elem_of_cons. by left.
    - apply elem_of_cons. right. apply elem_of_cons. by left. }
  discriminate Heq.
Qed.

(** C7 as worded does not hold.  With a keymap of four keys, room for
    eight entries and a selected layout of two keys, the report has two
    entries, not [min 4 8 = 4]. *)
Lemma report_shorter_than_keymap :
  (ZMK_KEYMAP_LEN plain_config `min` REPORT_KEYS_SIZE plain_config)%nat = 4%nat
  ∧ ∃ report st',
      key_diagnostics_fill_report plain_config (environment_of two_key_layout)
        DiagnosticsReport_init_zero used_state = Some (report, st')
      ∧ keys_count report = 2%nat
      ∧ length (report_keys report) = 2%nat.
Proof.
  split; [reflexivity|].
  eexists _, _. split; [vm_compute; reflexivity|]. by split.
Qed.

End Instances.

(** ** More on the ring buffer: the work item, clearing, the caller's array *)

Section RingMore.
Import BatteryHistory BatteryHistoryHandler BatteryHistoryWork.

Variable MAX : Z.
Variable INTERVAL : Z.
Hypothesis MAX_pos : 0 < MAX.
Hypothesis MAX_fits : 2 * MAX <= 2 ^ 32.

Local Abbreviation sample_of := (fun r : Z * Z => sample_at r.1 r.2).

Lemma run_work_store_all (readings : list (Z * Z)) st :
  run_work MAX INTERVAL readings st
  = store_all MAX (sample_of <$> readings) st.
Proof.
  unfold run_work, store_all. revert st.
  induction readings as [|r rs IH]; intros st; [done|].
  simpl. apply IH.
Qed.

Lemma read_samples_suffix st (m : Z) :
  ring_invariant MAX st →
  ∃ j, read_samples MAX m st = drop j (contents MAX st).
Proof.
  intros Hinv. destruct (Z_le_gt_dec m 0) as [Hm|Hm].
  - exists (length (contents MAX st)).
    rewrite read_samples_nonpos by done. by rewrite drop_all.
  - rewrite read_samples_spec by (done || lia). by eexists.
Qed.

Lemma contents_empty st :
  ring_invariant MAX st → battery_history_count st = 0 → contents MAX st = [].
Proof.
  intros _ Hc. unfold contents. rewrite Hc. done.
Qed.

Lemma contents_store_all_empty st xs :
  ring_invariant MAX st → battery_history_count st = 0 →
  contents MAX (store_all MAX xs st) = last_n (Z.to_nat MAX) xs.
Proof.
  intros Hinv Hc. rewrite contents_store_all by done.
  by rewrite contents_empty.
Qed.

Lemma count_is_length_contents st :
  ring_invariant MAX st →
  battery_history_count st = Z.of_nat (length (contents MAX st)).
Proof. intros (_ & _ & Hc). rewrite length_contents. lia. Qed.

Lemma last_n_fmap {A B} (f : A → B) (n : nat) (l : list A) :
  last_n n (f <$> l) = f <$> last_n n l.
Proof. unfold last_n. by rewrite length_fmap, fmap_drop. Qed.

Lemma last_n_last_n {A} (a b : nat) (l : list A) :
  (a ≤ b)%nat → last_n a (last_n b l) = last_n a l.
Proof.
  intros Hab. unfold last_n. rewrite length_drop, drop_drop. f_equal. lia.
Qed.

(** X1.  The sampling work item.  [zmk_battery_history_init] returns 0,
    leaves the buffer as it is and schedules the first run at once.
    After the work handler ran once for each of a list of readings
    (uptime in milliseconds, level), starting on the zeroed buffer, the
    ring invariant holds, the number of stored entries is the smaller
    of the number of readings and the capacity, and a read of capacity
    entries returns the samples of the last capacity readings, oldest
    first: their timestamps are the uptimes divided by 1000 (toward
    zero) and cut to 32 bits, their levels the levels read.  Every run
    of the handler schedules the next one after the configured
    interval. *)
Theorem sampling_keeps_latest_readings (readings : list (Z * Z)) :
  (∀ st, zmk_battery_history_init st = (0, st, K_NO_WAIT)) ∧
  let st := run_work MAX INTERVAL readings (initial_state MAX) in
  let kept := last_n (Z.to_nat MAX) readings in
  ring_invariant MAX st ∧
  (zmk_battery_history_get_total_entries st).1
  = Z.of_nat (length readings `min` Z.to_nat MAX) ∧
  read_samples MAX MAX st
  = last_n (Z.to_nat MAX) (sample_of <$> readings) ∧
  timestamp_seconds <$> read_samples MAX MAX st
  = (fun r : Z * Z => (r.1 ÷ 1000) mod 2 ^ 32) <$> kept ∧
  level_percent <$> read_samples MAX MAX st = snd <$> kept ∧
  ∀ uptime_ms level s,
    (battery_history_work_handler MAX INTERVAL uptime_ms level s).2
    = K_SECONDS INTERVAL.
Proof.
  split; [done|].
  simpl. rewrite run_work_store_all.
  pose proof (ring_invariant_store_all MAX MAX_pos MAX_fits
                (sample_of <$> readings) _
                (ring_invariant_initial MAX MAX_pos)) as Hinv.
  pose proof (contents_store_all_empty (initial_state MAX)
                (sample_of <$> readings)
                (ring_invariant_initial MAX MAX_pos) eq_refl) as Hcontents.
  set (st := store_all MAX (sample_of <$> readings) (initial_state MAX)) in *.
  assert (battery_history_count st
          = Z.of_nat (length readings `min` Z.to_nat MAX)) as Hcount.
  { rewrite (count_is_length_contents st Hinv), Hcontents.
    rewrite length_last_n, length_fmap. lia. }
  assert (read_samples MAX MAX st
          = last_n (Z.to_nat MAX) (sample_of <$> readings)) as Hread.
  { rewrite read_samples_spec by (done || lia).
    rewrite Hcontents, Hcount. apply last_n_ge.
    rewrite length_last_n, length_fmap. lia. }
  split; [done|]. split; [done|]. split; [done|].
  rewrite Hread, last_n_fmap, <- !list_fmap_compose.
  split; [done|]. split; [done|]. done.
Qed.

Lemma timestamp_of_reading (r : Z * Z) :
  0 <= r.1 < 2 ^ 32 * 1000 →
  timestamp_seconds (sample_at r.1 r.2) = r.1 / 1000.
Proof.
  intros Hr. simpl. unfold uint32_wrap.
  rewrite Z.quot_div_nonneg by lia.
  apply Z.mod_small. split.
  - apply Z.div_pos; lia.
  - apply Z.div_lt_upper_bound; lia.
Qed.

(** X2.  Samples come back in the order of time.  On a buffer that
    holds nothing, after the work handler ran for readings whose uptimes
    never decrease and lie in [0, 2^32 * 1000) milliseconds (so that the
    seconds fit the 32-bit field), the timestamps of every read, of any
    size, never decrease, and every returned sample is one of the
    readings: its timestamp is the uptime divided by 1000 and its level
    is the level read. *)
Theorem samples_read_in_time_order
    (readings : list (Z * Z)) (st : statics) (m : Z) :
  ring_invariant MAX st →
  battery_history_count st = 0 →
  nondecreasing (readings.*1) →
  (∀ r, r ∈ readings → 0 <= r.1 < 2 ^ 32 * 1000) →
  let got := read_samples MAX m (run_work MAX INTERVAL readings st) in
  nondecreasing (timestamp_seconds <$> got) ∧
  ∀ s, s ∈ got →
    ∃ r, r ∈ readings ∧ timestamp_seconds s = r.1 / 1000
         ∧ level_percent s = r.2.
Proof.
  intros Hinv Hcount Hsorted Hrange got.
  assert (∃ j, got = sample_of <$> drop j readings) as [j Hgot].
  { subst got. rewrite run_work_store_all.
    destruct (read_samples_suffix
                (store_all MAX (sample_of <$> readings) st) m) as [j Hj].
    { by apply ring_invariant_store_all. }
    rewrite Hj, contents_store_all_empty by done.
    unfold last_n. rewrite drop_drop, <- fmap_drop. by eexists. }
  rewrite Hgot. split.
  - intros i i' a b Hle Ha Hb.
    rewrite <- list_fmap_compose, list_lookup_fmap, lookup_drop in Ha, Hb.
    destruct (readings !! (j + i)%nat) as [r|] eqn:Hr; [|done].
    destruct (readings !! (j + i')%nat) as [r'|] eqn:Hr'; [|done].
    simpl in Ha, Hb. injection Ha as <-. injection Hb as <-.
    change (timestamp_seconds (sample_at r.1 r.2)
            <= timestamp_seconds (sample_at r'.1 r'.2)).
    rewrite !timestamp_of_reading
      by (apply Hrange; by eapply list_elem_of_lookup_2).
    apply Z.div_le_mono; [lia|].
    apply (Hsorted (j + i)%nat (j + i')%nat); [lia| |];
      rewrite list_lookup_fmap; [by rewrite Hr|by rewrite Hr'].
  - intros s Hs. apply list_elem_of_fmap in Hs as (r & -> & Hr).
    assert (r ∈ readings) as Hin.
    { apply list_elem_of_lookup in Hr as [i Hi]. rewrite lookup_drop in Hi.
      by eapply list_elem_of_lookup_2. }
    exists r. split; [done|]. split; [|done].
    by apply timestamp_of_reading, Hrange.
Qed.

(** X3.  Clearing forgets the samples without erasing them.
    [zmk_battery_history_clear] keeps the invariant and leaves the array
    itself as it was; afterwards the number of entries is 0 and a read
    of any size returns nothing.  Whatever is read after further pushes
    is a suffix of those pushes, never a sample from before the clear,
    and when no more than capacity samples were pushed a read of
    capacity entries returns exactly them. *)
Theorem clear_forgets_stored_samples
    (st : statics) (xs : list zmk_battery_history_sample) :
  ring_invariant MAX st →
  let st0 := zmk_battery_history_clear st in
  ring_invariant MAX st0 ∧
  battery_history st0 = battery_history st ∧
  (zmk_battery_history_get_total_entries st0).1 = 0 ∧
  (∀ m, read_samples MAX m st0 = []) ∧
  (∀ m, ∃ j, read_samples MAX m (store_all MAX xs st0) = drop j xs) ∧
  ((length xs ≤ Z.to_nat MAX)%nat →
   read_samples MAX MAX (store_all MAX xs st0) = xs).
Proof.
  intros Hinv st0.
  pose proof (ring_invariant_clear MAX MAX_pos st Hinv) as Hinv0.
  fold st0 in Hinv0.
  assert (contents MAX (store_all MAX xs st0) = last_n (Z.to_nat MAX) xs)
    as Hcontents by (by apply contents_store_all_empty).
  split; [done|]. split; [done|]. split; [done|].
  split; [|split].
  - intros m. destruct (read_samples_suffix st0 m Hinv0) as [j ->].
    subst st0. by rewrite contents_clear, drop_nil.
  - intros m.
    destruct (read_samples_suffix (store_all MAX xs st0) m) as [j ->].
    { by apply ring_invariant_store_all. }
    rewrite Hcontents. unfold last_n. rewrite drop_drop. by eexists.
  - intros Hlen.
    pose proof (ring_invariant_store_all MAX MAX_pos MAX_fits xs st0 Hinv0)
      as Hinv'.
    rewrite read_samples_spec by (done || lia).
    rewrite (count_is_length_contents _ Hinv'), Hcontents.
    rewrite !last_n_ge; (done || rewrite ?length_last_n; lia).
Qed.

(** X4.  What [zmk_battery_history_get_samples] does to the caller's
    array.  With a buffer that has room for the entries to copy, the
    call returns n, the smaller of the number of stored entries and
    [max_entries]; it leaves the state and the length of the buffer as
    they were, writes the n latest stored samples, oldest first, into
    the first n elements and does not touch the rest.  When the state
    was reached by pushing samples onto an empty buffer, these are the
    last n samples pushed.  Calling it again on the buffer just filled
    changes nothing.  With a null buffer it returns 0. *)
Theorem read_fills_only_what_it_returns
    (st : statics) (buf : list zmk_battery_history_sample) (m : Z) :
  ring_invariant MAX st →
  0 <= m →
  (Z.to_nat (Z.min (battery_history_count st) m) ≤ length buf)%nat →
  ∃ buf' n,
    zmk_battery_history_get_samples MAX (Some buf) m st = (Some buf', n, st)
    ∧ n = Z.min (battery_history_count st) m
    ∧ length buf' = length buf
    ∧ take (Z.to_nat n) buf' = last_n (Z.to_nat n) (contents MAX st)
    ∧ (∀ st0 xs,
         ring_invariant MAX st0 → battery_history_count st0 = 0 →
         st = store_all MAX xs st0 →
         n = Z.min (Z.of_nat (length xs)) (Z.min MAX m)
         ∧ take (Z.to_nat n) buf' = last_n (Z.to_nat n) xs)
    ∧ take (Z.to_nat n) buf' = read_samples MAX m st
    ∧ drop (Z.to_nat n) buf' = drop (Z.to_nat n) buf
    ∧ zmk_battery_history_get_samples MAX (Some buf') m st
      = (Some buf', n, st)
    ∧ zmk_battery_history_get_samples MAX None m st = (None, 0, st).
Proof.
  intros Hinv Hm Hroom. pose proof Hinv as (Hl & Hh & Hc).
  set (n := Z.min (battery_history_count st) m) in *.
  set (got := last_n (Z.to_nat n) (contents MAX st)).
  assert (length got = Z.to_nat n) as Hgot.
  { subst got. rewrite length_last_n, length_contents. lia. }
  assert (∀ st0 xs,
            ring_invariant MAX st0 → battery_history_count st0 = 0 →
            st = store_all MAX xs st0 →
            n = Z.min (Z.of_nat (length xs)) (Z.min MAX m)
            ∧ got = last_n (Z.to_nat n) xs) as Hpushed.
  { intros st0 xs Hinv0 Hempty Hst.
    pose proof (contents_store_all_empty st0 xs Hinv0 Hempty) as Hcontents.
    rewrite <- Hst in Hcontents.
    assert (battery_history_count st
            = Z.of_nat (length xs `min` Z.to_nat MAX)) as Hcount.
    { rewrite (count_is_length_contents st Hinv), Hcontents, length_last_n.
      lia. }
    split; [subst n; lia|].
    subst got. rewrite Hcontents. apply last_n_last_n. lia. }
  destruct (Z.eq_dec m 0) as [->|Hne].
  - exists buf, 0.
    assert (n = 0) as Hn by (subst n; lia).
    assert (got = []) as Hnil.
    { apply length_zero_iff_nil. rewrite Hgot, Hn. done. }
    rewrite Hn in Hpushed. rewrite Hnil in Hpushed. simpl in Hpushed.
    split; [done|]. split; [lia|]. split; [done|].
    split; [subst got; by rewrite Hn in Hnil|].
    split; [done|].
    repeat split; done.
  - exists (got ++ drop (Z.to_nat n) buf), n.
    assert (length (got ++ drop (Z.to_nat n) buf) = length buf) as Hlen.
    { rewrite length_app, length_drop, Hgot. lia. }
    assert (take (Z.to_nat n) (got ++ drop (Z.to_nat n) buf) = got) as Htake
      by (by rewrite take_app_length').
    split; [apply get_samples_spec; (done || lia)|].
    split; [done|]. split; [done|].
    split; [done|].
    split; [by rewrite Htake|].
    split; [rewrite Htake; by rewrite read_samples_spec by (done || lia)|].
    split; [by rewrite drop_app_length' by done|].
    split; [|done].
    rewrite get_samples_spec by (done || lia).
    fold n got. by rewrite drop_app_length' by done.
Qed.

Variable ERROR_MESSAGE_SIZE : nat.
Variable pb_decode : list Byte.byte → option Request.

Local Abbreviation rpc :=
  (battery_history_rpc_handle_request MAX INTERVAL ERROR_MESSAGE_SIZE pb_decode).


(** X6.  A clear request empties the history.  A request that decodes
    to clear-history gets the response with [success] set and leaves the
    cleared buffer; a get-history request handled right after it gets a
    response with no samples, [samples_count] 0 and [total_entries] 0,
    while the capacity is still the configured one. *)
Theorem clear_request_empties_history
    (st : statics) (clear_payload get_payload : list Byte.byte) (m : Z) :
  ring_invariant MAX st →
  pb_decode clear_payload = Some Request_clear_history →
  pb_decode get_payload = Some (Request_get_history m) →
  0 <= m →
  rpc clear_payload st
  = (true, Response_clear_history {| success := true |},
     zmk_battery_history_clear st)
  ∧ ∃ h, rpc get_payload (zmk_battery_history_clear st)
         = (true, Response_history h, zmk_battery_history_clear st)
         ∧ samples h = []
         ∧ samples_count h = 0
         ∧ total_entries h = 0
         ∧ capacity h = MAX.
Proof.
  intros Hinv Hclear Hget Hm.
  pose proof (ring_invariant_clear MAX MAX_pos st Hinv) as Hinv0.
  split.
  - unfold battery_history_rpc_handle_request. by rewrite Hclear.
  - unfold battery_history_rpc_handle_request. rewrite Hget.
    rewrite handle_get_history_request_spec
      by (done || destruct (Z.eqb_spec m 0); lia).
    rewrite contents_clear. unfold last_n. rewrite drop_nil.
    eexists. split; [reflexivity|]. simpl.
    split; [done|]. split; [destruct (Z.eqb_spec m 0); lia|]. done.
Qed.

End RingMore.

(** ** Runs of events *)

Section Runs.
Import KeyDiagnostics KeyDiagnosticsRuns.
Variable cfg : config.
Local Abbreviation LEN := (ZMK_KEYMAP_LEN cfg).

Lemma transitions_of_cons (p : nat) eh events :
  transitions_of p (eh :: events)
  = transitions_of p [eh] ++ transitions_of p events.
Proof.
  unfold transitions_of. simpl.
  by destruct (as_zmk_position_state_changed eh ≫= _).
Qed.

Lemma record_all_app evs1 evs2 stats :
  record_all cfg (evs1 ++ evs2) stats
  = record_all cfg evs2 (record_all cfg evs1 stats).
Proof. unfold record_all. by rewrite foldl_app. Qed.

(** One call of the listener, seen from every key. *)
Lemma listener_step (eh : zmk_event) (st : statics) :
  length (key_stats st) = LEN →
  ∃ st',
    key_diagnostics_listener cfg eh st = Some (ZMK_EV_EVENT_BUBBLE, st')
    ∧ length (key_stats st') = LEN
    ∧ key_mappings st' = key_mappings st
    ∧ cached_layout st' = cached_layout st
    ∧ cached_layout_index st' = cached_layout_index st
    ∧ cached_layout_valid st' = cached_layout_valid st
    ∧ ∀ p stats, key_stats st !! p = Some stats →
        key_stats st' !! p
        = Some (record_all cfg (transitions_of p [eh]) stats).
Proof.
  intros Hlen. destruct eh as [ev|]; unfold key_diagnostics_listener; simpl.
  - destruct (Nat.leb_spec LEN (position ev)) as [Hge|Hlt].
    + exists st. repeat split; try done.
      intros p stats Hp. unfold transitions_of. simpl.
      rewrite decide_False; [done|].
      intros <-. apply lookup_lt_Some in Hp. lia.
    + destruct (lookup_lt_is_Some_2 (key_stats st) (position ev)) as [s0 Hs0];
        [lia|].
      rewrite Hs0. simpl. eexists. split; [reflexivity|]. simpl.
      split; [by rewrite length_insert|].
      repeat split; try done.
      intros p stats Hp. unfold transitions_of. simpl.
      destruct (decide (position ev = p)) as [<-|Hne]; simpl.
      * rewrite list_lookup_insert_eq by lia. congruence.
      * by rewrite list_lookup_insert_ne.
  - exists st. by repeat split.
Qed.

Lemma deliver_all_spec (events : list zmk_event) (st : statics) :
  length (key_stats st) = LEN →
  ∃ st',
    deliver_all cfg events st = Some st'
    ∧ length (key_stats st') = LEN
    ∧ key_mappings st' = key_mappings st
    ∧ cached_layout st' = cached_layout st
    ∧ cached_layout_index st' = cached_layout_index st
    ∧ cached_layout_valid st' = cached_layout_valid st
    ∧ ∀ p stats, key_stats st !! p = Some stats →
        key_stats st' !! p
        = Some (record_all cfg (transitions_of p events) stats).
Proof.
  revert st. induction events as [|eh events IH]; intros st Hlen.
  - exists st. by repeat split.
  - destruct (listener_step eh st Hlen)
      as (st1 & Hrun & Hlen1 & Hm1 & Hl1 & Hi1 & Hv1 & Hstats1).
    destruct (IH st1 Hlen1)
      as (st' & Hrest & Hlen' & Hm' & Hl' & Hi' & Hv' & Hstats').
    exists st'.
    split; [simpl; rewrite Hrun; simpl; done|]. split; [done|].
    split; [congruence|]. split; [congruence|].
    split; [congruence|]. split; [congruence|].
    intros p stats Hp.
    rewrite transitions_of_cons, record_all_app.
    by apply Hstats', Hstats1.
Qed.

(** *** What a run of transitions leaves in the statistics of a key *)

Lemma uint32_wrap_range (x : Z) : 0 <= uint32_wrap x < 2 ^ 32.
Proof. unfold uint32_wrap. apply Z.mod_pos_bound. lia. Qed.

Lemma uint32_wrap_add_l (x y : Z) :
  uint32_wrap (uint32_wrap x + y) = uint32_wrap (x + y).
Proof. unfold uint32_wrap. by rewrite Zplus_mod_idemp_l. Qed.

Lemma presses_cons ev evs :
  presses (ev :: evs) = ((if state ev then 1 else 0) + presses evs)%nat.
Proof.
  unfold presses. rewrite filter_cons.
  destruct (state ev); case_decide; (done || congruence).
Qed.

Lemma releases_cons ev evs :
  releases (ev :: evs) = ((if state ev then 0 else 1) + releases evs)%nat.
Proof.
  unfold releases. rewrite filter_cons.
  destruct (state ev); case_decide; (done || congruence).
Qed.

Lemma presses_releases evs : (presses evs + releases evs = length evs)%nat.
Proof.
  induction evs as [|ev evs IH]; [done|].
  rewrite presses_cons, releases_cons. simpl. destruct (state ev); lia.
Qed.

Lemma counts_record_all evs stats :
  uint32_wrap (press_count (record_all cfg evs stats))
  = uint32_wrap (press_count stats + Z.of_nat (presses evs))
  ∧ uint32_wrap (release_count (record_all cfg evs stats))
    = uint32_wrap (release_count stats + Z.of_nat (releases evs)).
Proof.
  revert stats. induction evs as [|ev evs IH]; intros stats.
  - unfold presses, releases. simpl. by rewrite !Z.add_0_r.
  - change (record_all cfg (ev :: evs) stats)
      with (record_all cfg evs (record_transition cfg ev stats)).
    destruct (IH (record_transition cfg ev stats)) as [-> ->].
    rewrite presses_cons, releases_cons. simpl.
    destruct (state ev); simpl; rewrite ?uint32_wrap_add_l;
      split; f_equal; lia.
Qed.

Lemma counts_in_range evs stats :
  evs ≠ [] →
  0 <= press_count stats < 2 ^ 32 →
  0 <= release_count stats < 2 ^ 32 →
  0 <= press_count (record_all cfg evs stats) < 2 ^ 32
  ∧ 0 <= release_count (record_all cfg evs stats) < 2 ^ 32.
Proof.
  revert stats. induction evs as [|ev evs IH]; intros stats Hne Hp Hr; [done|].
  change (record_all cfg (ev :: evs) stats)
    with (record_all cfg evs (record_transition cfg ev stats)).
  assert (0 <= press_count (record_transition cfg ev stats) < 2 ^ 32
          ∧ 0 <= release_count (record_transition cfg ev stats) < 2 ^ 32)
    as [Hp' Hr'].
  { simpl. destruct (state ev); split;
      (done || apply uint32_wrap_range). }
  destruct evs as [|ev' evs]; [done|].
  by apply IH.
Qed.

Lemma chatter_step ev stats :
  0 <= chatter_count stats →
  0 <= chatter_count (record_transition cfg ev stats)
  <= chatter_count stats + 1.
Proof.
  intros Hc. simpl.
  pose proof (uint32_wrap_range (chatter_count stats + 1)) as Hw.
  assert (uint32_wrap (chatter_count stats + 1) <= chatter_count stats + 1).
  { unfold uint32_wrap. apply Z.mod_le; lia. }
  destruct (0 <? last_change_ms stats); [|lia].
  destruct (_ && _); lia.
Qed.

Lemma chatter_record_all evs stats :
  0 <= chatter_count stats →
  0 <= chatter_count (record_all cfg evs stats)
  <= chatter_count stats + Z.of_nat (length evs).
Proof.
  revert stats. induction evs as [|ev evs IH]; intros stats Hc.
  - simpl. lia.
  - change (record_all cfg (ev :: evs) stats)
      with (record_all cfg evs (record_transition cfg ev stats)).
    pose proof (chatter_step ev stats Hc) as Hstep.
    specialize (IH (record_transition cfg ev stats) ltac:(lia)).
    simpl length. lia.
Qed.

Lemma last_record_all evs ev stats :
  last evs = Some ev →
  last_state (record_all cfg evs stats) = state ev
  ∧ last_change_ms (record_all cfg evs stats) = timestamp ev.
Proof.
  intros Hlast. apply last_Some in Hlast as [evs' ->].
  by rewrite record_all_app.
Qed.

(** X7.  Each key is counted on its own.  On statistics of the
    declared size, handling a list of events one after the other never
    leaves the array; it keeps the size of the statistics, the mappings
    and the layout cache, and the statistics of every key afterwards
    are the ones obtained by applying, in order, only the transitions
    of that key to what the key had before.  A key without a transition
    in the run keeps its statistics. *)
Theorem key_statistics_follow_own_transitions
    (events : list zmk_event) (st : statics) :
  length (key_stats st) = LEN →
  ∃ st',
    deliver_all cfg events st = Some st'
    ∧ length (key_stats st') = LEN
    ∧ key_mappings st' = key_mappings st
    ∧ cached_layout st' = cached_layout st
    ∧ cached_layout_index st' = cached_layout_index st
    ∧ cached_layout_valid st' = cached_layout_valid st
    ∧ (∀ p stats, key_stats st !! p = Some stats →
         key_stats st' !! p
         = Some (record_all cfg (transitions_of p events) stats))
    ∧ (∀ p, transitions_of p events = [] →
         key_stats st' !! p = key_stats st !! p).
Proof.
  intros Hlen.
  destruct (deliver_all_spec events st Hlen)
    as (st' & Hrun & Hlen' & Hm & Hl & Hi & Hv & Hstats).
  exists st'. repeat (split; [done|]).
  intros p Hnone.
  destruct (key_stats st !! p) as [stats|] eqn:Hp.
  - rewrite (Hstats p stats Hp), Hnone. done.
  - apply lookup_ge_None in Hp. apply lookup_ge_None. lia.
Qed.

(** X8.  The counters count.  For a key whose statistics are zero,
    after any run of events the press counter is the number of presses
    of that key in the run and the release counter the number of its
    releases, both modulo 2^32; presses and releases add up to the
    transitions of the key; the chatter counter is at least 0 and at
    most the number of transitions minus one (the first transition
    after a reset never counts as chatter); without a transition the
    statistics are still zero; otherwise [last_state] and
    [last_change_ms] are those of the last transition of the key. *)
Theorem counters_count_transitions
    (events : list zmk_event) (st : statics) (p : nat) :
  length (key_stats st) = LEN →
  key_stats st !! p = Some stats_zero →
  let evs := transitions_of p events in
  ∃ st' stats',
    deliver_all cfg events st = Some st'
    ∧ key_stats st' !! p = Some stats'
    ∧ press_count stats' = uint32_wrap (Z.of_nat (presses evs))
    ∧ release_count stats' = uint32_wrap (Z.of_nat (releases evs))
    ∧ (presses evs + releases evs = length evs)%nat
    ∧ 0 <= chatter_count stats' <= Z.of_nat (length evs - 1)
    ∧ (evs = [] → stats' = stats_zero)
    ∧ (∀ ev, last evs = Some ev →
         last_state stats' = state ev ∧ last_change_ms stats' = timestamp ev).
Proof.
  intros Hlen Hzero evs.
  destruct (deliver_all_spec events st Hlen)
    as (st' & Hrun & _ & _ & _ & _ & _ & Hstats).
  specialize (Hstats p stats_zero Hzero). fold evs in Hstats.
  exists st', (record_all cfg evs stats_zero).
  split; [done|]. split; [done|].
  destruct (counts_record_all evs stats_zero) as [Hpress Hrelease].
  change (press_count stats_zero) with 0 in Hpress.
  change (release_count stats_zero) with 0 in Hrelease.
  rewrite Z.add_0_l in Hpress, Hrelease.
  assert (0 <= press_count (record_all cfg evs stats_zero) < 2 ^ 32
          ∧ 0 <= release_count (record_all cfg evs stats_zero) < 2 ^ 32)
    as [Hp Hr].
  { destruct evs as [|ev evs']; [simpl; lia|].
    apply counts_in_range; simpl; (done || lia). }
  split.
  { rewrite <- Hpress. unfold uint32_wrap. symmetry. by apply Z.mod_small. }
  split.
  { rewrite <- Hrelease. unfold uint32_wrap. symmetry. by apply Z.mod_small. }
  split; [apply presses_releases|].
  split.
  { destruct evs as [|ev evs']; [simpl; lia|].
    change (record_all cfg (ev :: evs') stats_zero)
      with (record_all cfg evs' (record_transition cfg ev stats_zero)).
    pose proof (chatter_record_all evs'
                  (record_transition cfg ev stats_zero)) as Hc.
    simpl in Hc. simpl length. lia. }
  split; [by intros ->|].
  intros ev Hlast. by apply last_record_all.
Qed.

End Runs.

(** ** More on reports *)

Section ReportMore.
Import KeyDiagnostics KeyDiagnosticsRuns.
Variable cfg : config.
Local Abbreviation LEN := (ZMK_KEYMAP_LEN cfg).
Local Abbreviation gpios := (charlieplex_gpios cfg).

(** The mapping and the layout cache are rebuilt before they are read:
    what was cached before has no part in the outcome. *)
Lemma refresh_then_build_stale_cache (env : environment) (st1 st2 : statics) :
  key_stats st1 = key_stats st2 →
  key_diagnostics_build_gpio_mapping cfg
    (key_diagnostics_refresh_layout_cache env st1)
  = key_diagnostics_build_gpio_mapping cfg
      (key_diagnostics_refresh_layout_cache env st2).
Proof.
  destruct st1 as [ks1 ms1 l1 i1 v1], st2 as [ks2 ms2 l2 i2 v2].
  simpl. intros ->.
  unfold key_diagnostics_refresh_layout_cache,
    key_diagnostics_build_gpio_mapping.
  destruct (length (physical_layouts env) =? 0)%nat; simpl;
    destruct (ZMK_KEY_DIAGNOSTICS_CHARLIEPLEX cfg); simpl; done.
Qed.

Lemma fill_report_stale_cache (env : environment)
    (report0 : DiagnosticsReport) (st1 st2 : statics) :
  key_stats st1 = key_stats st2 →
  key_diagnostics_fill_report cfg env report0 st1
  = key_diagnostics_fill_report cfg env report0 st2.
Proof.
  intros Heq. unfold key_diagnostics_fill_report.
  by rewrite (refresh_then_build_stale_cache env st1 st2 Heq).
Qed.

(** The steps of [key_diagnostics_fill_report], one by one. *)
Lemma fill_report_steps (env : environment)
    (report0 : DiagnosticsReport) (st : statics) :
  length (key_stats st) = LEN →
  environment_fits cfg env →
  let st1 := key_diagnostics_refresh_layout_cache env st in
  let name :=
    match active_layout cfg env with
    | Some layout =>
        match display_name layout with
        | Some name => snprintf_s (LAYOUT_NAME_SIZE cfg) name
        | None => layout_name report0
        end
    | None => layout_name report0
    end in
  let header :=
    {| layout_name := name;
       layout_index := cached_layout_index st1;
       kscan_type := key_diagnostics_get_kscan_type cfg;
       chatter_window_ms := CONFIG_ZMK_KEY_DIAGNOSTICS_CHATTER_WINDOW_MS cfg;
       physical_keys := physical_keys report0;
       physical_keys_count := physical_keys_count report0;
       report_keys := report_keys report0;
       keys_count := keys_count report0 |} in
  ∃ ms report1 entries,
    key_diagnostics_build_gpio_mapping cfg st1
      = Some (set_key_mappings ms st1)
    ∧ mappings_bounded cfg ms
    ∧ key_diagnostics_fill_physical_keys cfg header (set_key_mappings ms st1)
      = Some report1
    ∧ layout_name report1 = name
    ∧ layout_index report1 = cached_layout_index st1
    ∧ kscan_type report1 = key_diagnostics_get_kscan_type cfg
    ∧ chatter_window_ms report1
      = CONFIG_ZMK_KEY_DIAGNOSTICS_CHATTER_WINDOW_MS cfg
    ∧ Forall2
        (fun i entry =>
           ∃ stats mapping,
             key_stats st !! i = Some stats ∧ ms !! i = Some mapping
             ∧ key_diagnostics_apply_stats cfg i stats KeyDiagnostics_init_zero
                 (set_key_mappings ms st1) = Some entry)
        (seq 0 (entry_count cfg env)) entries
    ∧ (entry_count cfg env ≤ LEN)%nat
    ∧ key_diagnostics_fill_report cfg env report0 st
      = Some ({| layout_name := layout_name report1;
                 layout_index := layout_index report1;
                 kscan_type := kscan_type report1;
                 chatter_window_ms := chatter_window_ms report1;
                 physical_keys := physical_keys report1;
                 physical_keys_count := physical_keys_count report1;
                 report_keys := entries;
                 keys_count := entry_count cfg env |},
              set_key_mappings ms st1).
Proof.
  intros Hlen Hfits st1 name header.
  unfold key_diagnostics_fill_report.
  pose proof (report_key_count_spec cfg env st) as Hcount.
  destruct (refresh_layout_cache_spec cfg env st) as (Hstats & Hl & Hv).
  fold st1 in Hcount, Hstats, Hl, Hv |- *.
  destruct (build_gpio_mapping_spec cfg st1) as (ms & Hbuild & Hms).
  { rewrite Hv, Hl. by destruct (active_layout cfg env). }
  rewrite Hbuild. simpl.
  assert (entry_count cfg env ≤ LEN)%nat as Hbound.
  { unfold entry_count. unfold environment_fits in Hfits.
    destruct (active_layout cfg env) as [layout|]; [|lia].
    destruct (Hfits layout eq_refl) as [? _]. lia. }
  assert ((if cached_layout_valid st1
           then layout ← cached_layout st1;
                Some (match display_name layout with
                      | Some name => snprintf_s (LAYOUT_NAME_SIZE cfg) name
                      | None => layout_name report0
                      end)
           else Some (layout_name report0)) = Some name) as ->.
  { rewrite Hv, Hl. subst name. by destruct (active_layout cfg env). }
  simpl. fold header.
  destruct (fill_physical_keys_is_Some cfg header (set_key_mappings ms st1))
    as (report1 & Hphys & Hn & Hi & Hk & Hw).
  { simpl. rewrite Hv, Hl. intros Hvalid.
    destruct (active_layout cfg env) as [layout|] eqn:Hact; [|done].
    exists layout. split; [done|]. by destruct (Hfits layout Hact). }
  rewrite Hphys. simpl.
  change (report_key_count cfg (set_key_mappings ms st1))
    with (report_key_count cfg st1).
  rewrite Hcount. simpl.
  match goal with |- context [mapM ?f ?l] =>
    destruct (mapM_spec f
      (fun i entry =>
         ∃ stats mapping,
           key_stats st !! i = Some stats ∧ ms !! i = Some mapping
           ∧ key_diagnostics_apply_stats cfg i stats KeyDiagnostics_init_zero
               (set_key_mappings ms st1) = Some entry) l)
      as (entries & -> & HF) end.
  { intros i Hin. apply elem_of_seq in Hin. simpl. rewrite Hstats.
    destruct (lookup_lt_is_Some_2 (key_stats st) i) as [stats Hs]; [lia|].
    destruct (lookup_lt_is_Some_2 ms i) as [mapping Hm];
      [destruct Hms; lia|].
    rewrite Hs. simpl.
    destruct (apply_stats_spec cfg i stats (set_key_mappings ms st1) mapping)
      as (entry & He & _); [lia|done|done|].
    exists entry. split; [done|]. by exists stats, mapping. }
  simpl. exists ms, report1, entries.
  repeat (split; [done|]). done.
Qed.

Lemma apply_stats_invalid (i : nat) stats st mapping :
  (i < LEN)%nat →
  key_mappings st !! i = Some mapping →
  valid mapping = false →
  key_diagnostics_apply_stats cfg i stats KeyDiagnostics_init_zero st
  = Some {| entry_position := i;
            entry_press_count := press_count stats;
            entry_release_count := release_count stats;
            entry_chatter_count := chatter_count stats;
            entry_is_pressed := last_state stats;
            entry_last_change_ms := last_change_ms stats;
            entry_row := 0;
            entry_column := 0;
            entry_has_gpio_mapping := false;
            entry_drive_gpio := GpioPin_init_zero;
            entry_sense_gpio := GpioPin_init_zero |}.
Proof.
  intros Hi Hm Hv. unfold key_diagnostics_apply_stats.
  destruct (Nat.leb_spec LEN i) as [?|_]; [lia|].
  rewrite Hm. simpl. by rewrite Hv.
Qed.

Lemma apply_stats_valid (i : nat) stats st mapping drive sense :
  (i < LEN)%nat →
  key_mappings st !! i = Some mapping →
  valid mapping = true →
  ZMK_KEY_DIAGNOSTICS_CHARLIEPLEX cfg = true →
  gpios !! row mapping = Some drive →
  gpios !! column mapping = Some sense →
  key_diagnostics_apply_stats cfg i stats KeyDiagnostics_init_zero st
  = Some {| entry_position := i;
            entry_press_count := press_count stats;
            entry_release_count := release_count stats;
            entry_chatter_count := chatter_count stats;
            entry_is_pressed := last_state stats;
            entry_last_change_ms := last_change_ms stats;
            entry_row := row mapping;
            entry_column := column mapping;
            entry_has_gpio_mapping := true;
            entry_drive_gpio :=
              key_diagnostics_fill_gpio_pin cfg (Some drive) GpioPin_init_zero;
            entry_sense_gpio :=
              key_diagnostics_fill_gpio_pin cfg (Some sense) GpioPin_init_zero |}.
Proof.
  intros Hi Hm Hv Hc Hd Hs. unfold key_diagnostics_apply_stats.
  destruct (Nat.leb_spec LEN i) as [?|_]; [lia|].
  rewrite Hm. simpl. rewrite Hv, Hc, Hd. simpl. rewrite Hs. done.
Qed.

(** X9.  The report shows a transition as soon as the listener has
    recorded it.  For a position the report has an entry for, after the
    listener handled a transition of it, the entry of the report filled
    next carries that position, the state and the timestamp of the
    transition, and the press or release counter from before the event
    incremented (modulo 2^32), the other counter unchanged. *)
Theorem report_shows_latest_transition
    (env : environment) (st : statics) (ev : zmk_position_state_changed) :
  length (key_stats st) = LEN →
  environment_fits cfg env →
  (position ev < entry_count cfg env)%nat →
  ∃ st1 report st2 entry before,
    key_diagnostics_listener cfg (Event_position_state_changed ev) st
      = Some (ZMK_EV_EVENT_BUBBLE, st1)
    ∧ key_diagnostics_fill_report cfg env DiagnosticsReport_init_zero st1
      = Some (report, st2)
    ∧ key_stats st !! position ev = Some before
    ∧ report_keys report !! position ev = Some entry
    ∧ entry_position entry = position ev
    ∧ entry_is_pressed entry = state ev
    ∧ entry_last_change_ms entry = timestamp ev
    ∧ entry_press_count entry
      = (if state ev then uint32_wrap (press_count before + 1)
         else press_count before)
    ∧ entry_release_count entry
      = (if state ev then release_count before
         else uint32_wrap (release_count before + 1)).
Proof.
  intros Hlen Hfits Hpos.
  assert (entry_count cfg env ≤ LEN)%nat as Hbound.
  { by destruct (fill_report_steps env DiagnosticsReport_init_zero st Hlen Hfits)
      as (? & ? & ? & _ & _ & _ & _ & _ & _ & _ & _ & ? & _). }
  destruct (lookup_lt_is_Some_2 (key_stats st) (position ev)) as [before Hb];
    [lia|].
  set (st1 := set_key_stats
                (<[position ev := record_transition cfg ev before]>
                   (key_stats st)) st).
  assert (key_diagnostics_listener cfg (Event_position_state_changed ev) st
          = Some (ZMK_EV_EVENT_BUBBLE, st1)) as Hrun.
  { unfold key_diagnostics_listener. simpl.
    destruct (Nat.leb_spec LEN (position ev)) as [?|_]; [lia|].
    by rewrite Hb. }
  assert (length (key_stats st1) = LEN) as Hlen1
    by (subst st1; simpl; by rewrite length_insert).
  destruct (fill_report_spec cfg env DiagnosticsReport_init_zero st1 Hlen1 Hfits)
    as (report & ms & Hfill & _ & _ & HF).
  destruct (Forall2_lookup_l _ _ _ (position ev) (position ev) HF)
    as (entry & He & stats & mapping & Hs & _ & Hmerge);
    [by apply lookup_seq_lt|].
  subst st1. simpl in Hs.
  rewrite list_lookup_insert_eq in Hs by lia. injection Hs as <-.
  destruct Hmerge as (? & Hp & Hr & _ & ? & ? & _).
  eexists _, report, _, entry, before.
  split; [exact Hrun|]. split; [exact Hfill|].
  repeat (split; [done|]). done.
Qed.

(** X12.  The layout cache follows the selection.
    [key_diagnostics_refresh_layout_cache] never touches the statistics
    or the mappings.  Without layouts the cache is invalid, with index 0
    and no layout.  Otherwise the index used is the selected one when it
    lies in [0, number of layouts) and 0 when it does not; the cached
    layout is the element of the list at that index, the cached index is
    that index modulo 2^8 (the index itself when there are at most 256
    layouts), and the cache is valid exactly when that element is not
    null.  Refreshing twice gives what refreshing once gives. *)
Theorem layout_cache_follows_selection (env : environment) (st : statics) :
  let st' := key_diagnostics_refresh_layout_cache env st in
  let n := length (physical_layouts env) in
  let i :=
    if decide (0 <= selected_layout env < Z.of_nat n)
    then selected_layout env else 0 in
  key_stats st' = key_stats st
  ∧ key_mappings st' = key_mappings st
  ∧ (n = 0%nat →
     cached_layout st' = None ∧ cached_layout_index st' = 0
     ∧ cached_layout_valid st' = false)
  ∧ (n ≠ 0%nat →
     physical_layouts env !! Z.to_nat i = Some (cached_layout st')
     ∧ cached_layout_index st' = i mod 2 ^ 8
     ∧ ((n ≤ 256)%nat → cached_layout_index st' = i)
     ∧ (cached_layout_valid st' = true ↔ is_Some (cached_layout st')))
  ∧ key_diagnostics_refresh_layout_cache env st' = st'.
Proof.
  intros st' n i. subst st'.
  unfold key_diagnostics_refresh_layout_cache. fold n.
  destruct (Nat.eqb_spec n 0) as [Hn|Hn].
  - repeat split; done.
  - simpl.
    set (k := if (selected_layout env <? 0)
                 || (Z.of_nat n <=? selected_layout env)
              then 0 else selected_layout env).
    assert (k = i) as Hk.
    { subst k i.
      destruct (Z.ltb_spec (selected_layout env) 0);
        destruct (Z.leb_spec (Z.of_nat n) (selected_layout env));
        simpl; case_decide; lia. }
    assert (0 <= i < Z.of_nat n) as Hi by (subst i; case_decide; lia).
    rewrite Hk.
    destruct (lookup_lt_is_Some_2 (physical_layouts env) (Z.to_nat i))
      as [layout Hlayout]; [fold n; lia|].
    rewrite Hlayout. simpl.
    split; [done|]. split; [done|]. split; [done|].
    split.
    + intros _. split; [done|]. split; [done|].
      split.
      * intros Hsmall. apply Z.mod_small. lia.
      * destruct layout; split; (done || by eauto || by intros []).
    + by destruct st.
Qed.

Lemma build_gpio_mapping_idle st :
  ZMK_KEY_DIAGNOSTICS_CHARLIEPLEX cfg = false ∨ cached_layout_valid st = false →
  key_diagnostics_build_gpio_mapping cfg st
  = Some (set_key_mappings (replicate LEN mapping_zero) st).
Proof.
  intros Hidle. unfold key_diagnostics_build_gpio_mapping.
  destruct (ZMK_KEY_DIAGNOSTICS_CHARLIEPLEX cfg); simpl; [|done].
  destruct Hidle as [?|Hv]; [done|]. by rewrite Hv.
Qed.

(** X13.  Without a charlieplex kscan, or without an active layout, no
    entry has a mapping.  The report is filled, the mapping array left
    behind is all zero, [kscan_type] is charlieplex or unsupported as
    the build has it, the number of entries is the entry count, and
    every entry has [has_gpio_mapping] false, row 0, column 0 and zeroed
    drive and sense pins. *)
Theorem unsupported_kscan_reports_no_mapping
    (env : environment) (st : statics) :
  length (key_stats st) = LEN →
  environment_fits cfg env →
  ZMK_KEY_DIAGNOSTICS_CHARLIEPLEX cfg = false ∨ active_layout cfg env = None →
  ∃ report st',
    key_diagnostics_fill_report cfg env DiagnosticsReport_init_zero st
      = Some (report, st')
    ∧ key_mappings st' = replicate LEN mapping_zero
    ∧ kscan_type report
      = (if ZMK_KEY_DIAGNOSTICS_CHARLIEPLEX cfg
         then KSCAN_TYPE_CHARLIEPLEX else KSCAN_TYPE_UNSUPPORTED)
    ∧ length (report_keys report) = entry_count cfg env
    ∧ ∀ entry, entry ∈ report_keys report →
        entry_has_gpio_mapping entry = false
        ∧ entry_row entry = 0%nat
        ∧ entry_column entry = 0%nat
        ∧ entry_drive_gpio entry = GpioPin_init_zero
        ∧ entry_sense_gpio entry = GpioPin_init_zero.
Proof.
  intros Hlen Hfits Hidle.
  destruct (fill_report_steps env DiagnosticsReport_init_zero st Hlen Hfits)
    as (ms & report1 & entries & Hbuild & _ & _ & _ & _ & Hkscan & _
        & HF & Hbound & Hfill).
  destruct (refresh_layout_cache_spec cfg env st) as (_ & _ & Hv).
  rewrite build_gpio_mapping_idle in Hbuild.
  2:{ destruct Hidle as [?|Hnone]; [by left|right].
      by rewrite Hv, Hnone. }
  apply (f_equal (fmap key_mappings)) in Hbuild. simpl in Hbuild.
  injection Hbuild as <-.
  eexists _, _. split; [exact Hfill|]. simpl.
  split; [done|]. split; [done|].
  split; [apply Forall2_length in HF; by rewrite length_seq in HF|].
  intros entry Hin. apply list_elem_of_lookup in Hin as [i He].
  destruct (Forall2_lookup_r _ _ _ i entry HF He)
    as (i' & Hi' & stats & mapping & _ & Hm & Happly).
  apply lookup_seq in Hi' as [-> Hlt]. simpl in Hlt.
  rewrite (apply_stats_invalid i stats _ mapping) in Happly;
    [|lia|done|by apply lookup_replicate in Hm as [-> _]].
  by injection Happly as <-.
Qed.

(** X14.  With a charlieplex kscan and an active layout, an entry of
    the report has a mapping exactly when the transform sends some pair
    of distinct lines to its position.  A mapped entry names such a
    pair: its row and column are distinct lines below the number of
    lines, the transform sends them to the position of the entry, and
    its drive and sense pins are the port name (cut to the size of the
    field), pin and flags of these two lines, or zeroed when the line
    has no port.  An entry without mapping has row 0, column 0 and
    zeroed pins. *)
Theorem mapped_entry_names_its_lines
    (env : environment) (st : statics) (layout : zmk_physical_layout) :
  length (key_stats st) = LEN →
  environment_fits cfg env →
  ZMK_KEY_DIAGNOSTICS_CHARLIEPLEX cfg = true →
  active_layout cfg env = Some layout →
  let n := length gpios in
  let transform := matrix_transform layout in
  ∃ report st',
    key_diagnostics_fill_report cfg env DiagnosticsReport_init_zero st
      = Some (report, st')
    ∧ kscan_type report = KSCAN_TYPE_CHARLIEPLEX
    ∧ ∀ i entry, report_keys report !! i = Some entry →
        (entry_has_gpio_mapping entry = true ↔
         ∃ r c, (r < n ∧ c < n ∧ r ≠ c)%nat ∧ transform r c = Z.of_nat i)
        ∧ (entry_has_gpio_mapping entry = true →
           (entry_row entry < n ∧ entry_column entry < n
            ∧ entry_row entry ≠ entry_column entry)%nat
           ∧ transform (entry_row entry) (entry_column entry) = Z.of_nat i
           ∧ ∃ drive sense,
               gpios !! entry_row entry = Some drive
               ∧ gpios !! entry_column entry = Some sense
               ∧ entry_drive_gpio entry
                 = match port drive with
                   | Some name =>
                       {| pin_port := snprintf_s (GPIO_PORT_SIZE cfg) name;
                          pin_pin := pin drive;
                          pin_flags := dt_flags drive |}
                   | None => GpioPin_init_zero
                   end
               ∧ entry_sense_gpio entry
                 = match port sense with
                   | Some name =>
                       {| pin_port := snprintf_s (GPIO_PORT_SIZE cfg) name;
                          pin_pin := pin sense;
                          pin_flags := dt_flags sense |}
                   | None => GpioPin_init_zero
                   end)
        ∧ (entry_has_gpio_mapping entry = false →
           entry_row entry = 0%nat ∧ entry_column entry = 0%nat
           ∧ entry_drive_gpio entry = GpioPin_init_zero
           ∧ entry_sense_gpio entry = GpioPin_init_zero).
Proof.
  intros Hlen Hfits Hc Hactive n transform.
  destruct (fill_report_steps env DiagnosticsReport_init_zero st Hlen Hfits)
    as (ms & report1 & entries & Hbuild & Hms & _ & _ & _ & Hkscan & _
        & HF & Hbound & Hfill).
  destruct (refresh_layout_cache_spec cfg env st) as (_ & Hl & Hv).
  rewrite Hactive in Hl, Hv.
  rewrite (build_gpio_mapping_charlieplex cfg _ layout) in Hbuild by done.
  apply (f_equal (fmap key_mappings)) in Hbuild. simpl in Hbuild.
  injection Hbuild as Hw. fold n transform in Hw.
  set (writes := mapping_writes cfg transform n) in *.
  eexists _, _. split; [exact Hfill|]. simpl.
  split; [by rewrite Hkscan; unfold key_diagnostics_get_kscan_type; rewrite Hc|].
  intros i entry He.
  destruct (Forall2_lookup_r _ _ _ i entry HF He)
    as (i' & Hi' & stats & mapping & _ & Hm & Happly).
  apply lookup_seq in Hi' as [-> Hlt]. simpl in Hlt.
  assert ((∃ r c, (r < n ∧ c < n ∧ r ≠ c)%nat ∧ transform r c = Z.of_nat i)
          → valid mapping = true) as Hresolved.
  { intros (r & c & Hrc & Ht).
    assert ((i, {| row := r; column := c; valid := true |}) ∈ writes) as Hin.
    { apply elem_of_mapping_writes. exists r, c.
      rewrite line_pairs_distinct.
      split; [by apply elem_of_distinct_line_pairs|].
      rewrite Ht. split; [lia|]. split; [lia|done]. }
    destruct (last_write_exists writes i) as (ws1 & m' & ws2 & Hsplit & Hlast).
    { apply list_elem_of_fmap. by eexists (_, _). }
    assert ((i, m') ∈ writes) as Hin'.
    { rewrite Hsplit. apply elem_of_app. right. apply elem_of_cons. by left. }
    apply mapping_writes_in_range in Hin' as [_ Hvalid].
    rewrite <- Hw, Hsplit in Hm.
    rewrite lookup_foldl_apply_write_last in Hm;
      [|done|rewrite length_replicate; lia].
    by injection Hm as <-. }
  destruct (valid mapping) eqn:Hvalid.
  - assert ((i, mapping) ∈ writes) as Hin.
    { rewrite <- Hw in Hm.
      apply lookup_foldl_apply_write_inv in Hm as [Hz|Hin]; [|done].
      apply lookup_zero_mappings in Hz. congruence. }
    apply elem_of_mapping_writes in Hin as (r & c & Hpair & Hrange & Hi & ->).
    rewrite line_pairs_distinct in Hpair.
    apply elem_of_distinct_line_pairs in Hpair. simpl in *.
    destruct (lookup_lt_is_Some_2 gpios r) as [drive Hd]; [fold n; lia|].
    destruct (lookup_lt_is_Some_2 gpios c) as [sense Hs]; [fold n; lia|].
    rewrite (apply_stats_valid i stats _
               {| row := r; column := c; valid := true |} drive sense)
      in Happly; [|lia|done|done|done|done|done].
    injection Happly as <-. simpl.
    assert (transform r c = Z.of_nat i) as Ht by lia.
    split; [split; [intros _; by exists r, c|done]|].
    split; [|done].
    intros _. split; [done|]. split; [done|].
    exists drive, sense. split; [done|]. split; [done|].
    unfold key_diagnostics_fill_gpio_pin.
    by destruct (port drive), (port sense).
  - rewrite (apply_stats_invalid i stats _ mapping) in Happly;
      [|lia|done|done].
    injection Happly as <-. simpl.
    split; [split; [done|intros H; by apply Hresolved in H]|].
    split; [done|]. done.
Qed.

Lemma length_snprintf_s (size : nat) (s : string) :
  (String.length (snprintf_s size s) ≤ size - 1)%nat.
Proof.
  unfold snprintf_s. generalize (size - 1)%nat. intros n. revert n.
  induction s as [|a s IH]; intros [|n]; simpl; try lia.
  specialize (IH n). lia.
Qed.

Lemma snprintf_s_fits (size : nat) (s : string) :
  (String.length s < size)%nat → snprintf_s size s = s.
Proof.
  unfold snprintf_s. intros Hfit.
  assert (String.length s ≤ size - 1)%nat as Hle by lia.
  revert Hle. generalize (size - 1)%nat. clear Hfit. intros n. revert n.
  induction s as [|a s IH]; intros [|n] Hle; simpl in *; try done; try lia.
  f_equal. apply IH. lia.
Qed.

Lemma fill_physical_keys_spec (header : DiagnosticsReport) (st : statics) :
  (cached_layout_valid st = true →
   ∃ layout, cached_layout st = Some layout ∧
     ∀ layout_keys, keys layout = Some layout_keys →
       (keys_len layout ≤ length layout_keys)%nat) →
  match (if cached_layout_valid st then cached_layout st ≫= keys else None) with
  | None => key_diagnostics_fill_physical_keys cfg header st = Some header
  | Some layout_keys =>
      ∃ layout filled,
        cached_layout st = Some layout
        ∧ key_diagnostics_fill_physical_keys cfg header st
          = Some {| layout_name := layout_name header;
                    layout_index := layout_index header;
                    kscan_type := kscan_type header;
                    chatter_window_ms := chatter_window_ms header;
                    physical_keys := filled;
                    physical_keys_count :=
                      keys_len layout `min` REPORT_PHYSICAL_KEYS_SIZE cfg;
                    report_keys := report_keys header;
                    keys_count := keys_count header |}
        ∧ Forall2
            (fun i key =>
               ∃ attrs, layout_keys !! i = Some attrs
                        ∧ key = to_KeyPhysical cfg i attrs)
            (seq 0 (keys_len layout `min` REPORT_PHYSICAL_KEYS_SIZE cfg))
            filled
  end.
Proof.
  intros Hcache. unfold key_diagnostics_fill_physical_keys.
  destruct (cached_layout_valid st); simpl; [|done].
  destruct Hcache as (layout & -> & Hkeys); [done|]. simpl.
  destruct (keys layout) as [layout_keys|]; [|done].
  specialize (Hkeys layout_keys eq_refl).
  assert ((if (REPORT_PHYSICAL_KEYS_SIZE cfg <? keys_len layout)%nat
           then REPORT_PHYSICAL_KEYS_SIZE cfg else keys_len layout)
          = (keys_len layout `min` REPORT_PHYSICAL_KEYS_SIZE cfg)%nat) as ->.
  { destruct (Nat.ltb_spec (REPORT_PHYSICAL_KEYS_SIZE cfg) (keys_len layout));
      lia. }
  match goal with |- context [mapM ?f ?l] =>
    destruct (mapM_spec f
      (fun i key =>
         ∃ attrs, layout_keys !! i = Some attrs
                  ∧ key = to_KeyPhysical cfg i attrs) l)
      as (filled & -> & HF) end.
  { intros i Hi. apply elem_of_seq in Hi.
    destruct (lookup_lt_is_Some_2 layout_keys i) as [attrs Ha]; [lia|].
    rewrite Ha. simpl. eexists. split; [reflexivity|]. by exists attrs. }
  simpl. by exists layout, filled.
Qed.

(** X15.  The head of the report describes the active layout.  The
    report carries the cached layout index and the configured chatter
    window; its layout name is the display name of the active layout
    cut to the size of the field, or empty when there is no active
    layout or no name, and never longer than the field allows.  The
    number of physical keys is the length of the list written and stays
    within the capacity of the report.  With an active layout that has
    keys, it is the smaller of [keys_len] and that capacity, and the
    i-th physical key is the compound literal built from the i-th key
    of the layout: position i, its place and size, and its rotation
    only when rotation is configured.  Without an active layout, or
    with one that has no keys, no physical key is written. *)
Theorem report_describes_selected_layout
    (env : environment) (st : statics) :
  length (key_stats st) = LEN →
  environment_fits cfg env →
  ∃ report st',
    key_diagnostics_fill_report cfg env DiagnosticsReport_init_zero st
      = Some (report, st')
    ∧ cached_layout st' = active_layout cfg env
    ∧ layout_index report = cached_layout_index st'
    ∧ chatter_window_ms report
      = CONFIG_ZMK_KEY_DIAGNOSTICS_CHATTER_WINDOW_MS cfg
    ∧ (String.length (layout_name report) ≤ LAYOUT_NAME_SIZE cfg - 1)%nat
    ∧ layout_name report
      = match active_layout cfg env ≫= display_name with
        | Some name => snprintf_s (LAYOUT_NAME_SIZE cfg) name
        | None => ""%string
        end
    ∧ length (physical_keys report) = physical_keys_count report
    ∧ (physical_keys_count report ≤ REPORT_PHYSICAL_KEYS_SIZE cfg)%nat
    ∧ match active_layout cfg env with
      | None => physical_keys report = []
      | Some layout =>
          match keys layout with
          | None => physical_keys report = []
          | Some layout_keys =>
              physical_keys_count report
              = (keys_len layout `min` REPORT_PHYSICAL_KEYS_SIZE cfg)%nat
              ∧ ∀ i, (i < physical_keys_count report)%nat →
                  ∃ attrs, layout_keys !! i = Some attrs
                           ∧ physical_keys report !! i
                             = Some (to_KeyPhysical cfg i attrs)
          end
      end.
Proof.
  intros Hlen Hfits.
  destruct (fill_report_steps env DiagnosticsReport_init_zero st Hlen Hfits)
    as (ms & report1 & entries & _ & _ & Hphys & Hname & Hindex & _ & Hwin
        & _ & _ & Hfill).
  destruct (refresh_layout_cache_spec cfg env st) as (_ & Hl & Hv).
  set (st1 := key_diagnostics_refresh_layout_cache env st) in *.
  eexists _, _. split; [exact Hfill|]. simpl.
  split; [done|]. split; [done|]. split; [done|].
  assert (layout_name report1
          = match active_layout cfg env ≫= display_name with
            | Some name => snprintf_s (LAYOUT_NAME_SIZE cfg) name
            | None => ""%string
            end) as Hname'.
  { rewrite Hname. destruct (active_layout cfg env) as [layout|]; [|done].
    simpl. by destruct (display_name layout). }
  split.
  { rewrite Hname'. destruct (active_layout cfg env ≫= display_name).
    - apply length_snprintf_s.
    - simpl. lia. }
  split; [done|].
  match type of Hphys with
  | key_diagnostics_fill_physical_keys cfg ?h ?s = _ =>
      pose proof (fill_physical_keys_spec h s) as Hspec
  end.
  simpl in Hspec. rewrite Hv, Hl in Hspec.
  destruct (active_layout cfg env) as [layout|] eqn:Hact.
  - destruct (Hfits layout Hact) as [_ Hkeys].
    specialize (Hspec ltac:(intros _; by exists layout)).
    simpl in Hspec.
    destruct (keys layout) as [layout_keys|] eqn:Hk.
    + destruct Hspec as (layout' & filled & Hlayout' & Hfilled & HF).
      injection Hlayout' as <-.
      pose proof (eq_trans (eq_sym Hphys) Hfilled) as Heq.
      injection Heq as ->. simpl.
      pose proof (Forall2_length _ _ _ HF) as Hlength.
      rewrite length_seq in Hlength.
      split; [done|]. split; [lia|]. split; [done|].
      intros i Hi.
      destruct (Forall2_lookup_l _ _ _ i i HF) as (key & Hkey & attrs & Ha & ->);
        [by apply lookup_seq_lt|].
      by exists attrs.
    + pose proof (eq_trans (eq_sym Hphys) Hspec) as Heq.
      injection Heq as ->. simpl.
      split; [done|]. split; [lia|]. done.
  - specialize (Hspec ltac:(done)). simpl in Hspec.
    pose proof (eq_trans (eq_sym Hphys) Hspec) as Heq.
    injection Heq as ->. simpl.
    split; [done|]. split; [lia|]. done.
Qed.

End ReportMore.

(** ** Requests of the key diagnostics handler *)

Section Requests.
Import KeyDiagnostics KeyDiagnosticsRuns.
Variable cfg : config.
Variable pb_decode : list Byte.byte → option Request.
Local Abbreviation LEN := (ZMK_KEYMAP_LEN cfg).
Local Abbreviation rpc := (key_diagnostics_rpc_handle_request cfg pb_decode).

(** X10.  A reset request restarts the counting.  A request that
    decodes to reset gets the response with [ok] set, whatever the
    state; afterwards every key has zero statistics, while the mappings
    and the layout cache are as before.  A second reset changes
    nothing.  After any run of events that follows, the statistics of
    every key of the keymap are those of its own transitions in that
    run, applied to zero statistics. *)
Theorem reset_request_restarts_counting
    (env : environment) (payload : list Byte.byte) (st : statics)
    (events : list zmk_event) :
  pb_decode payload = Some Request_reset →
  ∃ st',
    rpc env payload st = Some (true, Response_reset {| ok := true |}, st')
    ∧ key_stats st' = replicate LEN stats_zero
    ∧ key_mappings st' = key_mappings st
    ∧ cached_layout st' = cached_layout st
    ∧ cached_layout_index st' = cached_layout_index st
    ∧ cached_layout_valid st' = cached_layout_valid st
    ∧ rpc env payload st' = Some (true, Response_reset {| ok := true |}, st')
    ∧ ∃ st'',
        deliver_all cfg events st' = Some st''
        ∧ ∀ p, (p < LEN)%nat →
            key_stats st'' !! p
            = Some (record_all cfg (transitions_of p events) stats_zero).
Proof.
  intros Hdecode.
  exists (key_diagnostics_reset_stats cfg st).
  unfold key_diagnostics_rpc_handle_request. rewrite Hdecode. simpl.
  split; [done|]. split; [done|].
  split; [by destruct st|]. split; [by destruct st|].
  split; [by destruct st|]. split; [by destruct st|].
  split; [by destruct st|].
  destruct (deliver_all_spec cfg events (key_diagnostics_reset_stats cfg st))
    as (st'' & Hrun & _ & _ & _ & _ & _ & Hstats).
  { destruct st. simpl. by rewrite length_replicate. }
  exists st''. split; [done|].
  intros p Hp. apply Hstats.
  destruct st. simpl. by apply lookup_replicate_2.
Qed.

(** X11.  Asking for a report without reset is repeatable.  On
    statistics of the declared size and with layouts that fit, a
    get-report request with [reset_after] false gets a diagnostics
    response and leaves the statistics as they were; the same request
    handled again gets the same response and leaves the same state; and
    any state with the same statistics gets that response and ends in
    that state: mappings and layout cache left by earlier calls have no
    part in the outcome. *)
Theorem report_request_is_repeatable
    (env : environment) (payload : list Byte.byte) (st : statics) :
  pb_decode payload = Some (Request_get_report false) →
  length (key_stats st) = LEN →
  environment_fits cfg env →
  ∃ report st',
    rpc env payload st = Some (true, Response_diagnostics report, st')
    ∧ key_stats st' = key_stats st
    ∧ rpc env payload st' = Some (true, Response_diagnostics report, st')
    ∧ ∀ other, key_stats other = key_stats st →
        rpc env payload other
        = Some (true, Response_diagnostics report, st').
Proof.
  intros Hdecode Hlen Hfits.
  destruct (fill_report_steps cfg env DiagnosticsReport_init_zero st Hlen Hfits)
    as (ms & report1 & entries & _ & _ & _ & _ & _ & _ & _ & _ & _ & Hfill).
  destruct (refresh_layout_cache_spec cfg env st) as (Hstats & _ & _).
  match type of Hfill with
  | _ = Some (?r, ?s) => set (report := r) in *; set (st' := s) in *
  end.
  exists report, st'.
  assert (∀ other, key_stats other = key_stats st →
            rpc env payload other
            = Some (true, Response_diagnostics report, st')) as Hany.
  { intros other Hother.
    unfold key_diagnostics_rpc_handle_request, handle_get_report_request.
    rewrite Hdecode.
    rewrite (fill_report_stale_cache cfg env _ other st Hother), Hfill.
    simpl. reflexivity. }
  assert (key_stats st' = key_stats st) as Hsame.
  { rewrite <- Hstats. subst st'.
    by destruct (key_diagnostics_refresh_layout_cache env st). }
  split; [by apply Hany|]. split; [done|].
  split; [by apply Hany|]. done.
Qed.

End Requests.

(** ** Any sequence of events and requests *)

Section Inputs.
Import KeyDiagnostics KeyDiagnosticsRuns.
Variable cfg : config.
Variable pb_decode : list Byte.byte → option Request.
Local Abbreviation LEN := (ZMK_KEYMAP_LEN cfg).
Local Abbreviation rpc := (key_diagnostics_rpc_handle_request cfg pb_decode).



End Inputs.

(** ** The further properties on concrete inputs *)

Section MoreInstances.
Import Examples Scenarios.

Lemma ring_invariant_three_of_five :
  BatteryHistory.ring_invariant 5
    (BatteryHistory.store_all 5 three_samples (BatteryHistory.initial_state 5)).
Proof.
  apply ring_invariant_store_all; [lia|lia|].
  unfold BatteryHistory.ring_invariant. simpl. lia.
Defined.

Lemma nondecreasing_three_readings :
  BatteryHistoryWork.nondecreasing (three_readings.*1).
Proof.
  intros i j a b Hle Ha Hb.
  destruct i as [|[|[|i]]], j as [|[|[|j]]]; simpl in Ha, Hb;
    try discriminate; try lia;
    injection Ha as <-; injection Hb as <-; lia.
Defined.

Lemma three_readings_in_range (r : Z * Z) :
  r ∈ three_readings → 0 <= r.1 < 2 ^ 32 * 1000.
Proof.
  intros Hr. unfold three_readings in Hr.
  repeat (apply elem_of_cons in Hr as [->|Hr]; [simpl; lia|]).
  by apply elem_of_nil in Hr.
Defined.

Lemma sampling_keeps_latest_readings_witness :
  0 < 2 ∧ 2 * 2 <= 2 ^ 32 ∧
  BatteryHistory.timestamp_seconds
    <$> BatteryHistory.read_samples 2 2
          (BatteryHistoryWork.run_work 2 60 three_readings
             (BatteryHistory.initial_state 2))
  = [61; 121] ∧
  BatteryHistory.level_percent
    <$> BatteryHistory.read_samples 2 2
          (BatteryHistoryWork.run_work 2 60 three_readings
             (BatteryHistory.initial_state 2))
  = [89; 89].
Proof.
  assert (0 < 2) as Hpos by lia.
  assert (2 * 2 <= 2 ^ 32) as Hfits by lia.
  destruct (sampling_keeps_latest_readings 2 60 Hpos Hfits three_readings)
    as (_ & _ & _ & _ & Htimes & Hlevels & _).
  exact (conj Hpos (conj Hfits (conj Htimes Hlevels))).
Defined.

Lemma samples_read_in_time_order_witness :
  0 < 2 ∧ 2 * 2 <= 2 ^ 32 ∧
  BatteryHistory.ring_invariant 2 (BatteryHistory.initial_state 2) ∧
  BatteryHistory.battery_history_count (BatteryHistory.initial_state 2) = 0 ∧
  BatteryHistoryWork.nondecreasing (three_readings.*1) ∧
  BatteryHistoryWork.nondecreasing
    (BatteryHistory.timestamp_seconds <$>
       BatteryHistory.read_samples 2 5
         (BatteryHistoryWork.run_work 2 60 three_readings
            (BatteryHistory.initial_state 2))).
Proof.
  assert (0 < 2) as Hpos by lia.
  assert (2 * 2 <= 2 ^ 32) as Hfits by lia.
  assert (BatteryHistory.ring_invariant 2 (BatteryHistory.initial_state 2))
    as Hinv by (unfold BatteryHistory.ring_invariant; simpl; lia).
  assert (BatteryHistory.battery_history_count (BatteryHistory.initial_state 2)
          = 0) as Hcount by reflexivity.
  pose proof (samples_read_in_time_order 2 60 Hpos Hfits three_readings
                (BatteryHistory.initial_state 2) 5 Hinv Hcount
                nondecreasing_three_readings three_readings_in_range)
    as Hordered.
  exact (conj Hpos (conj Hfits (conj Hinv (conj Hcount
           (conj nondecreasing_three_readings (proj1 Hordered)))))).
Defined.

Lemma clear_forgets_stored_samples_witness :
  0 < 5 ∧ 2 * 5 <= 2 ^ 32 ∧
  BatteryHistory.ring_invariant 5
    (BatteryHistory.store_all 5 three_samples (BatteryHistory.initial_state 5)) ∧
  (length five_samples ≤ Z.to_nat 5)%nat ∧
  BatteryHistory.read_samples 5 5
    (BatteryHistory.store_all 5 five_samples
       (BatteryHistory.zmk_battery_history_clear
          (BatteryHistory.store_all 5 three_samples
             (BatteryHistory.initial_state 5))))
  = five_samples.
Proof.
  assert (0 < 5) as Hpos by lia.
  assert (2 * 5 <= 2 ^ 32) as Hfits by lia.
  assert (length five_samples ≤ Z.to_nat 5)%nat as Hlen by (simpl; lia).
  destruct (clear_forgets_stored_samples 5 Hpos Hfits _ five_samples
              ring_invariant_three_of_five)
    as (_ & _ & _ & _ & _ & Hround).
  exact (conj Hpos (conj Hfits (conj ring_invariant_three_of_five
           (conj Hlen (Hround Hlen))))).
Defined.

Lemma read_fills_only_what_it_returns_witness :
  0 < 5 ∧ 2 * 5 <= 2 ^ 32 ∧
  let st :=
    BatteryHistory.store_all 5 three_samples (BatteryHistory.initial_state 5) in
  let buf := replicate 4 (sample 0 0) in
  BatteryHistory.ring_invariant 5 st ∧
  0 <= 2 ∧
  (Z.to_nat (Z.min (BatteryHistory.battery_history_count st) 2) ≤ length buf)%nat ∧
  ∃ buf',
    BatteryHistory.zmk_battery_history_get_samples 5 (Some buf) 2 st
    = (Some buf', 2, st)
    ∧ take 2 buf' = [sample 20 79; sample 30 79]
    ∧ drop 2 buf' = [sample 0 0; sample 0 0].
Proof.
  assert (0 < 5) as Hpos by lia.
  assert (2 * 5 <= 2 ^ 32) as Hfits by lia.
  assert (0 <= 2) as Hm by lia.
  assert (Z.to_nat
            (Z.min (BatteryHistory.battery_history_count
                      (BatteryHistory.store_all 5 three_samples
                         (BatteryHistory.initial_state 5))) 2)
          ≤ length (replicate 4 (sample 0 0)))%nat as Hroom by (simpl; lia).
  destruct (read_fills_only_what_it_returns 5 Hpos Hfits _
              (replicate 4 (sample 0 0)) 2
              ring_invariant_three_of_five Hm Hroom)
    as (buf' & n & Hcall & Hn & _ & Htake & _ & _ & Hdrop & _).
  subst n.
  exact (conj Hpos (conj Hfits (conj ring_invariant_three_of_five
           (conj Hm (conj Hroom
              (ex_intro _ buf' (conj Hcall (conj Htake Hdrop)))))))).
Defined.


Lemma clear_request_empties_history_witness :
  0 < 5 ∧ 2 * 5 <= 2 ^ 32 ∧
  let st :=
    BatteryHistory.store_all 5 three_samples (BatteryHistory.initial_state 5) in
  BatteryHistory.ring_invariant 5 st ∧
  battery_decoder [Byte.x02] = Some BatteryHistoryHandler.Request_clear_history ∧
  battery_decoder [Byte.x01] = Some (BatteryHistoryHandler.Request_get_history 2) ∧
  0 <= 2 ∧
  BatteryHistoryHandler.battery_history_rpc_handle_request 5 60 32
    battery_decoder [Byte.x02] st
  = (true,
     BatteryHistoryHandler.Response_clear_history
       {| BatteryHistoryHandler.success := true |},
     BatteryHistory.zmk_battery_history_clear st).
Proof.
  assert (0 < 5) as Hpos by lia.
  assert (2 * 5 <= 2 ^ 32) as Hfits by lia.
  assert (0 <= 2) as Hm by lia.
  assert (battery_decoder [Byte.x02]
          = Some BatteryHistoryHandler.Request_clear_history) as Hclear
    by reflexivity.
  assert (battery_decoder [Byte.x01]
          = Some (BatteryHistoryHandler.Request_get_history 2)) as Hget
    by reflexivity.
  exact (conj Hpos (conj Hfits (conj ring_invariant_three_of_five
           (conj Hclear (conj Hget (conj Hm
              (proj1 (clear_request_empties_history 5 60 Hpos Hfits 32
                        battery_decoder _ [Byte.x02] [Byte.x01] 2
                        ring_invariant_three_of_five Hclear Hget Hm)))))))).
Defined.

Import KeyDiagnostics KeyDiagnosticsRuns.

Lemma environment_fits_keyed :
  environment_fits plain_config (environment_of keyed_layout).
Proof.
  intros layout Hactive. vm_compute in Hactive. injection Hactive as <-.
  split; [simpl; lia|]. intros layout_keys Hkeys.
  injection Hkeys as <-. simpl. lia.
Defined.

Lemma environment_fits_grid :
  environment_fits charlieplex_config (environment_of grid_layout).
Proof.
  intros layout Hactive. unfold active_layout in Hactive. simpl in Hactive.
  injection Hactive as <-.
  split; [simpl; lia|]. intros layout_keys Hkeys. discriminate Hkeys.
Defined.



Lemma key_statistics_follow_own_transitions_witness :
  length (key_stats used_state) = ZMK_KEYMAP_LEN plain_config ∧
  ∃ st',
    deliver_all plain_config key_events used_state = Some st'
    ∧ key_stats st' !! 1%nat
      = Some {| press_count := 4; release_count := 3; chatter_count := 2;
                last_change_ms := 230; last_state := false |}
    ∧ key_stats st' !! 0%nat = Some stats_zero.
Proof.
  assert (length (key_stats used_state) = ZMK_KEYMAP_LEN plain_config)
    as Hlen by reflexivity.
  destruct (key_statistics_follow_own_transitions plain_config key_events
              used_state Hlen)
    as (st' & Hrun & _ & _ & _ & _ & _ & Hown & Hother).
  exact (conj Hlen
           (ex_intro _ st'
              (conj Hrun
                 (conj (Hown 1%nat used_stats eq_refl)
                       (Hother 0%nat eq_refl))))).
Defined.

Lemma counters_count_transitions_witness :
  length (key_stats (initial_state plain_config)) = ZMK_KEYMAP_LEN plain_config ∧
  key_stats (initial_state plain_config) !! 1%nat = Some stats_zero ∧
  ∃ st' stats',
    deliver_all plain_config key_events (initial_state plain_config) = Some st'
    ∧ key_stats st' !! 1%nat = Some stats'
    ∧ press_count stats' = 1
    ∧ release_count stats' = 1
    ∧ 0 <= chatter_count stats' <= 1.
Proof.
  assert (length (key_stats (initial_state plain_config))
          = ZMK_KEYMAP_LEN plain_config) as Hlen by reflexivity.
  assert (key_stats (initial_state plain_config) !! 1%nat = Some stats_zero)
    as Hzero by reflexivity.
  destruct (counters_count_transitions plain_config key_events
              (initial_state plain_config) 1 Hlen Hzero)
    as (st' & stats' & Hrun & Hlook & Hpress & Hrelease & _ & Hchatter & _).
  exact (conj Hlen (conj Hzero
           (ex_intro _ st' (ex_intro _ stats'
              (conj Hrun (conj Hlook
                 (conj Hpress (conj Hrelease Hchatter)))))))).
Defined.

Lemma report_shows_latest_transition_witness :
  length (key_stats used_state) = ZMK_KEYMAP_LEN plain_config ∧
  environment_fits plain_config (environment_of two_key_layout) ∧
  (position (release_at 1 120)
   < entry_count plain_config (environment_of two_key_layout))%nat ∧
  ∃ st1 report st2 entry,
    key_diagnostics_listener plain_config
      (Event_position_state_changed (release_at 1 120)) used_state
      = Some (ZMK_EV_EVENT_BUBBLE, st1)
    ∧ key_diagnostics_fill_report plain_config (environment_of two_key_layout)
        DiagnosticsReport_init_zero st1
      = Some (report, st2)
    ∧ report_keys report !! 1%nat = Some entry
    ∧ entry_is_pressed entry = false
    ∧ entry_last_change_ms entry = 120
    ∧ entry_press_count entry = 3
    ∧ entry_release_count entry = 3.
Proof.
  assert (length (key_stats used_state) = ZMK_KEYMAP_LEN plain_config)
    as Hlen by reflexivity.
  assert (position (release_at 1 120)
          < entry_count plain_config (environment_of two_key_layout))%nat
    as Hpos by (vm_compute; lia).
  destruct (report_shows_latest_transition plain_config
              (environment_of two_key_layout) used_state (release_at 1 120)
              Hlen environment_fits_two_keys Hpos)
    as (st1 & report & st2 & entry & before & Hrun & Hfill & Hbefore & Hentry
        & _ & Hstate & Htime & Hpress & Hrelease).
  injection Hbefore as <-.
  exact (conj Hlen (conj environment_fits_two_keys (conj Hpos
           (ex_intro _ st1 (ex_intro _ report (ex_intro _ st2
              (ex_intro _ entry
                 (conj Hrun (conj Hfill (conj Hentry
                    (conj Hstate (conj Htime
                       (conj Hpress Hrelease))))))))))))).
Defined.

Lemma reset_request_restarts_counting_witness :
  key_decoder [Byte.x02] = Some Request_reset ∧
  ∃ st' st'',
    key_diagnostics_rpc_handle_request plain_config key_decoder
      (environment_of two_key_layout) [Byte.x02] used_state
    = Some (true, Response_reset {| ok := true |}, st')
    ∧ key_stats st' = replicate 4 stats_zero
    ∧ deliver_all plain_config key_events st' = Some st''
    ∧ key_stats st'' !! 1%nat
      = Some {| press_count := 1; release_count := 1; chatter_count := 1;
                last_change_ms := 230; last_state := false |}.
Proof.
  assert (key_decoder [Byte.x02] = Some Request_reset) as Hdecode
    by reflexivity.
  destruct (reset_request_restarts_counting plain_config key_decoder
              (environment_of two_key_layout) [Byte.x02] used_state
              key_events Hdecode)
    as (st' & Hcall & Hstats & _ & _ & _ & _ & _ & st'' & Hrun & Hcounted).
  assert (1 < ZMK_KEYMAP_LEN plain_config)%nat as Hkey by (simpl; lia).
  exact (conj Hdecode
           (ex_intro _ st' (ex_intro _ st''
              (conj Hcall (conj Hstats
                 (conj Hrun (Hcounted 1%nat Hkey))))))).
Defined.

Lemma report_request_is_repeatable_witness :
  key_decoder [Byte.x01] = Some (Request_get_report false) ∧
  length (key_stats used_state) = ZMK_KEYMAP_LEN plain_config ∧
  environment_fits plain_config (environment_of two_key_layout) ∧
  ∃ report st',
    key_diagnostics_rpc_handle_request plain_config key_decoder
      (environment_of two_key_layout) [Byte.x01] used_state
    = Some (true, Response_diagnostics report, st')
    ∧ key_stats st' = key_stats used_state
    ∧ key_diagnostics_rpc_handle_request plain_config key_decoder
        (environment_of two_key_layout) [Byte.x01] st'
      = Some (true, Response_diagnostics report, st').
Proof.
  assert (key_decoder [Byte.x01] = Some (Request_get_report false))
    as Hdecode by reflexivity.
  assert (length (key_stats used_state) = ZMK_KEYMAP_LEN plain_config)
    as Hlen by reflexivity.
  destruct (report_request_is_repeatable plain_config key_decoder
              (environment_of two_key_layout) [Byte.x01] used_state
              Hdecode Hlen environment_fits_two_keys)
    as (report & st' & Hcall & Hstats & Hagain & _).
  exact (conj Hdecode (conj Hlen (conj environment_fits_two_keys
           (ex_intro _ report (ex_intro _ st'
              (conj Hcall (conj Hstats Hagain))))))).
Defined.

Lemma unsupported_kscan_reports_no_mapping_witness :
  length (key_stats used_state) = ZMK_KEYMAP_LEN plain_config ∧
  environment_fits plain_config (environment_of two_key_layout) ∧
  ZMK_KEY_DIAGNOSTICS_CHARLIEPLEX plain_config = false ∧
  ∃ report st',
    key_diagnostics_fill_report plain_config (environment_of two_key_layout)
      DiagnosticsReport_init_zero used_state
    = Some (report, st')
    ∧ key_mappings st' = replicate 4 mapping_zero
    ∧ kscan_type report = KSCAN_TYPE_UNSUPPORTED
    ∧ length (report_keys report) = 2%nat.
Proof.
  assert (length (key_stats used_state) = ZMK_KEYMAP_LEN plain_config)
    as Hlen by reflexivity.
  assert (ZMK_KEY_DIAGNOSTICS_CHARLIEPLEX plain_config = false) as Hkscan
    by reflexivity.
  destruct (unsupported_kscan_reports_no_mapping plain_config
              (environment_of two_key_layout) used_state
              Hlen environment_fits_two_keys (or_introl Hkscan))
    as (report & st' & Hfill & Hmappings & Htype & Hcount & _).
  exact (conj Hlen (conj environment_fits_two_keys (conj Hkscan
           (ex_intro _ report (ex_intro _ st'
              (conj Hfill (conj Hmappings (conj Htype Hcount)))))))).
Defined.

Lemma mapped_entry_names_its_lines_witness :
  length (key_stats (initial_state charlieplex_config))
  = ZMK_KEYMAP_LEN charlieplex_config ∧
  environment_fits charlieplex_config (environment_of grid_layout) ∧
  ZMK_KEY_DIAGNOSTICS_CHARLIEPLEX charlieplex_config = true ∧
  active_layout charlieplex_config (environment_of grid_layout)
  = Some grid_layout ∧
  ∃ report st',
    key_diagnostics_fill_report charlieplex_config (environment_of grid_layout)
      DiagnosticsReport_init_zero (initial_state charlieplex_config)
    = Some (report, st')
    ∧ kscan_type report = KSCAN_TYPE_CHARLIEPLEX
    ∧ ∀ i entry, report_keys report !! i = Some entry →
        entry_has_gpio_mapping entry = true ↔
        ∃ r c, (r < 3 ∧ c < 3 ∧ r ≠ c)%nat
               ∧ 3 * Z.of_nat r + Z.of_nat c = Z.of_nat i.
Proof.
  assert (length (key_stats (initial_state charlieplex_config))
          = ZMK_KEYMAP_LEN charlieplex_config) as Hlen by reflexivity.
  assert (ZMK_KEY_DIAGNOSTICS_CHARLIEPLEX charlieplex_config = true)
    as Hkscan by reflexivity.
  assert (active_layout charlieplex_config (environment_of grid_layout)
          = Some grid_layout) as Hactive by reflexivity.
  destruct (mapped_entry_names_its_lines charlieplex_config
              (environment_of grid_layout) (initial_state charlieplex_config)
              grid_layout Hlen environment_fits_grid Hkscan Hactive)
    as (report & st' & Hfill & Htype & Hentries).
  exact (conj Hlen (conj environment_fits_grid (conj Hkscan (conj Hactive
           (ex_intro _ report (ex_intro _ st'
              (conj Hfill (conj Htype
                 (fun i entry Hentry =>
                    proj1 (Hentries i entry Hentry)))))))))).
Defined.

Lemma report_describes_selected_layout_witness :
  length (key_stats used_state) = ZMK_KEYMAP_LEN plain_config ∧
  environment_fits plain_config (environment_of keyed_layout) ∧
  ∃ report st',
    key_diagnostics_fill_report plain_config (environment_of keyed_layout)
      DiagnosticsReport_init_zero used_state
    = Some (report, st')
    ∧ layout_name report = "a layout with a"%string
    ∧ physical_keys_count report = 2%nat
    ∧ ∃ attrs, [key_at 0 0; key_at 100 0] !! 1%nat = Some attrs
               ∧ physical_keys report !! 1%nat
                 = Some (to_KeyPhysical plain_config 1 attrs).
Proof.
  assert (length (key_stats used_state) = ZMK_KEYMAP_LEN plain_config)
    as Hlen by reflexivity.
  destruct (report_describes_selected_layout plain_config
              (environment_of keyed_layout) used_state
              Hlen environment_fits_keyed)
    as (report & st' & Hfill & _ & _ & _ & _ & Hname & _ & _ & Hkeys).
  destruct (Hkeys : physical_keys_count report = 2%nat
                    ∧ ∀ i, (i < physical_keys_count report)%nat →
                        ∃ attrs, [key_at 0 0; key_at 100 0] !! i = Some attrs
                                 ∧ physical_keys report !! i
                                   = Some (to_KeyPhysical plain_config i attrs))
    as [Hcount Hkey].
  assert (1 < physical_keys_count report)%nat as Hone
    by (rewrite Hcount; lia).
  exact (conj Hlen (conj environment_fits_keyed
           (ex_intro _ report (ex_intro _ st'
              (conj Hfill (conj Hname (conj Hcount (Hkey 1%nat Hone)))))))).
Defined.


End MoreInstances.
